(** * metamorph: the file_editor tool and the agent's loop protection

    A shallow embedding of
      - internal/agent/tools (the file_editor tool: createFile,
        ensureFileExists, replaceInFile, regexReplaceInFile, appendToFile,
        prependToFile, insertAtLine, EditFileContent), and
      - internal/agent/agent.go (LoopProtection, processToolUsages,
        executeTool, findTool and the loop of Run),
    with the properties of the specification stated and proved about it;
    and, further on, of the read_file tool (ReadFileContent), the
    action_limiter tool (initializeStats, checkLimits, recordAction,
    resetStats, ActionLimiter), truncateString and package config
    (LoadFromEnv, WithDefaults, Validate), with properties read off the
    code.

    Go strings are byte sequences: they are modelled by [string] (a list of
    8-bit characters).  Go's [int] is modelled by [Z]; every integer of the
    code is a length, a counter or a small configuration value, so the
    64-bit wrap-around is out of reach and is not written out. *)

From Stdlib Require Import ZArith Lia Bool List Ascii String DecimalString.
From stdpp Require Import gmap strings list fin_maps.
Import ListNotations.

Local Open Scope string_scope.
Local Open Scope Z_scope.

(* ===================================================================== *)
(** * Go's builtin operations on strings *)
(* ===================================================================== *)

(** [len(s)] *)
Definition len (s : string) : Z := Z.of_nat (String.length s).

(** [len(xs)] for a slice *)
Definition llen {A} (xs : list A) : Z := Z.of_nat (List.length xs).

Fixpoint str_take (n : nat) (s : string) : string :=
  match n, s with
  | S n', String a s' => String a (str_take n' s')
  | _, _ => ""
  end.

Fixpoint str_drop (n : nat) (s : string) : string :=
  match n, s with
  | S n', String _ s' => str_drop n' s'
  | _, _ => s
  end.

(** [s[:i]] and [s[i:]].  The code only slices at indices returned by
    [strings.Index], which are in range, so Go's bounds panic is not part
    of the model. *)
Definition slice_to (s : string) (i : Z) : string := str_take (Z.to_nat i) s.
Definition slice_from (s : string) (i : Z) : string := str_drop (Z.to_nat i) s.

(** [fmt.Sprintf("%d", n)] *)
Definition itoa (n : Z) : string := NilZero.string_of_int (Z.to_int n).

(* ===================================================================== *)
(** * Package strings of the Go standard library

    The functions the tool calls, with the behaviour of the library for a
    non-empty separator or search string (every call site of the tool
    passes one).  For an empty search string the library works on UTF-8
    runes, which is outside this model. *)
(* ===================================================================== *)

Module strings.

(** [strings.HasPrefix(s, prefix)] *)
Fixpoint HasPrefix (s prefix : string) : bool :=
  match prefix, s with
  | "", _ => true
  | String b p', String a s' => if Ascii.eqb a b then HasPrefix s' p' else false
  | String _ _, "" => false
  end.

Fixpoint index_from (s substr : string) : option nat :=
  if HasPrefix s substr then Some O
  else match s with
       | "" => None
       | String _ s' => option_map S (index_from s' substr)
       end.

(** [strings.Index(s, substr)]: the index of the first instance of
    [substr] in [s], or -1. *)
Definition Index (s substr : string) : Z :=
  match index_from s substr with
  | Some i => Z.of_nat i
  | None => -1
  end.

(** [strings.Contains(s, substr)] *)
Definition Contains (s substr : string) : bool := 0 <=? Index s substr.

(** The loop of [strings.Count]:
      for { i := Index(s, substr); if i == -1 { return n }
            n++; s = s[i+len(substr):] }
    Every round removes at least one byte of [s], so [len(s)+1] rounds
    are enough. *)
Fixpoint count_loop (fuel : nat) (s substr : string) (n : Z) : Z :=
  match fuel with
  | O => n
  | S fuel' =>
      let i := Index s substr in
      if i =? -1 then n
      else count_loop fuel' (slice_from s (i + len substr)) substr (n + 1)
  end.

(** [strings.Count(s, substr)]: the number of non-overlapping instances. *)
Definition Count (s substr : string) : Z :=
  count_loop (S (String.length s)) s substr 0.

(** The loop of [strings.Replace], on the part of [s] not yet copied:
      for i := 0; i < n; i++ {
        j := start + Index(s[start:], old)
        b.WriteString(s[start:j]); b.WriteString(new)
        start = j + len(old) }
      b.WriteString(s[start:]) *)
Fixpoint replace_loop (n : nat) (s old new : string) : string :=
  match n with
  | O => s
  | S n' =>
      let j := Index s old in
      slice_to s j ++ new ++ replace_loop n' (slice_from s (j + len old)) old new
  end.

(** [strings.Replace(s, old, new, n)] *)
Definition Replace (s old new : string) (n : Z) : string :=
  if String.eqb old new || (n =? 0) then s
  else
    let m := Count s old in
    if m =? 0 then s
    else
      let n := if (n <? 0) || (m <? n) then m else n in
      replace_loop (Z.to_nat n) s old new.

(** [strings.ReplaceAll(s, old, new)] *)
Definition ReplaceAll (s old new : string) : string := Replace s old new (-1).

(** [strings.Join(elems, sep)] *)
Definition Join (elems : list string) (sep : string) : string :=
  match elems with
  | [] => ""
  | e :: rest => e ++ List.fold_right (fun s acc => sep ++ s ++ acc) "" rest
  end.

(** The loop of [strings.Split] (genSplit with n < 0), where
    [n = Count(s, sep)] bounds the rounds:
      for i < n { m := Index(s, sep); if m < 0 { break }
                  a[i] = s[:m]; s = s[m+len(sep):]; i++ }
      a[i] = s *)
Fixpoint split_loop (n : nat) (s sep : string) : list string :=
  match n with
  | O => [s]
  | S n' =>
      let m := Index s sep in
      if m <? 0 then [s]
      else slice_to s m :: split_loop n' (slice_from s (m + len sep)) sep
  end.

(** [strings.Split(s, sep)] *)
Definition Split (s sep : string) : list string :=
  split_loop (Z.to_nat (Count s sep)) s sep.

End strings.

(* ===================================================================== *)
(** * Go errors *)
(* ===================================================================== *)

Inductive Errno := ENOENT | EISDIR | ENOTDIR.

(** A non-nil [error] value; a Go [error] is an [option error], [None]
    being [nil]. *)
Inductive error :=
| PathError (op path : string) (e : Errno)   (* *fs.PathError, from package os *)
| errorString (msg : string)                 (* fmt.Errorf(msg) without %w *)
| wrapError (msg : string) (err : error).    (* fmt.Errorf(msg + "%w", err) *)

Definition errno_message (e : Errno) : string :=
  match e with
  | ENOENT => "no such file or directory"
  | EISDIR => "is a directory"
  | ENOTDIR => "not a directory"
  end.

(** [err.Error()] *)
Fixpoint Error (err : error) : string :=
  match err with
  | PathError op path e => op ++ " " ++ path ++ ": " ++ errno_message e
  | errorString msg => msg
  | wrapError msg err' => msg ++ Error err'
  end.

(** What a Go function of type [(string, error)] returns. *)
Abbreviation GoResult := (string * option error)%type.

(* ===================================================================== *)
(** * Package os: the file system

    A file system maps a path to a regular file with its content or to a
    directory.  A directory entry stands for the directory and the chain
    of its parents ([os.MkdirAll] creates them together).  The errors of
    the model are the ones a path of the wrong kind causes (a missing
    file, a directory where a file is expected, a file where a directory
    is expected); permissions and device errors are not modelled. *)
(* ===================================================================== *)

Module os.

Inductive Node := File (content : string) | Dir.

Abbreviation FS := (gmap string Node).

(** [_, err := os.Stat(name)] *)
Definition Stat (name : string) (fs : FS) : option error :=
  match fs !! name with
  | Some _ => None
  | None => Some (PathError "stat" name ENOENT)
  end.

(** [os.IsNotExist(err)] *)
Definition IsNotExist (err : option error) : bool :=
  match err with
  | Some (PathError _ _ ENOENT) => true
  | _ => false
  end.

(** [os.MkdirAll(path, 0755)] *)
Definition MkdirAll (path : string) (fs : FS) : option error * FS :=
  match fs !! path with
  | Some Dir => (None, fs)
  | Some (File _) => (Some (PathError "mkdir" path ENOTDIR), fs)
  | None => (None, <[path := Dir]> fs)
  end.

(** [os.WriteFile(name, data, 0644)]: creates or truncates the file. *)
Definition WriteFile (name data : string) (fs : FS) : option error * FS :=
  match fs !! name with
  | Some Dir => (Some (PathError "open" name EISDIR), fs)
  | _ => (None, <[name := File data]> fs)
  end.

(** [os.ReadFile(name)] *)
Definition ReadFile (name : string) (fs : FS) : string * option error :=
  match fs !! name with
  | Some (File c) => (c, None)
  | Some Dir => ("", Some (PathError "read" name EISDIR))
  | None => ("", Some (PathError "open" name ENOENT))
  end.

(** [os.OpenFile(name, os.O_APPEND|os.O_WRONLY, 0644)] followed by
    [file.WriteString(data)] and the deferred [file.Close()]. *)
Definition AppendFile (name data : string) (fs : FS) : option error * FS :=
  match fs !! name with
  | Some (File c) => (None, <[name := File (c ++ data)]> fs)
  | Some Dir => (Some (PathError "open" name EISDIR), fs)
  | None => (Some (PathError "open" name ENOENT), fs)
  end.

End os.

(* ===================================================================== *)
(** * Package regexp, as the tool uses it

    The tool is written against the regexp package; its model is written
    against this interface, so what is proved of [regexReplaceInFile] for
    every engine holds whatever the engine matches. *)
(* ===================================================================== *)

Class RegexpEngine := {
  Regexp : Type;
  (** [regexp.Compile(pattern)] *)
  Compile : string -> error + Regexp;
  (** [re.FindAllString(s, n)] *)
  FindAllString : Regexp -> string -> Z -> list string;
  (** [re.ReplaceAllString(src, repl)] *)
  ReplaceAllString : Regexp -> string -> string -> string;
  (** [re.ReplaceAllStringFunc(src, repl)], where [repl] is a closure over
      mutable variables of type [S]: it is run on every match in turn. *)
  ReplaceAllStringFunc :
    forall {S : Type}, Regexp -> string -> (string -> S -> string * S) -> S -> string * S
}.

(* ===================================================================== *)
(** * internal/agent/tools: the file_editor tool *)
(* ===================================================================== *)

Module tools.
Import os.

(** [FileEditorInput] *)
Record FileEditorInput := {
  Path : string;
  Mode : string;
  OldStr : string;
  NewStr : string;
  Pattern : string;
  Content : string;
  LineNumber : Z;
  Limit : Z
}.

Section FileEditor.

(** [path.Dir] of the standard library. *)
Variable path_Dir : string -> string.

Context {engine : RegexpEngine}.

(** The raw JSON a tool receives, and [json.Unmarshal] into a
    [FileEditorInput]. *)
Variable RawMessage : Type.
Variable json_Unmarshal : RawMessage -> error + FileEditorInput.

(** [createFile] *)
Definition createFile (filePath content : string) (fs : FS) : GoResult * FS :=
  match Stat filePath fs with
  | None =>
      (("File " ++ filePath ++
        " already exists. Use append, prepend, or replace modes to modify it.", None), fs)
  | Some _ =>
      let dir := path_Dir filePath in
      let '(err, fs) :=
        if negb (String.eqb dir ".") then MkdirAll dir fs else (None, fs) in
      match err with
      | Some e => (("", Some (wrapError "failed to create directory: " e)), fs)
      | None =>
          let '(err, fs) := WriteFile filePath content fs in
          match err with
          | Some e => (("", Some (wrapError "failed to create file: " e)), fs)
          | None => (("Successfully created file " ++ filePath, None), fs)
          end
      end
  end.

(** [ensureFileExists] *)
Definition ensureFileExists (filePath : string) (fs : FS) : option error * FS :=
  if IsNotExist (Stat filePath fs) then
    let dir := path_Dir filePath in
    let '(err, fs) :=
      if negb (String.eqb dir ".") then MkdirAll dir fs else (None, fs) in
    match err with
    | Some e => (Some (wrapError "failed to create directory: " e), fs)
    | None => WriteFile filePath "" fs
    end
  else (None, fs).

(** The loop of [replaceInFile] for a positive limit:
      for count < limit {
        i := strings.Index(remaining, oldStr)
        if i == -1 { break }
        parts = append(parts, remaining[:i], newStr)
        remaining = remaining[i+len(oldStr):]
        count++ }
    [oldStr] is not empty here, so every round removes at least one
    byte of [remaining]: the fuel bounds the rounds by its length. *)
Fixpoint replace_limited (fuel : nat) (oldStr newStr : string) (limit : Z)
    (remaining : string) (parts : list string) (count : Z)
    : string * list string * Z :=
  match fuel with
  | O => (remaining, parts, count)
  | S fuel' =>
      if count <? limit then
        let i := strings.Index remaining oldStr in
        if i =? -1 then (remaining, parts, count)
        else
          replace_limited fuel' oldStr newStr limit
            (slice_from remaining (i + len oldStr))
            (parts ++ [slice_to remaining i; newStr])%list
            (count + 1)
      else (remaining, parts, count)
  end.

(** [replaceInFile] *)
Definition replaceInFile (filePath oldStr newStr : string) (limit : Z) (fs : FS)
    : GoResult * FS :=
  if String.eqb oldStr "" then
    (("", Some (errorString "old_str cannot be empty")), fs)
  else if String.eqb oldStr newStr then
    (("No changes needed - old_str and new_str are identical", None), fs)
  else
    let '(err, fs) := ensureFileExists filePath fs in
    match err with
    | Some e => (("", Some e), fs)
    | None =>
        let '(content, err) := ReadFile filePath fs in
        match err with
        | Some e => (("", Some (wrapError "failed to read file: " e)), fs)
        | None =>
            let fileContent := content in
            let '(count, newContent) :=
              if 0 <? limit then
                let '(remaining, parts, count) :=
                  replace_limited (S (String.length fileContent))
                    oldStr newStr limit fileContent [] 0 in
                if 0 <? count then
                  (count, strings.Join (parts ++ [remaining])%list "")
                else (count, fileContent)
              else
                (strings.Count fileContent oldStr,
                 strings.ReplaceAll fileContent oldStr newStr) in
            if String.eqb fileContent newContent then
              (("", Some (errorString "old_str not found in file")), fs)
            else
              let '(err, fs) := WriteFile filePath newContent fs in
              match err with
              | Some e => (("", Some (wrapError "failed to write file: " e)), fs)
              | None =>
                  (("Successfully replaced " ++ itoa count ++
                    " occurrence(s) in " ++ filePath, None), fs)
              end
        end
    end.

(** The closure given to [ReplaceAllStringFunc] in [regexReplaceInFile];
    the captured variable [count] is its state. *)
Definition limited_repl (regex : Regexp) (newStr : string) (limit : Z)
    (match_ : string) (count : Z) : string * Z :=
  if count <? limit then (ReplaceAllString regex match_ newStr, count + 1)
  else (match_, count).

(** [regexReplaceInFile] *)
Definition regexReplaceInFile (filePath pattern newStr : string) (limit : Z) (fs : FS)
    : GoResult * FS :=
  if String.eqb pattern "" then
    (("", Some (errorString "pattern cannot be empty")), fs)
  else
    let '(err, fs) := ensureFileExists filePath fs in
    match err with
    | Some e => (("", Some e), fs)
    | None =>
        let '(content, err) := ReadFile filePath fs in
        match err with
        | Some e => (("", Some (wrapError "failed to read file: " e)), fs)
        | None =>
            match Compile pattern with
            | inl e => (("", Some (wrapError "invalid regex pattern: " e)), fs)
            | inr regex =>
                let fileContent := content in
                let '(newContent, count) :=
                  if 0 <? limit then
                    ReplaceAllStringFunc regex fileContent
                      (limited_repl regex newStr limit) 0
                  else
                    let matches := FindAllString regex fileContent (-1) in
                    (ReplaceAllString regex fileContent newStr, llen matches) in
                if String.eqb fileContent newContent then
                  (("", Some (errorString "pattern not matched in file")), fs)
                else
                  let '(err, fs) := WriteFile filePath newContent fs in
                  match err with
                  | Some e => (("", Some (wrapError "failed to write file: " e)), fs)
                  | None =>
                      (("Successfully replaced " ++ itoa count ++
                        " occurrence(s) in " ++ filePath, None), fs)
                  end
            end
        end
    end.

(** [appendToFile] *)
Definition appendToFile (filePath content : string) (fs : FS) : GoResult * FS :=
  let '(err, fs) := ensureFileExists filePath fs in
  match err with
  | Some e => (("", Some e), fs)
  | None =>
      let '(err, fs) := AppendFile filePath content fs in
      match err with
      | Some e => (("", Some (wrapError "failed to open file for appending: " e)), fs)
      | None => (("Successfully appended content to " ++ filePath, None), fs)
      end
  end.

(** [prependToFile] *)
Definition prependToFile (filePath content : string) (fs : FS) : GoResult * FS :=
  let '(err, fs) := ensureFileExists filePath fs in
  match err with
  | Some e => (("", Some e), fs)
  | None =>
      let '(existingContent, err) := ReadFile filePath fs in
      match err with
      | Some e => (("", Some (wrapError "failed to read file: " e)), fs)
      | None =>
          let newContent := content ++ existingContent in
          let '(err, fs) := WriteFile filePath newContent fs in
          match err with
          | Some e => (("", Some (wrapError "failed to write file: " e)), fs)
          | None => (("Successfully prepended content to " ++ filePath, None), fs)
          end
      end
  end.

(** The line separator ["\n"]. *)
Definition newline : string := String (Ascii.ascii_of_nat 10) "".

(** [insertAtLine] *)
Definition insertAtLine (filePath content : string) (lineNumber : Z) (fs : FS)
    : GoResult * FS :=
  if lineNumber <? 1 then
    (("", Some (errorString "line number must be at least 1")), fs)
  else
    let '(err, fs) := ensureFileExists filePath fs in
    match err with
    | Some e => (("", Some e), fs)
    | None =>
        let '(existingContent, err) := ReadFile filePath fs in
        match err with
        | Some e => (("", Some (wrapError "failed to read file: " e)), fs)
        | None =>
            let lines := strings.Split existingContent newline in
            if llen lines + 1 <? lineNumber then
              (("", Some (errorString
                  ("line number " ++ itoa lineNumber ++ " exceeds file length (" ++
                   itoa (llen lines) ++ " lines)"))), fs)
            else
              let newLines :=
                if lineNumber =? 1 then ([content] ++ lines)%list
                else if llen lines <? lineNumber then (lines ++ [content])%list
                else
                  (take (Z.to_nat (lineNumber - 1)) lines ++ [content] ++
                   drop (Z.to_nat (lineNumber - 1)) lines)%list in
              let newContent := strings.Join newLines newline in
              let '(err, fs) := WriteFile filePath newContent fs in
              match err with
              | Some e => (("", Some (wrapError "failed to write file: " e)), fs)
              | None =>
                  (("Successfully inserted content at line " ++ itoa lineNumber ++
                    " in " ++ filePath, None), fs)
              end
        end
    end.

(** [EditFileContent] *)
Definition EditFileContent (input : RawMessage) (fs : FS) : GoResult * FS :=
  match json_Unmarshal input with
  | inl e => (("", Some (wrapError "failed to parse input: " e)), fs)
  | inr editFileInput =>
      if String.eqb (Path editFileInput) "" then
        (("", Some (errorString "path cannot be empty")), fs)
      else if String.eqb (Mode editFileInput) "create" then
        if String.eqb (Content editFileInput) "" then
          (("", Some (errorString "cannot create an empty file, content is required")), fs)
        else createFile (Path editFileInput) (Content editFileInput) fs
      else if String.eqb (Mode editFileInput) "replace" then
        replaceInFile (Path editFileInput) (OldStr editFileInput)
          (NewStr editFileInput) (Limit editFileInput) fs
      else if String.eqb (Mode editFileInput) "regex_replace" then
        regexReplaceInFile (Path editFileInput) (Pattern editFileInput)
          (NewStr editFileInput) (Limit editFileInput) fs
      else if String.eqb (Mode editFileInput) "append" then
        appendToFile (Path editFileInput) (Content editFileInput) fs
      else if String.eqb (Mode editFileInput) "prepend" then
        prependToFile (Path editFileInput) (Content editFileInput) fs
      else if String.eqb (Mode editFileInput) "insert_at_line" then
        insertAtLine (Path editFileInput) (Content editFileInput)
          (LineNumber editFileInput) fs
      else
        (("", Some (errorString ("invalid mode: " ++ Mode editFileInput))), fs)
  end.

End FileEditor.

End tools.

(* ===================================================================== *)
(** * What "replace the first n non-overlapping occurrences" means

    The vocabulary of the specification, stated on strings alone and
    without reference to how the tool searches. *)
(* ===================================================================== *)

Module ReplaceSpec.

(** [sub] occurs in [s] between the parts [a] and [b], and no occurrence
    of [sub] in [s] starts further left. *)
Definition leftmost (sub s a b : string) : Prop :=
  s = a ++ sub ++ b /\
  forall a' b', s = a' ++ sub ++ b' -> (String.length a <= String.length a')%nat.

(** [sub] does not occur in [s]. *)
Definition absent (sub s : string) : Prop :=
  forall a b, s <> a ++ sub ++ b.

(** [s] holds exactly [k] non-overlapping occurrences of [sub], scanning
    left to right: each one is the leftmost occurrence in what follows
    the previous one. *)
Inductive occurrences (sub : string) : string -> nat -> Prop :=
| occ_none s :
    absent sub s -> occurrences sub s 0
| occ_next s a b k :
    leftmost sub s a b -> occurrences sub b k -> occurrences sub s (S k).

(** [r] is [s] with its first [n] non-overlapping occurrences of [old],
    scanning left to right, replaced by [new]; everything else, the
    remainder after the n-th occurrence included, is untouched. *)
Inductive replaced (old new : string) : nat -> string -> string -> Prop :=
| rep_done s :
    replaced old new 0 s s
| rep_next n s a b r :
    leftmost old s a b -> replaced old new n b r ->
    replaced old new (S n) s (a ++ new ++ r).

(** The outcome of a replace call that got as far as the search, when
    [n] occurrences are to be replaced in the content [c] of the file:
    an error and an untouched file system for [n = 0], otherwise a
    success message with the count and the file rewritten. *)
Definition replace_outcome (filePath old new : string) (fs : os.FS) (c : string)
    (n : nat) (res : GoResult * os.FS) : Prop :=
  (n = O -> res = (("", Some (errorString "old_str not found in file")), fs)) /\
  (n <> O ->
   exists c',
     replaced old new n c c' /\
     res = (("Successfully replaced " ++ itoa (Z.of_nat n) ++
             " occurrence(s) in " ++ filePath, None),
            <[filePath := os.File c']> fs)).

End ReplaceSpec.

(** The concatenation of the elements of a slice. *)
Definition concat_all (l : list string) : string := List.fold_right String.append "" l.

(* ===================================================================== *)
(** * A reference engine for a fragment of Go's regexp syntax

    Patterns are sequences of single-character atoms (a literal, [.], or
    one of the classes \d \D \w \W \s \S), each with an optional greedy
    repetition [*], [+] or [?].  Matching is leftmost-first, as Go
    specifies it: the match starts as early as possible and, among the
    matches starting there, is the one a backtracking search finds first.
    The text is taken byte by byte (ASCII).  A pattern outside the
    fragment is rejected by [Compile]; Go may accept it. *)
(* ===================================================================== *)

Module regexp.

Inductive ClassKind := digit | word | space.

Inductive Atom :=
| Lit (c : ascii)
| AnyChar
| Class (negated : bool) (k : ClassKind).

Inductive Rep := One | Star | Plus | Quest.

Definition Prog := list (Atom * Rep).

Definition in_range (lo hi c : ascii) : bool :=
  (nat_of_ascii lo <=? nat_of_ascii c)%nat && (nat_of_ascii c <=? nat_of_ascii hi)%nat.

Definition is_digit (c : ascii) : bool := in_range "0" "9" c.

Definition is_letter (c : ascii) : bool := in_range "a" "z" c || in_range "A" "Z" c.

Definition is_word (c : ascii) : bool := is_digit c || is_letter c || Ascii.eqb c "_".

Definition is_space (c : ascii) : bool :=
  let n := nat_of_ascii c in
  (n =? 9)%nat || (n =? 10)%nat || (n =? 12)%nat || (n =? 13)%nat || (n =? 32)%nat.

Definition class_match (k : ClassKind) (c : ascii) : bool :=
  match k with
  | digit => is_digit c
  | word => is_word c
  | space => is_space c
  end.

Definition atom_match (a : Atom) (c : ascii) : bool :=
  match a with
  | Lit c' => Ascii.eqb c c'
  | AnyChar => negb (nat_of_ascii c =? 10)%nat
  | Class negated k => xorb negated (class_match k c)
  end.

(** ** Parsing a pattern *)

Definition is_meta (c : ascii) : bool :=
  existsb (Ascii.eqb c)
    (list_ascii_of_string "\.+*?()|[]{}^$").

Definition is_rep (c : ascii) : bool :=
  Ascii.eqb c "*" || Ascii.eqb c "+" || Ascii.eqb c "?".

Definition parse_error (what : string) (pattern : string) : error :=
  errorString ("error parsing regexp: " ++ what ++ ": `" ++ pattern ++ "`").

(** The atom after a backslash. *)
Definition parse_escape (c : ascii) : option Atom :=
  if Ascii.eqb c "d" then Some (Class false digit)
  else if Ascii.eqb c "D" then Some (Class true digit)
  else if Ascii.eqb c "w" then Some (Class false word)
  else if Ascii.eqb c "W" then Some (Class true word)
  else if Ascii.eqb c "s" then Some (Class false space)
  else if Ascii.eqb c "S" then Some (Class true space)
  else if (nat_of_ascii c <? 128)%nat && negb (is_word c) then Some (Lit c)
  else None.

(** An optional repetition operator after an atom. *)
Definition parse_rep (s : string) : option (Rep * string) :=
  let single r rest :=
    match rest with
    | String c _ => if is_rep c then None else Some (r, rest)
    | "" => Some (r, rest)
    end in
  match s with
  | String c rest =>
      if Ascii.eqb c "*" then single Star rest
      else if Ascii.eqb c "+" then single Plus rest
      else if Ascii.eqb c "?" then single Quest rest
      else Some (One, s)
  | "" => Some (One, s)
  end.

Fixpoint parse (fuel : nat) (pattern s : string) : error + Prog :=
  match fuel with
  | O => inr []
  | S fuel' =>
      match s with
      | "" => inr []
      | String c rest =>
          let atom :=
            if Ascii.eqb c "\" then
              match rest with
              | String d rest' =>
                  match parse_escape d with
                  | Some a => inr (a, rest')
                  | None => inl (parse_error "invalid escape sequence" pattern)
                  end
              | "" => inl (parse_error "trailing backslash at end of expression" pattern)
              end
            else if is_rep c then
              inl (parse_error "missing argument to repetition operator" pattern)
            else if Ascii.eqb c "." then inr (AnyChar, rest)
            else if is_meta c || (128 <=? nat_of_ascii c)%nat then
              inl (parse_error "syntax outside the modelled fragment" pattern)
            else inr (Lit c, rest) in
          match atom with
          | inl e => inl e
          | inr (a, rest) =>
              match parse_rep rest with
              | None => inl (parse_error "invalid nested repetition operator" pattern)
              | Some (r, rest') =>
                  match parse fuel' pattern rest' with
                  | inl e => inl e
                  | inr prog => inr ((a, r) :: prog)
                  end
              end
          end
      end
  end.

Definition Compile (pattern : string) : error + Prog :=
  parse (String.length pattern) pattern pattern.

(** ** Matching *)

(** Greedy repetition of [a], then the continuation [k]. *)
Fixpoint match_star (a : Atom) (k : string -> option nat) (s : string) : option nat :=
  match s with
  | String c s' =>
      if atom_match a c then
        match match_star a k s' with
        | Some n => Some (S n)
        | None => k s
        end
      else k s
  | "" => k s
  end.

(** The length of the match of [p] at the start of [s], if there is one. *)
Fixpoint match_prog (p : Prog) (s : string) : option nat :=
  match p with
  | [] => Some O
  | (a, r) :: p' =>
      let k := match_prog p' in
      match r with
      | Star => match_star a k s
      | One =>
          match s with
          | String c s' => if atom_match a c then option_map S (k s') else None
          | "" => None
          end
      | Plus =>
          match s with
          | String c s' => if atom_match a c then option_map S (match_star a k s') else None
          | "" => None
          end
      | Quest =>
          match s with
          | String c s' =>
              if atom_match a c then
                match k s' with
                | Some n => Some (S n)
                | None => k s
                end
              else k s
          | "" => k s
          end
      end
  end.

(** The leftmost match in [s]: its offset and its length. *)
Fixpoint find (p : Prog) (s : string) : option (nat * nat) :=
  match match_prog p s with
  | Some n => Some (O, n)
  | None =>
      match s with
      | "" => None
      | String _ s' =>
          match find p s' with
          | Some (i, n) => Some (S i, n)
          | None => None
          end
      end
  end.

(** The loop shared by [FindAll...] and [ReplaceAll...]: the successive
    matches in [rest], each with the unmatched text before it, and the
    unmatched text after the last one.  [after_match] tells that the
    previous match ended where [rest] starts: an empty match there is
    skipped, and the search always moves on by at least one byte. *)
Fixpoint segments (fuel : nat) (p : Prog) (rest : string) (after_match : bool)
    (pending : string) : list (string * string) * string :=
  match fuel with
  | O => ([], pending ++ rest)
  | S fuel' =>
      match find p rest with
      | None => ([], pending ++ rest)
      | Some (O, O) =>
          let here := if after_match then [] else [(pending, "")] in
          let pending := if after_match then pending else "" in
          match rest with
          | "" => (here, pending)
          | String c rest' =>
              let '(l, tail) := segments fuel' p rest' false (pending ++ String c "") in
              ((here ++ l)%list, tail)
          end
      | Some (i, n) =>
          let '(l, tail) := segments fuel' p (str_drop (i + n) rest) true "" in
          ((pending ++ str_take i rest, str_take n (str_drop i rest)) :: l, tail)
      end
  end.

Definition all_segments (p : Prog) (src : string) : list (string * string) * string :=
  segments (S (String.length src)) p src false "".

(** ** Expanding a replacement template

    [$$] is a dollar sign, [$0] and [${0}] the matched text; any other
    [$name] or [${name}] names a group the fragment does not have and
    expands to nothing; a [$] followed by no name is kept. *)

Fixpoint take_name (s : string) : string * string :=
  match s with
  | String c s' =>
      if is_word c then let '(n, r) := take_name s' in (String c n, r) else ("", s)
  | "" => ("", "")
  end.

Definition group (name matched : string) : string :=
  if String.eqb name "0" then matched else "".

Fixpoint expand (fuel : nat) (template matched : string) : string :=
  match fuel with
  | O => template
  | S fuel' =>
      match template with
      | "" => ""
      | String c t =>
          if negb (Ascii.eqb c "$") then String c (expand fuel' t matched)
          else
            match t with
            | "" => "$"
            | String d t' =>
                if Ascii.eqb d "$" then String "$" (expand fuel' t' matched)
                else if Ascii.eqb d "{" then
                  match take_name t' with
                  | (String n0 n, String e r) =>
                      if Ascii.eqb e "}" then
                        group (String n0 n) matched ++ expand fuel' r matched
                      else String "$" (expand fuel' t matched)
                  | _ => String "$" (expand fuel' t matched)
                  end
                else
                  match take_name t with
                  | (String n0 n, r) =>
                      group (String n0 n) matched ++ expand fuel' r matched
                  | _ => String "$" (expand fuel' t matched)
                  end
            end
      end
  end.

(** ** The functions of the package *)

Definition FindAllString (p : Prog) (s : string) (n : Z) : list string :=
  let all := List.map snd (fst (all_segments p s)) in
  if n <? 0 then all else take (Z.to_nat n) all.

Fixpoint replace_segments {S : Type} (l : list (string * string)) (tail : string)
    (repl : string -> S -> string * S) (st : S) : string * S :=
  match l with
  | [] => (tail, st)
  | (before, matched) :: l' =>
      let '(out, st) := repl matched st in
      let '(more, st) := replace_segments l' tail repl st in
      (before ++ out ++ more, st)
  end.

Definition ReplaceAllStringFunc {S : Type} (p : Prog) (src : string)
    (repl : string -> S -> string * S) (st : S) : string * S :=
  let '(l, tail) := all_segments p src in
  replace_segments l tail repl st.

Definition ReplaceAllString (p : Prog) (src repl : string) : string :=
  fst (ReplaceAllStringFunc p src
         (fun matched (_ : unit) => (expand (S (String.length repl)) repl matched, tt)) tt).

Definition engine : RegexpEngine :=
  Build_RegexpEngine Prog Compile FindAllString ReplaceAllString (@ReplaceAllStringFunc).

End regexp.

(* ===================================================================== *)
(** * Vocabulary for the claims about files *)
(* ===================================================================== *)

Module FileSpec.
Import os.

(** [fs'] is [fs] with the empty regular file [p] added, and the
    directory [dir] of [p] as well unless it is the working directory;
    every other path is as it was. *)
Definition created_empty (dir p : string) (fs fs' : FS) : Prop :=
  fs' !! p = Some (File "") /\
  (dir <> "." -> fs' !! dir = Some Dir) /\
  (forall q, q <> p -> q <> dir -> fs' !! q = fs !! q).

(** The result of a tool call is an error. *)
Definition failed (res : GoResult * FS) : Prop := snd (fst res) <> None.

End FileSpec.

(* ===================================================================== *)
(** * internal/agent: the conversation loop and its loop protection

    The completion engine, the source of user input, the clock and the
    tools are the environment of the agent.  They are parameters of the
    model: the client answers the n-th request for a conversation, the
    user-input source gives the n-th line, the clock the n-th reading of
    [time.Now()], and a tool's function acts on a world of type [W].
    Durations and times are in nanoseconds.  Logging (package logger) and
    the prompt have no effect on what is modelled and are left out; the
    state carries a trace of the points of the code the claims speak
    about. *)
(* ===================================================================== *)

Module agent.

(** [LoopProtection] *)
Record LoopProtection := {
  MaxConsecutiveToolUses : Z;
  MaxToolUsesPerMinute : Z;
  MaxSessionDuration : Z;
  MaxSameToolCalls : Z;
  ConsecutiveToolUses : Z;
  LastToolName : string;
  SameToolCallCount : Z;
  ToolUseStartTime : Z;
  ToolUseCount : Z;
  SessionStartTime : Z
}.

(** [time.Minute] *)
Definition Minute : Z := 60 * 1000000000.

(** [NewLoopProtection], [now1] and [now2] being what its two calls of
    [time.Now()] return. *)
Definition NewLoopProtection (now1 now2 : Z) : LoopProtection := {|
  MaxConsecutiveToolUses := 15;
  MaxToolUsesPerMinute := 30;
  MaxSessionDuration := 30 * Minute;
  MaxSameToolCalls := 5;
  ConsecutiveToolUses := 0;
  LastToolName := "";
  SameToolCallCount := 0;
  ToolUseStartTime := now1;
  ToolUseCount := 0;
  SessionStartTime := now2
|}.

(** Assignments to the tracking fields. *)
Definition set_ConsecutiveToolUses (v : Z) (lp : LoopProtection) : LoopProtection := {|
  MaxConsecutiveToolUses := MaxConsecutiveToolUses lp;
  MaxToolUsesPerMinute := MaxToolUsesPerMinute lp;
  MaxSessionDuration := MaxSessionDuration lp;
  MaxSameToolCalls := MaxSameToolCalls lp;
  ConsecutiveToolUses := v;
  LastToolName := LastToolName lp;
  SameToolCallCount := SameToolCallCount lp;
  ToolUseStartTime := ToolUseStartTime lp;
  ToolUseCount := ToolUseCount lp;
  SessionStartTime := SessionStartTime lp
|}.

Definition set_LastToolName (v : string) (lp : LoopProtection) : LoopProtection := {|
  MaxConsecutiveToolUses := MaxConsecutiveToolUses lp;
  MaxToolUsesPerMinute := MaxToolUsesPerMinute lp;
  MaxSessionDuration := MaxSessionDuration lp;
  MaxSameToolCalls := MaxSameToolCalls lp;
  ConsecutiveToolUses := ConsecutiveToolUses lp;
  LastToolName := v;
  SameToolCallCount := SameToolCallCount lp;
  ToolUseStartTime := ToolUseStartTime lp;
  ToolUseCount := ToolUseCount lp;
  SessionStartTime := SessionStartTime lp
|}.

Definition set_SameToolCallCount (v : Z) (lp : LoopProtection) : LoopProtection := {|
  MaxConsecutiveToolUses := MaxConsecutiveToolUses lp;
  MaxToolUsesPerMinute := MaxToolUsesPerMinute lp;
  MaxSessionDuration := MaxSessionDuration lp;
  MaxSameToolCalls := MaxSameToolCalls lp;
  ConsecutiveToolUses := ConsecutiveToolUses lp;
  LastToolName := LastToolName lp;
  SameToolCallCount := v;
  ToolUseStartTime := ToolUseStartTime lp;
  ToolUseCount := ToolUseCount lp;
  SessionStartTime := SessionStartTime lp
|}.

Definition set_ToolUseStartTime (v : Z) (lp : LoopProtection) : LoopProtection := {|
  MaxConsecutiveToolUses := MaxConsecutiveToolUses lp;
  MaxToolUsesPerMinute := MaxToolUsesPerMinute lp;
  MaxSessionDuration := MaxSessionDuration lp;
  MaxSameToolCalls := MaxSameToolCalls lp;
  ConsecutiveToolUses := ConsecutiveToolUses lp;
  LastToolName := LastToolName lp;
  SameToolCallCount := SameToolCallCount lp;
  ToolUseStartTime := v;
  ToolUseCount := ToolUseCount lp;
  SessionStartTime := SessionStartTime lp
|}.

Definition set_ToolUseCount (v : Z) (lp : LoopProtection) : LoopProtection := {|
  MaxConsecutiveToolUses := MaxConsecutiveToolUses lp;
  MaxToolUsesPerMinute := MaxToolUsesPerMinute lp;
  MaxSessionDuration := MaxSessionDuration lp;
  MaxSameToolCalls := MaxSameToolCalls lp;
  ConsecutiveToolUses := ConsecutiveToolUses lp;
  LastToolName := LastToolName lp;
  SameToolCallCount := SameToolCallCount lp;
  ToolUseStartTime := ToolUseStartTime lp;
  ToolUseCount := v;
  SessionStartTime := SessionStartTime lp
|}.

Definition set_SessionStartTime (v : Z) (lp : LoopProtection) : LoopProtection := {|
  MaxConsecutiveToolUses := MaxConsecutiveToolUses lp;
  MaxToolUsesPerMinute := MaxToolUsesPerMinute lp;
  MaxSessionDuration := MaxSessionDuration lp;
  MaxSameToolCalls := MaxSameToolCalls lp;
  ConsecutiveToolUses := ConsecutiveToolUses lp;
  LastToolName := LastToolName lp;
  SameToolCallCount := SameToolCallCount lp;
  ToolUseStartTime := ToolUseStartTime lp;
  ToolUseCount := ToolUseCount lp;
  SessionStartTime := v
|}.

(** The errors of [processToolUsages]. *)
Definition consecutive_error (uses : Z) : error :=
  errorString ("too many consecutive tool uses (" ++ itoa uses ++ ") without user input").

Definition same_tool_error (name : string) (calls : Z) : error :=
  errorString ("too many consecutive calls to the same tool: " ++ name ++
               " (" ++ itoa calls ++ " calls)").

(** What the trace records. *)
Inductive Event :=
| EvSessionLimit                   (* Run: the session time limit is reached *)
| EvReset                          (* Run: the three counters are reset *)
| EvUserInput (ok : bool)          (* Run: getUserMessage has returned *)
| EvGenerate (ok : bool)           (* Run: the client has answered *)
| EvText (text : string)           (* a text block is printed *)
| EvToolUse (id name : string)     (* a tool_use block is reached: a dispatch attempt *)
| EvDenied (err : error)           (* processToolUsages returns a violation *)
| EvNotFound (id name : string)    (* executeTool: no tool of that name *)
| EvCall (id name : string)        (* executeTool: the tool's Function is run *)
| EvProcessError (err : error).    (* Run: processToolUsages returned an error *)

Section Agent.

(** The world the tools act on, and the raw JSON input of a tool. *)
Variable W : Type.
Variable RawMessage : Type.

(** [tools.ToolDefinition], without the description and the schema. *)
Record ToolDefinition := {
  Name : string;
  Function : RawMessage -> W -> GoResult * W
}.

(** A content block of a response, by its [Type]. *)
Inductive ContentBlock :=
| TextBlock (text : string)
| ToolUseBlock (id name : string) (input : RawMessage)
| OtherBlock (type : string).

(** [anthropic.Message] *)
Record Message := { Content : list ContentBlock }.

(** [anthropic.ContentBlockParamUnion] *)
Inductive ContentBlockParam :=
| TextParam (text : string)
| ToolUseParam (id name : string) (input : RawMessage)
| ToolResultParam (tool_use_id content : string) (is_error : bool)
| OtherParam (type : string).

Inductive Role := user | assistant.

(** [anthropic.MessageParam] *)
Record MessageParam := { MsgRole : Role; MsgContent : list ContentBlockParam }.

Definition NewUserMessage (blocks : list ContentBlockParam) : MessageParam :=
  {| MsgRole := user; MsgContent := blocks |}.

Definition NewTextBlock (text : string) : ContentBlockParam := TextParam text.

Definition NewToolResultBlock (id content : string) (isError : bool) : ContentBlockParam :=
  ToolResultParam id content isError.

(** [message.ToParam()] *)
Definition ToParam (message : Message) : MessageParam :=
  {| MsgRole := assistant;
     MsgContent :=
       List.map (fun b => match b with
                          | TextBlock t => TextParam t
                          | ToolUseBlock id name input => ToolUseParam id name input
                          | OtherBlock ty => OtherParam ty
                          end) (Content message) |}.

(** The environment. *)
Variable a_tools : list ToolDefinition.
Variable getUserMessage : nat -> string * bool.
Variable client_Messages_New : nat -> list MessageParam -> error + Message.
Variable clock : nat -> Z.

(** [fmt.Errorf] of the rate-limit message, which prints a float. *)
Variable rate_error : Z -> Z -> error.

(** The state of a run: the agent's [loopProtection], the conversation of
    [Run], the world of the tools, how often the environment was asked,
    and the trace. *)
Record State := {
  conversation : list MessageParam;
  loopProtection : LoopProtection;
  world : W;
  ticks : nat;
  inputs : nat;
  requests : nat;
  trace : list Event
}.

Definition set_conversation (v : list MessageParam) (st : State) : State :=
  {| conversation := v; loopProtection := loopProtection st; world := world st;
     ticks := ticks st; inputs := inputs st; requests := requests st; trace := trace st |}.

Definition set_loopProtection (v : LoopProtection) (st : State) : State :=
  {| conversation := conversation st; loopProtection := v; world := world st;
     ticks := ticks st; inputs := inputs st; requests := requests st; trace := trace st |}.

Definition set_world (v : W) (st : State) : State :=
  {| conversation := conversation st; loopProtection := loopProtection st; world := v;
     ticks := ticks st; inputs := inputs st; requests := requests st; trace := trace st |}.

Definition emit (e : Event) (st : State) : State :=
  {| conversation := conversation st; loopProtection := loopProtection st;
     world := world st; ticks := ticks st; inputs := inputs st; requests := requests st;
     trace := (trace st ++ [e])%list |}.

(** [time.Now()] *)
Definition time_Now (st : State) : Z * State :=
  (clock (ticks st),
   {| conversation := conversation st; loopProtection := loopProtection st;
      world := world st; ticks := S (ticks st); inputs := inputs st;
      requests := requests st; trace := trace st |}).

(** [a.getUserMessage()] *)
Definition read_line (st : State) : (string * bool) * State :=
  (getUserMessage (inputs st),
   {| conversation := conversation st; loopProtection := loopProtection st;
      world := world st; ticks := ticks st; inputs := S (inputs st);
      requests := requests st; trace := trace st |}).

(** [findTool] *)
Fixpoint findTool_in (l : list ToolDefinition) (name : string) : option ToolDefinition :=
  match l with
  | [] => None
  | tool :: l' => if String.eqb (Name tool) name then Some tool else findTool_in l' name
  end.

Definition findTool (name : string) : option ToolDefinition := findTool_in a_tools name.

(** [executeTool] *)
Definition executeTool (id name : string) (input : RawMessage) (st : State)
    : ContentBlockParam * State :=
  match findTool name with
  | None => (NewToolResultBlock id "tool not found" true, emit (EvNotFound id name) st)
  | Some toolDef =>
      let st := emit (EvCall id name) st in
      let '((response, err), w) := Function toolDef input (world st) in
      let st := set_world w st in
      match err with
      | Some e => (NewToolResultBlock id (Error e) true, st)
      | None => (NewToolResultBlock id response false, st)
      end
  end.

(** The body of the loop of [processToolUsages] for a tool_use block: the
    three checks, then the tool.  [inl] is the early return [true, err].
    The code compares [time.Since(...).Minutes()], a float, with 1; for a
    duration in whole nanoseconds [elapsed <= 1] holds exactly when the
    duration is at most [time.Minute], and [elapsed > 1] when it is
    more. *)
Definition process_tool_use (id name : string) (input : RawMessage)
    (toolResults : list ContentBlockParam) (st : State)
    : (bool * error + list ContentBlockParam) * State :=
  let st := emit (EvToolUse id name) st in
  let lp := loopProtection st in
  let lp := set_ConsecutiveToolUses (ConsecutiveToolUses lp + 1) lp in
  let lp := set_ToolUseCount (ToolUseCount lp + 1) lp in
  let st := set_loopProtection lp st in
  if MaxConsecutiveToolUses lp <? ConsecutiveToolUses lp then
    let err := consecutive_error (ConsecutiveToolUses lp) in
    (inl (true, err), emit (EvDenied err) st)
  else
    let '(now, st) := time_Now st in
    let elapsed := now - ToolUseStartTime lp in
    if (elapsed <=? Minute) && (MaxToolUsesPerMinute lp <=? ToolUseCount lp) then
      let err := rate_error (ToolUseCount lp) elapsed in
      (inl (true, err), emit (EvDenied err) st)
    else
      let '(lp, st) :=
        if Minute <? elapsed then
          let '(now, st) := time_Now st in
          let lp := set_ToolUseCount 1 (set_ToolUseStartTime now lp) in
          (lp, set_loopProtection lp st)
        else (lp, st) in
      let '(lp, denied) :=
        if String.eqb (LastToolName lp) name then
          let lp := set_SameToolCallCount (SameToolCallCount lp + 1) lp in
          if MaxSameToolCalls lp <=? SameToolCallCount lp then
            (lp, Some (same_tool_error name (SameToolCallCount lp)))
          else (lp, None)
        else
          (set_SameToolCallCount 1 (set_LastToolName name lp), None) in
      let st := set_loopProtection lp st in
      match denied with
      | Some err => (inl (true, err), emit (EvDenied err) st)
      | None =>
          let '(result, st) := executeTool id name input st in
          (inr (toolResults ++ [result])%list, st)
      end.

(** The loop of [processToolUsages] over [message.Content]. *)
Fixpoint process_blocks (blocks : list ContentBlock)
    (toolResults : list ContentBlockParam) (hasToolUses : bool) (st : State)
    : (bool * error + list ContentBlockParam * bool) * State :=
  match blocks with
  | [] => (inr (toolResults, hasToolUses), st)
  | TextBlock text :: blocks' =>
      process_blocks blocks' toolResults hasToolUses (emit (EvText text) st)
  | ToolUseBlock id name input :: blocks' =>
      match process_tool_use id name input toolResults st with
      | (inl ret, st) => (inl ret, st)
      | (inr toolResults, st) => process_blocks blocks' toolResults true st
      end
  | OtherBlock _ :: blocks' =>
      process_blocks blocks' toolResults hasToolUses st
  end.

(** [processToolUsages] *)
Definition processToolUsages (message : Message) (st : State)
    : (bool * option error) * State :=
  match process_blocks (Content message) [] false st with
  | (inl (readNext, err), st) => ((readNext, Some err), st)
  | (inr (toolResults, hasToolUses), st) =>
      if negb hasToolUses then ((true, None), st)
      else
        ((false, None),
         set_conversation (conversation st ++ [NewUserMessage toolResults])%list st)
  end.

(** [readUserInputToConversation] *)
Definition readUserInputToConversation (st : State) : bool * State :=
  let '((userInput, ok), st) := read_line st in
  let st := emit (EvUserInput ok) st in
  if negb ok then (false, st)
  else
    let userMessage := NewUserMessage [NewTextBlock userInput] in
    (true, set_conversation (conversation st ++ [userMessage])%list st).

(** [generateResponse] *)
Definition generateResponse (st : State) : (error + Message) * State :=
  let r := client_Messages_New (requests st) (conversation st) in
  let st :=
    {| conversation := conversation st; loopProtection := loopProtection st;
       world := world st; ticks := ticks st; inputs := inputs st;
       requests := S (requests st); trace := trace st |} in
  (r, emit (EvGenerate (match r with inl _ => false | inr _ => true end)) st).

(** How one round of the loop of [Run] ends. *)
Inductive Step :=
| Continue (readUserInput : bool)   (* the next round *)
| Break                             (* break: Run returns nil *)
| Return (err : error).             (* Run returns err *)

(** One round of the loop of [Run]. *)
Definition Run_round (readUserInput : bool) (st : State) : Step * State :=
  let '(now, st) := time_Now st in
  if MaxSessionDuration (loopProtection st) <? now - SessionStartTime (loopProtection st) then
    (Break, emit EvSessionLimit st)
  else
    let '(ok, st) :=
      if readUserInput then
        let lp := loopProtection st in
        let lp := set_ConsecutiveToolUses 0 lp in
        let lp := set_LastToolName "" lp in
        let lp := set_SameToolCallCount 0 lp in
        let st := emit EvReset (set_loopProtection lp st) in
        readUserInputToConversation st
      else (true, st) in
    if negb ok then (Break, st)
    else
      match generateResponse st with
      | (inl err, st) => (Return err, st)
      | (inr message, st) =>
          let st := set_conversation (conversation st ++ [ToParam message])%list st in
          match processToolUsages message st with
          | ((_, Some err), st) => (Continue true, emit (EvProcessError err) st)
          | ((readUserInput, None), st) => (Continue readUserInput, st)
          end
      end.

(** How far a run has come: still in the loop, about to start a round
    with this [readUserInput], or returned. *)
Inductive Status :=
| Running (readUserInput : bool)
| Returned (err : option error).

(** The loop of [Run], for at most [rounds] rounds. *)
Fixpoint Run_loop (rounds : nat) (readUserInput : bool) (st : State) : Status * State :=
  match rounds with
  | O => (Running readUserInput, st)
  | S rounds' =>
      match Run_round readUserInput st with
      | (Continue readUserInput, st) => Run_loop rounds' readUserInput st
      | (Break, st) => (Returned None, st)
      | (Return err, st) => (Returned (Some err), st)
      end
  end.

(** The state in which [Run] is called on an agent with this loop
    protection. *)
Definition initial (lp : LoopProtection) (w : W) : State :=
  {| conversation := []; loopProtection := lp; world := w;
     ticks := O; inputs := O; requests := O; trace := [] |}.

(** [Run], stopped after [rounds] rounds of its loop. *)
Definition Run (rounds : nat) (lp : LoopProtection) (w : W) : Status * State :=
  let st := initial lp w in
  let '(now, st) := time_Now st in
  let st := set_loopProtection (set_SessionStartTime now (loopProtection st)) st in
  Run_loop rounds true st.

End Agent.

Arguments Build_ToolDefinition {W RawMessage}.
Arguments Name {W RawMessage}.
Arguments Function {W RawMessage}.
Arguments TextBlock {RawMessage}.
Arguments ToolUseBlock {RawMessage}.
Arguments OtherBlock {RawMessage}.
Arguments Build_Message {RawMessage}.
Arguments Content {RawMessage}.
Arguments TextParam {RawMessage}.
Arguments ToolUseParam {RawMessage}.
Arguments ToolResultParam {RawMessage}.
Arguments OtherParam {RawMessage}.
Arguments Build_MessageParam {RawMessage}.
Arguments MsgRole {RawMessage}.
Arguments MsgContent {RawMessage}.
Arguments NewUserMessage {RawMessage}.
Arguments NewTextBlock {RawMessage}.
Arguments NewToolResultBlock {RawMessage}.
Arguments ToParam {RawMessage}.
Arguments Build_State {W RawMessage}.
Arguments conversation {W RawMessage}.
Arguments loopProtection {W RawMessage}.
Arguments world {W RawMessage}.
Arguments ticks {W RawMessage}.
Arguments inputs {W RawMessage}.
Arguments requests {W RawMessage}.
Arguments trace {W RawMessage}.
Arguments set_conversation {W RawMessage}.
Arguments set_loopProtection {W RawMessage}.
Arguments set_world {W RawMessage}.
Arguments emit {W RawMessage}.
Arguments time_Now {W RawMessage}.
Arguments read_line {W RawMessage}.
Arguments findTool_in {W RawMessage}.
Arguments findTool {W RawMessage}.
Arguments executeTool {W RawMessage}.
Arguments process_tool_use {W RawMessage}.
Arguments process_blocks {W RawMessage}.
Arguments processToolUsages {W RawMessage}.
Arguments readUserInputToConversation {W RawMessage}.
Arguments generateResponse {W RawMessage}.
Arguments Run_round {W RawMessage}.
Arguments Run_loop {W RawMessage}.
Arguments initial {W RawMessage}.
Arguments Run {W RawMessage}.

End agent.

(* ===================================================================== *)
(** * Vocabulary for the claims about the agent *)
(* ===================================================================== *)

Module AgentSpec.
Import agent.

(** The number of dispatch attempts since the last reset of the counters
    (since the start, if there was none). *)
Definition count_attempt (n : Z) (e : Event) : Z :=
  match e with
  | EvReset => 0
  | EvToolUse _ _ => n + 1
  | _ => n
  end.

Definition attempts_since_reset (t : list Event) : Z :=
  List.fold_left count_attempt t 0.

(** The events [processToolUsages] records. *)
Definition block_event (e : Event) : bool :=
  match e with
  | EvText _ | EvToolUse _ _ | EvDenied _ | EvNotFound _ _ | EvCall _ _ => true
  | _ => false
  end.

Definition is_reset (e : Event) : bool :=
  match e with EvReset => true | _ => false end.

Definition has_reset (t : list Event) : bool := List.existsb is_reset t.

(** Resets and reads of user input come in pairs: every reset is followed
    at once by a read, and there is no read without a reset just before. *)
Fixpoint reset_per_read (t : list Event) : bool :=
  match t with
  | [] => true
  | EvReset :: EvUserInput _ :: t' => reset_per_read t'
  | EvReset :: _ => false
  | EvUserInput _ :: _ => false
  | _ :: t' => reset_per_read t'
  end.

(** The run is back to awaiting user input: what follows in the trace, if
    anything, is the reset that goes with a read of user input, or the end
    of the session. *)
Definition awaits_user_input (post : list Event) : Prop :=
  match post with
  | [] => True
  | e :: _ => e = EvReset \/ e = EvSessionLimit
  end.

Section Blocks.
Context {RawMessage : Type}.

(** The ids of the tool invocations of a response, in order. *)
Fixpoint invocation_ids (blocks : list (ContentBlock RawMessage)) : list string :=
  match blocks with
  | [] => []
  | ToolUseBlock id _ _ :: blocks' => id :: invocation_ids blocks'
  | _ :: blocks' => invocation_ids blocks'
  end.

(** The invocation ids of the tool-result blocks of a turn; a block of
    another kind has none. *)
Definition result_id (b : ContentBlockParam RawMessage) : option string :=
  match b with
  | ToolResultParam id _ _ => Some id
  | _ => None
  end.

(** [conv'] is [conv] with one more turn: a user message of tool-result
    blocks, one per invocation of [blocks] and in their order. *)
Definition results_appended (blocks : list (ContentBlock RawMessage))
    (conv conv' : list (MessageParam RawMessage)) : Prop :=
  exists results,
    conv' = (conv ++ [NewUserMessage results])%list /\
    List.map result_id results = List.map Some (invocation_ids blocks).

End Blocks.

(** ** A monitor of the trace for the consecutive-use limit

    It follows the trace with the number of attempts since the last
    reset, and accepts only the traces in which an attempt beyond the
    limit [L] is followed by its denial and by the return of the run to
    awaiting user input. *)

#[global] Instance Errno_eq_dec : EqDecision Errno.
Proof. solve_decision. Defined.

#[global] Instance error_eq_dec : EqDecision error.
Proof.
  intros x y. unfold Decision.
  decide equality; solve [apply string_dec | apply Errno_eq_dec].
Defined.

Inductive Monitor :=
| Await (n : Z)      (* the next event is a reset or the end of the session *)
| Idle (n : Z)       (* within a round, [n] attempts since the reset *)
| Denying (n : Z)    (* the n-th attempt is beyond the limit: its denial is due *)
| Denied (n : Z)     (* it was denied: the error handling of Run is due *)
| Done (n : Z)       (* the session limit ended the run *)
| Bad.

Definition mon_step (L : Z) (m : Monitor) (e : Event) : Monitor :=
  match m with
  | Await n =>
      match e with
      | EvReset => Idle 0
      | EvSessionLimit => Done n
      | _ => Bad
      end
  | Idle n =>
      match e with
      | EvReset => Idle 0
      | EvSessionLimit => Done n
      | EvToolUse _ _ => if L <? n + 1 then Denying (n + 1) else Idle (n + 1)
      | _ => Idle n
      end
  | Denying n =>
      match e with
      | EvDenied err => if decide (err = consecutive_error n) then Denied n else Bad
      | _ => Bad
      end
  | Denied n =>
      match e with
      | EvProcessError err => if decide (err = consecutive_error n) then Await n else Bad
      | _ => Bad
      end
  | Done _ => Bad
  | Bad => Bad
  end.

Definition monitor_count (m : Monitor) : option Z :=
  match m with
  | Await n | Idle n | Denying n | Denied n | Done n => Some n
  | Bad => None
  end.

Definition mon_run (L : Z) (t : list Event) (m : Monitor) : Monitor :=
  List.fold_left (mon_step L) t m.

Definition accepting (m : Monitor) : Prop :=
  match m with
  | Await _ | Idle _ | Done _ => True
  | _ => False
  end.

(** The status a round of the loop of [Run] leaves. *)
Definition status_of (s : Step) : Status :=
  match s with
  | Continue readUserInput => Running readUserInput
  | Break => Returned None
  | Return err => Returned (Some err)
  end.

(** What holds between the rounds of [Run], for a consecutive-use limit
    [L]: the limit is still [L]; once the counters were reset, the
    consecutive-use counter is the number of attempts since the last
    reset; resets and reads come in pairs; and the monitor accepts the
    trace, agrees with the counter, and is at [Await] only when the next
    round reads user input. *)
Definition run_invariant {W RawMessage : Type} (L : Z) (status : Status)
    (st : State W RawMessage) : Prop :=
  MaxConsecutiveToolUses (loopProtection st) = L /\
  (has_reset (trace st) = true ->
   ConsecutiveToolUses (loopProtection st) = attempts_since_reset (trace st)) /\
  reset_per_read (trace st) = true /\
  match mon_run L (trace st) (Await 0) with
  | Idle n => n = ConsecutiveToolUses (loopProtection st) /\ has_reset (trace st) = true
  | Await _ => status = Running true
  | Done _ => status = Returned None
  | _ => False
  end.

(** What holds within a round, from the read of user input on: the
    counters were reset, the counter is the number of attempts since, and
    the monitor is at [Idle] with that number. *)
Definition in_round {W RawMessage : Type} (L : Z) (st : State W RawMessage) : Prop :=
  MaxConsecutiveToolUses (loopProtection st) = L /\
  ConsecutiveToolUses (loopProtection st) = attempts_since_reset (trace st) /\
  has_reset (trace st) = true /\
  reset_per_read (trace st) = true /\
  mon_run L (trace st) (Await 0) = Idle (ConsecutiveToolUses (loopProtection st)).

(** The configured limits and the session start, which no step of
    [processToolUsages] changes. *)
Definition same_limits (lp lp' : LoopProtection) : Prop :=
  MaxConsecutiveToolUses lp' = MaxConsecutiveToolUses lp /\
  MaxToolUsesPerMinute lp' = MaxToolUsesPerMinute lp /\
  MaxSessionDuration lp' = MaxSessionDuration lp /\
  MaxSameToolCalls lp' = MaxSameToolCalls lp /\
  SessionStartTime lp' = SessionStartTime lp.

(** The first two checks of [processToolUsages] let the next tool use
    through, so that the same-tool check is reached. *)
Definition reaches_same_tool_check (lp : LoopProtection) (now : Z) : bool :=
  negb (MaxConsecutiveToolUses lp <? ConsecutiveToolUses lp + 1) &&
  negb ((now - ToolUseStartTime lp <=? Minute) &&
        (MaxToolUsesPerMinute lp <=? ToolUseCount lp + 1)).

End AgentSpec.

(* ===================================================================== *)
(** * Concrete inputs for the examples *)
(* ===================================================================== *)

Module Examples.
Import agent.

(** A tool that answers "ok" and leaves the world alone. *)
Definition read_file_tool : ToolDefinition unit unit :=
  {| Name := "read_file"; Function := fun _ w => (("ok", None), w) |}.

(** A clock that stands still, and a rate-limit message without the
    figures. *)
Definition still_clock : nat -> Z := fun _ => 0.

Definition plain_rate_error : Z -> Z -> error :=
  fun _ _ => errorString "tool use rate limit exceeded".

(** The state of a fresh agent with the default limits. *)
Definition fresh : State unit unit := initial (NewLoopProtection 0 0) tt.

(** A response with five invocations of the same tool. *)
Definition five_reads : Message unit :=
  {| Content := [ToolUseBlock "t1" "read_file" tt; ToolUseBlock "t2" "read_file" tt;
                 ToolUseBlock "t3" "read_file" tt; ToolUseBlock "t4" "read_file" tt;
                 ToolUseBlock "t5" "read_file" tt] |}.

(** The default limits, but with a same-tool maximum of 1. *)
Definition one_call_limits : LoopProtection :=
  set_SameToolCallCount 0
    {| MaxConsecutiveToolUses := 15; MaxToolUsesPerMinute := 30;
       MaxSessionDuration := 30 * Minute; MaxSameToolCalls := 1;
       ConsecutiveToolUses := 0; LastToolName := ""; SameToolCallCount := 0;
       ToolUseStartTime := 0; ToolUseCount := 0; SessionStartTime := 0 |}.

(** Files in the working directory, and tool input that is already
    parsed. *)
Definition working_dir : string -> string := fun _ => ".".

Definition parsed : tools.FileEditorInput -> error + tools.FileEditorInput := inr.

Definition edit (mode path old new pattern content : string) (line limit : Z)
    : tools.FileEditorInput :=
  {| tools.Path := path; tools.Mode := mode; tools.OldStr := old; tools.NewStr := new;
     tools.Pattern := pattern; tools.Content := content; tools.LineNumber := line;
     tools.Limit := limit |}.

(** A file system with one file, and edits of it. *)
Definition notes : os.FS := {[ "notes.txt" := os.File "one cat, two cats" ]}.

Definition replace_one_cat : tools.FileEditorInput :=
  edit "replace" "notes.txt" "cat" "dog" "" "" 0 1.

Definition replace_all_cats : tools.FileEditorInput :=
  edit "replace" "notes.txt" "cat" "dog" "" "" 0 0.

Definition replace_two_cats : tools.FileEditorInput :=
  edit "replace" "notes.txt" "cat" "dog" "" "" 0 2.

(** A file of three lines, and insertions of one line and of two lines. *)
Definition three_lines : os.FS :=
  {[ "lines.txt" := os.File ("a" ++ tools.newline ++ "b" ++ tools.newline ++ "c") ]}.

Definition insert_x_at_2 : tools.FileEditorInput :=
  edit "insert_at_line" "lines.txt" "" "" "" "x" 2 0.

Definition one_line : os.FS := {[ "lines.txt" := os.File "a" ]}.

Definition insert_two_lines_at_1 : tools.FileEditorInput :=
  edit "insert_at_line" "lines.txt" "" "" "" ("x" ++ tools.newline ++ "y") 1 0.

(** Creating a file that exists, with content and without. *)
Definition create_notes : tools.FileEditorInput :=
  edit "create" "notes.txt" "" "" "" "other content" 0 0.

Definition create_notes_empty : tools.FileEditorInput :=
  edit "create" "notes.txt" "" "" "" "" 0 0.

(** The regex_replace scenario. *)
Definition foos : os.FS := {[ "foo.txt" := os.File "foo1 foo2 foo3" ]}.

Definition replace_two_foos : tools.FileEditorInput :=
  edit "regex_replace" "foo.txt" "" "bar" "foo\d+" "" 0 2.

(** An edit of a file that does not exist, in a directory that does not
    exist either. *)
Definition docs_dir : string -> string := fun _ => "docs".

Definition replace_in_missing : tools.FileEditorInput :=
  edit "replace" "docs/new.txt" "cat" "dog" "" "" 0 0.

(** A session in which the engine asks for a tool in every response,
    list_files and read_file in turn, and the user has typed one line. *)
Definition list_files_tool : ToolDefinition unit unit :=
  {| Name := "list_files"; Function := fun _ w => (("a.txt", None), w) |}.

Definition one_line_user : nat -> string * bool := fun _ => ("go", true).

Definition tool_every_time : nat -> list (MessageParam unit) -> error + Message unit :=
  fun n _ =>
    inr {| Content := [ToolUseBlock ("call" ++ itoa (Z.of_nat n))
                         (if Nat.even n then "list_files" else "read_file") tt] |}.

Definition sixteen_rounds : Status * State unit unit :=
  Run [list_files_tool; read_file_tool] one_line_user tool_every_time still_clock
    plain_rate_error 16 (NewLoopProtection 0 0) tt.

End Examples.

(* ===================================================================== *)
(** * Proof automation *)
(* ===================================================================== *)

(** Closes the cases of the same-tool check once the branches of the code
    are fixed. *)
Ltac streak_case :=
  repeat match goal with
         | |- _ /\ _ => split
         | |- _ <-> _ => split
         | |- _ -> _ => intro
         | H : exists _, inr _ = inl _ |- _ => destruct H as [? [=]]
         | H : exists _, inl _ = inr _ |- _ => destruct H as [? [=]]
         end;
  try congruence; try lia; eauto.

(* ===================================================================== *)
(** * internal/agent/tools: the read_file tool (file_reader_tool.go) *)
(* ===================================================================== *)

Module file_reader.
Import os.

(** [FileReaderInput] *)
Record FileReaderInput := { Path : string }.

Section FileReader.

Variable RawMessage : Type.
Variable json_Unmarshal : RawMessage -> error + FileReaderInput.

(** [ReadFileContent] *)
Definition ReadFileContent (input : RawMessage) (fs : FS) : GoResult :=
  match json_Unmarshal input with
  | inl e => ("", Some (wrapError "failed to parse tool input: " e))
  | inr readFileInput =>
      if String.eqb (Path readFileInput) "" then
        ("", Some (errorString "path parameter is required"))
      else
        let '(content, err) := ReadFile (Path readFileInput) fs in
        match err with
        | Some e =>
            ("", Some (wrapError
                         ("failed to read file '" ++ Path readFileInput ++ "': ") e))
        | None => (content, None)
        end
  end.

End FileReader.

End file_reader.

(* ===================================================================== *)
(** * Vocabulary for what a call of the file_editor tool changes *)
(* ===================================================================== *)

Module EditSpec.
Import os.

(** The paths besides [p] and [d] are in [fs'] as they are in [fs]. *)
Definition same_elsewhere (p d : string) (fs fs' : FS) : Prop :=
  forall q, q <> p -> q <> d -> fs' !! q = fs !! q.

(** What is at [q] in [fs] is still there in [fs'], and of the same kind:
    a directory is still a directory, a regular file still a regular
    file (its content may differ). *)
Definition kept_at (q : string) (fs fs' : FS) : Prop :=
  match fs !! q with
  | Some Dir => fs' !! q = Some Dir
  | Some (File _) => exists c', fs' !! q = Some (File c')
  | None => True
  end.

End EditSpec.

(* ===================================================================== *)
(** * Vocabulary for what a whole run of the agent does *)
(* ===================================================================== *)

Module RunSpec.
Import agent.

(** ** The dispatch of tools, followed along the trace

    Every attempt ([EvToolUse]) is answered by the next event, which is
    its denial or the run of [executeTool] on the same invocation (the
    tool is called, or it is not found); no such answer comes without its
    attempt; and [executeTool] runs at most [L] times between two resets
    of the counters.  [Ready n] and [Pending _ _ n] carry the number [n]
    of runs of [executeTool] since the last reset. *)
Inductive Dispatch :=
| Ready (calls : Z)
| Pending (id name : string) (calls : Z)
| Wrong.

Definition dispatch_step (L : Z) (d : Dispatch) (e : Event) : Dispatch :=
  match d with
  | Ready n =>
      match e with
      | EvReset => Ready 0
      | EvToolUse id name => Pending id name n
      | EvDenied _ | EvNotFound _ _ | EvCall _ _ => Wrong
      | _ => Ready n
      end
  | Pending id name n =>
      match e with
      | EvDenied _ => Ready n
      | EvCall id' name' | EvNotFound id' name' =>
          if String.eqb id id' && String.eqb name name' && (n + 1 <=? L)
          then Ready (n + 1) else Wrong
      | _ => Wrong
      end
  | Wrong => Wrong
  end.

Definition dispatch_run (L : Z) (t : list Event) (d : Dispatch) : Dispatch :=
  List.fold_left (dispatch_step L) t d.

(** ** The runs of [executeTool] in a trace *)
Definition is_execution (e : Event) : bool :=
  match e with
  | EvCall _ _ | EvNotFound _ _ => true
  | _ => false
  end.

Definition executions (t : list Event) : Z :=
  Z.of_nat (List.length (List.filter is_execution t)).

(** ** The shape of a conversation *)
Section Conversation.
Context {RawMessage : Type}.

Definition has_role (r : Role) (m : MessageParam RawMessage) : bool :=
  match r, MsgRole m with
  | user, user | assistant, assistant => true
  | _, _ => false
  end.

Definition other (r : Role) : Role :=
  match r with user => assistant | assistant => user end.

(** The turns are by [r], then by the other party, and so on in turn. *)
Fixpoint alternates (r : Role) (conv : list (MessageParam RawMessage)) : bool :=
  match conv with
  | [] => true
  | m :: conv' => has_role r m && alternates (other r) conv'
  end.

(** A conversation as a request to the client should be: the user and
    the assistant in turn, the user first and last. *)
Definition request_ok (conv : list (MessageParam RawMessage)) : bool :=
  alternates user conv && Nat.odd (List.length conv).

End Conversation.

(** The loop protections [lp] and [lp'] are configured alike: they differ
    at most in the tracking fields that [Run] sets itself before it uses
    them (the session start, the consecutive-use counter, the last tool
    and its streak). *)
Definition configured_alike (lp lp' : LoopProtection) : Prop :=
  MaxConsecutiveToolUses lp' = MaxConsecutiveToolUses lp /\
  MaxToolUsesPerMinute lp' = MaxToolUsesPerMinute lp /\
  MaxSessionDuration lp' = MaxSessionDuration lp /\
  MaxSameToolCalls lp' = MaxSameToolCalls lp /\
  ToolUseStartTime lp' = ToolUseStartTime lp /\
  ToolUseCount lp' = ToolUseCount lp.

End RunSpec.

Module ResponseSpec.
Import agent.

Section Blocks.
Context {RawMessage : Type}.

(** The events that printing the text blocks of a response leaves in the
    trace, in order. *)
Fixpoint printed_texts (blocks : list (ContentBlock RawMessage)) : list Event :=
  match blocks with
  | [] => []
  | TextBlock text :: blocks' => EvText text :: printed_texts blocks'
  | _ :: blocks' => printed_texts blocks'
  end.

End Blocks.

End ResponseSpec.

(* ===================================================================== *)
(** * internal/agent/tools: the action_limiter tool

    The tool keeps its statistics in package-level variables ([stats],
    [isInitialized]); they are the state [Limiter] of the model, passed
    from call to call.  The mutex orders concurrent calls; the model is
    of calls made one after the other.  As in the model of the agent, the
    clock gives the n-th reading of [time.Now()]; besides, Go leaves the
    order of a [range] over a map open, so the order of the n-th such
    loop is a parameter as well.  A map that is nil and a map that is
    empty read alike, and the code writes to none before it has made it:
    both are the empty map of the model. *)
(* ===================================================================== *)

Module action_limiter.

(** [ActionLimiterInput] *)
Record ActionLimiterInput := {
  Action : string;
  Target : string;
  CheckOnly : bool;
  ResetState : bool
}.

(** [ActionStats] *)
Record ActionStats := {
  TotalActions : Z;
  ActionsByType : gmap string Z;
  ActionsByTarget : gmap string Z;
  ActionsByTypePath : gmap string (gmap string Z);
  StartTime : Z;
  LastActionTime : Z;
  ConsecutiveSame : Z;
  LastAction : string;
  LastTarget : string
}.

(** The package-level variables, and how often the clock was read and a
    map ranged over. *)
Record Limiter := {
  stats : ActionStats;
  isInitialized : bool;
  ticks : nat;
  ranges : nat
}.

(** [time.Second] and [time.Minute], in nanoseconds. *)
Definition Second : Z := 1000000000.
Definition Minute : Z := 60 * Second.

(** [m[k]] for a map of counters: zero for a key that is not there. *)
Definition count_of (m : gmap string Z) (k : string) : Z := default 0 (m !! k).

(** [m[k]++] *)
Definition increment (m : gmap string Z) (k : string) : gmap string Z :=
  <[k := count_of m k + 1]> m.

(** The statistics of a limiter that has just been made, [now1] and
    [now2] being the two readings of the clock. *)
Definition fresh_stats (now1 now2 : Z) : ActionStats := {|
  TotalActions := 0;
  ActionsByType := ∅;
  ActionsByTarget := ∅;
  ActionsByTypePath := ∅;
  StartTime := now1;
  LastActionTime := now2;
  ConsecutiveSame := 0;
  LastAction := "";
  LastTarget := ""
|}.

(** The variables when the program starts. *)
Definition zero : Limiter := {|
  stats := {| TotalActions := 0; ActionsByType := ∅; ActionsByTarget := ∅;
              ActionsByTypePath := ∅; StartTime := 0; LastActionTime := 0;
              ConsecutiveSame := 0; LastAction := ""; LastTarget := "" |};
  isInitialized := false;
  ticks := O;
  ranges := O
|}.

Section ActionLimiter.

Variable clock : nat -> Z.

(** The order in which the n-th [range] goes over a map. *)
Variable map_range : nat -> gmap string Z -> list (string * Z).

(** [fmt.Sprintf("%0.1f", d.Seconds())] and the same for minutes. *)
Variable fmt_seconds : Z -> string.
Variable fmt_minutes : Z -> string.

Variable RawMessage : Type.
Variable json_Unmarshal : RawMessage -> error + ActionLimiterInput.
Variable json_MarshalIndent : ActionStats -> error + string.

(** [time.Now()] *)
Definition time_Now (l : Limiter) : Z * Limiter :=
  (clock (ticks l),
   {| stats := stats l; isInitialized := isInitialized l;
      ticks := S (ticks l); ranges := ranges l |}).

(** [stats = ActionStats{...}] with fresh maps and the time of now. *)
Definition make_stats (l : Limiter) : Limiter :=
  let '(now1, l) := time_Now l in
  let '(now2, l) := time_Now l in
  {| stats := fresh_stats now1 now2; isInitialized := isInitialized l;
     ticks := ticks l; ranges := ranges l |}.

Definition set_initialized (l : Limiter) : Limiter :=
  {| stats := stats l; isInitialized := true; ticks := ticks l; ranges := ranges l |}.

Definition set_stats (s : ActionStats) (l : Limiter) : Limiter :=
  {| stats := s; isInitialized := isInitialized l; ticks := ticks l; ranges := ranges l |}.

(** [initializeStats] *)
Definition initializeStats (l : Limiter) : Limiter :=
  if negb (isInitialized l) then set_initialized (make_stats l) else l.

(** [checkLimits].  The code compares [timeSinceStart.Seconds()] and
    [timeSinceStart.Minutes()], which are floats, with 5; for a duration
    in whole nanoseconds the first is below 5 exactly when the duration
    is below five seconds, and the second above 5 exactly when the
    duration is above five minutes. *)
Definition checkLimits (l : Limiter) : (bool * string) * Limiter :=
  if negb (isInitialized l) then ((false, ""), l)
  else if 50 <=? TotalActions (stats l) then
    ((true, "Total action limit exceeded (50 actions)"), l)
  else
    let order := map_range (ranges l) (ActionsByTarget (stats l)) in
    let l := {| stats := stats l; isInitialized := isInitialized l;
                ticks := ticks l; ranges := S (ranges l) |} in
    match List.find (fun entry => 10 <=? snd entry) order with
    | Some (target, count) =>
        ((true, "Too many actions (" ++ itoa count ++ ") on the same target: " ++ target), l)
    | None =>
        if 5 <=? ConsecutiveSame (stats l) then
          ((true, "Too many consecutive identical actions (" ++
                  itoa (ConsecutiveSame (stats l)) ++ "): " ++ LastAction (stats l) ++
                  " on " ++ LastTarget (stats l)), l)
        else
          let '(now, l) := time_Now l in
          let timeSinceStart := now - StartTime (stats l) in
          if (10 <? TotalActions (stats l)) && (timeSinceStart <? 5 * Second) then
            ((true, "Too many actions (" ++ itoa (TotalActions (stats l)) ++
                    ") in a short time (" ++ fmt_seconds timeSinceStart ++ " seconds)"), l)
          else if 5 * Minute <? timeSinceStart then
            ((true, "Session time limit exceeded (" ++ fmt_minutes timeSinceStart ++
                    " minutes)"), l)
          else ((false, ""), l)
    end.

(** [recordAction] *)
Definition recordAction (action target : string) (l : Limiter) : Limiter :=
  let l := if negb (isInitialized l) then set_initialized (make_stats l) else l in
  let s := stats l in
  let byTypePath :=
    let inner := default ∅ (ActionsByTypePath s !! action) in
    <[action := increment inner target]> (ActionsByTypePath s) in
  let consecutiveSame :=
    if String.eqb action (LastAction s) && String.eqb target (LastTarget s)
    then ConsecutiveSame s + 1 else 1 in
  let '(now, l) := time_Now l in
  set_stats
    {| TotalActions := TotalActions s + 1;
       ActionsByType := increment (ActionsByType s) action;
       ActionsByTarget := increment (ActionsByTarget s) target;
       ActionsByTypePath := byTypePath;
       StartTime := StartTime s;
       LastActionTime := now;
       ConsecutiveSame := consecutiveSame;
       LastAction := action;
       LastTarget := target |} l.

(** [resetStats] *)
Definition resetStats (l : Limiter) : Limiter := make_stats l.

(** [ActionLimiter] *)
Definition ActionLimiter (input : RawMessage) (l : Limiter) : GoResult * Limiter :=
  match json_Unmarshal input with
  | inl e => (("", Some (wrapError "failed to parse input: " e)), l)
  | inr actionLimiterInput =>
      let l := initializeStats l in
      if ResetState actionLimiterInput then
        (("Action stats reset successfully", None), resetStats l)
      else
        let '((exceeded, reason), l) := checkLimits l in
        if exceeded then (("Action limit exceeded: " ++ reason, None), l)
        else
          let l :=
            if negb (CheckOnly actionLimiterInput) &&
               negb (String.eqb (Action actionLimiterInput) "")
            then recordAction (Action actionLimiterInput) (Target actionLimiterInput) l
            else l in
          match json_MarshalIndent (stats l) with
          | inl e => (("", Some (wrapError "failed to marshal stats: " e)), l)
          | inr statsJSON => ((statsJSON, None), l)
          end
  end.

End ActionLimiter.

End action_limiter.

(* ===================================================================== *)
(** * Vocabulary for the action limiter *)
(* ===================================================================== *)

Module LimiterSpec.
Import action_limiter.

(** The sum of the counters of a map. *)
Definition total (m : gmap string Z) : Z :=
  map_fold (fun _ count acc => count + acc) 0 m.

(** The state after a series of calls of the tool, one after the
    other. *)
Definition after_calls {RawMessage : Type}
    (tool : RawMessage -> Limiter -> GoResult * Limiter)
    (inputs : list RawMessage) (l : Limiter) : Limiter :=
  List.fold_left (fun l input => snd (tool input l)) inputs l.

(** A [range] visits every entry of the map. *)
Definition visits_all (map_range : nat -> gmap string Z -> list (string * Z)) : Prop :=
  forall n m k c, m !! k = Some c -> In (k, c) (map_range n m).

(** The counters are within the limits of the tool. *)
Definition within_limits (s : ActionStats) : Prop :=
  0 <= TotalActions s <= 50 /\
  0 <= ConsecutiveSame s <= 5 /\
  forall k c, ActionsByTarget s !! k = Some c -> 1 <= c <= 10.

(** The counters add up: the total is the sum of the counters by type,
    and the sum of the counters by target; and the counter of a type is
    the sum of the counters of that type by target. *)
Definition adds_up (s : ActionStats) : Prop :=
  TotalActions s = total (ActionsByType s) /\
  TotalActions s = total (ActionsByTarget s) /\
  forall action,
    count_of (ActionsByType s) action
    = total (default ∅ (ActionsByTypePath s !! action)).

(** A count limit is reached: the total, the count of some target, or
    the streak of identical actions. *)
Definition count_limit_reached (s : ActionStats) : Prop :=
  50 <= TotalActions s \/
  (exists k c, ActionsByTarget s !! k = Some c /\ 10 <= c) \/
  5 <= ConsecutiveSame s.

End LimiterSpec.

(* ===================================================================== *)
(** * The tools as the agent runs them

    A tool of the agent is a Go function on the raw input; what it reads
    and writes besides (the files, the package-level variables of the
    action limiter) is the world of the model of the agent. *)
(* ===================================================================== *)

Module registry.
Import agent.

(** What the modelled tools act on. *)
Record World := {
  files : os.FS;
  limiter : action_limiter.Limiter
}.

Section Registry.

Variable path_Dir : string -> string.
Context {engine : RegexpEngine}.
Variable RawMessage : Type.
Variable editor_Unmarshal : RawMessage -> error + tools.FileEditorInput.
Variable reader_Unmarshal : RawMessage -> error + file_reader.FileReaderInput.
Variable limiter_Unmarshal : RawMessage -> error + action_limiter.ActionLimiterInput.
Variable limiter_clock : nat -> Z.
Variable map_range : nat -> gmap string Z -> list (string * Z).
Variable fmt_seconds : Z -> string.
Variable fmt_minutes : Z -> string.
Variable json_MarshalIndent : action_limiter.ActionStats -> error + string.

(** [FileReaderToolDefinition] *)
Definition FileReaderToolDefinition : ToolDefinition World RawMessage := {|
  Name := "read_file";
  Function := fun input w =>
    (file_reader.ReadFileContent RawMessage reader_Unmarshal input (files w), w)
|}.

(** [FileEditorToolDefinition] *)
Definition FileEditorToolDefinition : ToolDefinition World RawMessage := {|
  Name := "file_editor";
  Function := fun input w =>
    let '(res, fs) :=
      tools.EditFileContent path_Dir RawMessage editor_Unmarshal input (files w) in
    (res, {| files := fs; limiter := limiter w |})
|}.

(** [ActionLimiterToolDefinition] *)
Definition ActionLimiterToolDefinition : ToolDefinition World RawMessage := {|
  Name := "action_limiter";
  Function := fun input w =>
    let '(res, l) :=
      action_limiter.ActionLimiter limiter_clock map_range fmt_seconds fmt_minutes
        RawMessage limiter_Unmarshal json_MarshalIndent input (limiter w) in
    (res, {| files := files w; limiter := l |})
|}.

(** The modelled tools, in the order in which [GetAllTools] lists
    them. *)
Definition modelled_tools : list (ToolDefinition World RawMessage) :=
  [FileReaderToolDefinition; FileEditorToolDefinition; ActionLimiterToolDefinition].

End Registry.

End registry.

(* ===================================================================== *)
(** * search_web: the helper that shortens strings for the log *)
(* ===================================================================== *)

Module search_web.

(** [truncateString].  [None] is the panic of the slice expression
    [s[:maxLen]] for a negative [maxLen]. *)
Definition truncateString (s : string) (maxLen : Z) : option string :=
  if len s <=? maxLen then Some s
  else if maxLen <? 0 then None
  else Some (slice_to s maxLen ++ "...").

End search_web.

(* ===================================================================== *)
(** * Package config

    The client, the function that reads a line of user input and the
    tool definitions are values the configuration only carries: their
    types are parameters.  A field that is nil in Go is [None]. *)
(* ===================================================================== *)

Module config.

Section Config.

Variables ClientT UserMessageT ToolT : Type.

(** [Config] *)
Record Config := {
  AnthropicAPIKey : string;
  Model : string;
  MaxTokens : Z;
  GetUserMessage : option UserMessageT;
  Client : option ClientT;
  Tools : option (list ToolT)
}.

(** The environment variables, [strconv.ParseInt(s, 10, 64)], the two
    model names of the SDK, the function that reads standard input, the
    client [anthropic.NewClient()] makes, and [tools.GetAllTools()]. *)
Variable os_Getenv : string -> string.
Variable strconv_ParseInt : string -> error + Z.
Variable ModelClaude3_5HaikuLatest : string.
Variable ModelClaude3_7SonnetLatest : string.
Variable scan_stdin : UserMessageT.
Variable anthropic_NewClient : ClientT.
Variable GetAllTools : list ToolT.

(** [getEnvOrDefault] *)
Definition getEnvOrDefault (key defaultValue : string) : string :=
  let value := os_Getenv key in
  if negb (String.eqb value "") then value else defaultValue.

(** [LoadFromEnv] *)
Definition LoadFromEnv : error + Config :=
  let config := {|
    AnthropicAPIKey := os_Getenv "ANTHROPIC_API_KEY";
    Model := getEnvOrDefault "CLAUDE_MODEL" ModelClaude3_5HaikuLatest;
    MaxTokens := 0;
    GetUserMessage := None;
    Client := None;
    Tools := None
  |} in
  let maxTokensStr := getEnvOrDefault "MAX_TOKENS" "1024" in
  match strconv_ParseInt maxTokensStr with
  | inl err => inl (wrapError "invalid MAX_TOKENS value: " err)
  | inr maxTokens =>
      let config := {|
        AnthropicAPIKey := AnthropicAPIKey config;
        Model := Model config;
        MaxTokens := maxTokens;
        GetUserMessage := GetUserMessage config;
        Client := Client config;
        Tools := Tools config
      |} in
      if String.eqb (AnthropicAPIKey config) "" then
        inl (errorString "ANTHROPIC_API_KEY environment variable is not set")
      else inr config
  end.

(** [WithDefaults] *)
Definition WithDefaults (c : Config) : Config := {|
  AnthropicAPIKey := AnthropicAPIKey c;
  Model := if String.eqb (Model c) "" then ModelClaude3_7SonnetLatest else Model c;
  MaxTokens := if MaxTokens c <=? 0 then 1024 else MaxTokens c;
  GetUserMessage :=
    match GetUserMessage c with
    | None => Some scan_stdin
    | Some f => Some f
    end;
  Client :=
    match Client c with
    | None => Some anthropic_NewClient
    | Some client => Some client
    end;
  Tools :=
    match Tools c with
    | None => Some GetAllTools
    | Some tools => Some tools
    end
|}.

(** [Validate] *)
Definition Validate (c : Config) : option error :=
  match Client c with
  | None => Some (errorString "Claude client is required")
  | Some _ =>
      match GetUserMessage c with
      | None => Some (errorString "GetUserMessage function is required")
      | Some _ => None
      end
  end.

End Config.

Arguments AnthropicAPIKey {ClientT UserMessageT ToolT}.
Arguments Model {ClientT UserMessageT ToolT}.
Arguments MaxTokens {ClientT UserMessageT ToolT}.
Arguments GetUserMessage {ClientT UserMessageT ToolT}.
Arguments Client {ClientT UserMessageT ToolT}.
Arguments Tools {ClientT UserMessageT ToolT}.
Arguments Build_Config {ClientT UserMessageT ToolT}.
Arguments LoadFromEnv {ClientT UserMessageT ToolT}.
Arguments WithDefaults {ClientT UserMessageT ToolT}.
Arguments Validate {ClientT UserMessageT ToolT}.

End config.

(* ===================================================================== *)
(** * More concrete inputs for the examples *)
(* ===================================================================== *)

Module MoreExamples.
Import agent Examples.

(** Edits of notes.txt and of a file that is not there. *)
Definition append_bang : tools.FileEditorInput :=
  edit "append" "notes.txt" "" "" "" "!" 0 0.

Definition create_new : tools.FileEditorInput :=
  edit "create" "new.txt" "" "" "" "hello" 0 0.

Definition read_new : file_reader.FileReaderInput := {| file_reader.Path := "new.txt" |}.

Definition parsed_reader : file_reader.FileReaderInput -> error + file_reader.FileReaderInput :=
  inr.

(** The pattern foo\d+, compiled. *)
Definition foo_digits : regexp.Prog :=
  [(regexp.Lit "f", regexp.One); (regexp.Lit "o", regexp.One);
   (regexp.Lit "o", regexp.One); (regexp.Class false regexp.digit, regexp.Plus)].

(** A second tool registered as read_file, behind the first. *)
Definition shadowed_tool : ToolDefinition unit unit :=
  {| Name := "read_file"; Function := fun _ w => (("shadowed", None), w) |}.

(** A response that is only text. *)
Definition just_text : Message unit :=
  {| Content := [TextBlock "hello"; OtherBlock "thinking"; TextBlock "bye"] |}.

(** A client that turns down a conversation that is not as a request
    should be, and otherwise answers as [tool_every_time]. *)
Definition guarded_client : nat -> list (MessageParam unit) -> error + Message unit :=
  fun n conv =>
    if RunSpec.request_ok conv then tool_every_time n conv
    else inl (errorString "malformed request").

(** A loop protection with the default limits whose tracking fields are
    left over from earlier. *)
Definition stale_tracking : LoopProtection :=
  set_SameToolCallCount 4
    (set_LastToolName "read_file"
       (set_ConsecutiveToolUses 99 (set_SessionStartTime 12345 (NewLoopProtection 0 0)))).

(** A clock that advances by a minute at every reading. *)
Definition minute_clock : nat -> Z := fun n => Z.of_nat n * Minute.

(** A tool that counts its calls in the world. *)
Definition counter_tool : ToolDefinition Z unit :=
  {| Name := "read_file"; Function := fun _ w => (("ok", None), w + 1) |}.

(** The action limiter: input that is already parsed, a range in the
    order of the map, and plain formatting. *)
Definition parsed_action
    : action_limiter.ActionLimiterInput -> error + action_limiter.ActionLimiterInput :=
  inr.

Definition in_map_order : nat -> gmap string Z -> list (string * Z) :=
  fun _ m => map_to_list m.

Definition plain_float : Z -> string := fun _ => "0.0".

Definition plain_stats : action_limiter.ActionStats -> error + string :=
  fun _ => inr "{}".

Definition edit_main : action_limiter.ActionLimiterInput :=
  {| action_limiter.Action := "edit_file"; action_limiter.Target := "main.go";
     action_limiter.CheckOnly := false; action_limiter.ResetState := false |}.

Definition check_main : action_limiter.ActionLimiterInput :=
  {| action_limiter.Action := "edit_file"; action_limiter.Target := "main.go";
     action_limiter.CheckOnly := true; action_limiter.ResetState := false |}.

Definition reset_all : action_limiter.ActionLimiterInput :=
  {| action_limiter.Action := ""; action_limiter.Target := "";
     action_limiter.CheckOnly := false; action_limiter.ResetState := true |}.

Definition limiter_tool
    : action_limiter.ActionLimiterInput -> action_limiter.Limiter ->
      GoResult * action_limiter.Limiter :=
  action_limiter.ActionLimiter still_clock in_map_order plain_float plain_float
    action_limiter.ActionLimiterInput parsed_action plain_stats.

(** The limiter after five edits of main.go in a row. *)
Definition five_edits : action_limiter.Limiter :=
  LimiterSpec.after_calls limiter_tool
    [edit_main; edit_main; edit_main; edit_main; edit_main] action_limiter.zero.

(** A session with the three modelled tools, whose raw input is read the
    same way whatever it is. *)
Definition session_tools : list (ToolDefinition registry.World unit) :=
  registry.modelled_tools working_dir (engine := regexp.engine) unit
    (fun _ => inr append_bang) (fun _ => inr read_new) (fun _ => inr edit_main)
    still_clock in_map_order plain_float plain_float plain_stats.

Definition session_world : registry.World :=
  {| registry.files := notes; registry.limiter := action_limiter.zero |}.

(** An environment with an API key and nothing else, and a parser of
    decimal numbers that knows the default. *)
Definition key_only : string -> string :=
  fun key => if String.eqb key "ANTHROPIC_API_KEY" then "sk-test" else "".

Definition parse_default : string -> error + Z :=
  fun s => if String.eqb s "1024" then inr 1024
           else inl (errorString "strconv.ParseInt: parsing: invalid syntax").

Definition loaded : config.Config unit unit unit :=
  {| config.AnthropicAPIKey := "sk-test"; config.Model := "claude-3-5-haiku-latest";
     config.MaxTokens := 1024; config.GetUserMessage := None; config.Client := None;
     config.Tools := None |}.

End MoreExamples.

(** stdpp keeps [simpl] from unfolding string append; the proofs below
    compute with it. *)
#[local] Arguments String.append !s1 s2 : simpl nomatch.

(* ===================================================================== *)
(** * Strings: append, take and drop *)
(* ===================================================================== *)

Lemma str_app_nil_r (s : string) : s ++ "" = s.
Proof. induction s as [|a s IH]; simpl; [reflexivity | now rewrite IH]. Qed.

Lemma str_app_assoc (s t u : string) : (s ++ t) ++ u = s ++ t ++ u.
Proof. induction s as [|a s IH]; simpl; [reflexivity | now rewrite IH]. Qed.

Lemma str_length_app (s t : string) :
  String.length (s ++ t) = (String.length s + String.length t)%nat.
Proof. induction s as [|a s IH]; simpl; [reflexivity | now rewrite IH]. Qed.

Lemma str_take_drop (n : nat) (s : string) : str_take n s ++ str_drop n s = s.
Proof.
  revert s; induction n as [|n IH]; intros [|a s]; simpl; try reflexivity.
  now rewrite IH.
Qed.

Lemma str_take_app (a b : string) : str_take (String.length a) (a ++ b) = a.
Proof. induction a as [|c a IH]; simpl; [now destruct b | now rewrite IH]. Qed.

Lemma str_drop_app (a b : string) : str_drop (String.length a) (a ++ b) = b.
Proof. induction a as [|c a IH]; simpl; [reflexivity | exact IH]. Qed.

Lemma str_drop_drop (n m : nat) (s : string) :
  str_drop m (str_drop n s) = str_drop (n + m) s.
Proof.
  revert s; induction n as [|n IH]; intros s; simpl; [reflexivity |].
  destruct s as [|a s]; [now destruct m | apply IH].
Qed.

Lemma str_length_drop (n : nat) (s : string) :
  String.length (str_drop n s) = (String.length s - n)%nat.
Proof.
  revert s; induction n as [|n IH]; intros [|a s]; simpl; try reflexivity; try lia.
  apply IH.
Qed.

Lemma str_length_take (n : nat) (s : string) :
  (n <= String.length s)%nat -> String.length (str_take n s) = n.
Proof.
  revert s; induction n as [|n IH]; intros [|a s]; simpl; intros Hn; try reflexivity; try lia.
  rewrite IH; lia.
Qed.

(** Two splittings of one string at the same offset agree. *)
Lemma str_app_inj_length (a a' b b' : string) :
  a ++ b = a' ++ b' -> String.length a = String.length a' -> a = a' /\ b = b'.
Proof.
  revert a'; induction a as [|c a IH]; intros [|c' a']; simpl; intros E L; try discriminate.
  - now split.
  - injection E as -> E. injection L as L. destruct (IH _ E L) as [-> ->]. now split.
Qed.

Lemma str_app_inv_head (a b b' : string) : a ++ b = a ++ b' -> b = b'.
Proof. intros E. now destruct (str_app_inj_length a a b b' E eq_refl). Qed.

Lemma str_eqb_false (s t : string) : s <> t -> String.eqb s t = false.
Proof. intros; now apply String.eqb_neq. Qed.

(* ===================================================================== *)
(** * strings.Index finds the leftmost occurrence *)
(* ===================================================================== *)

Import ReplaceSpec.

Lemma HasPrefix_true (s p : string) :
  strings.HasPrefix s p = true <-> exists b, s = p ++ b.
Proof.
  revert s; induction p as [|c p IH]; intros s; simpl.
  - split; [intros _; now exists s | now destruct s].
  - destruct s as [|a s]; simpl.
    + split; [discriminate | intros [b E]; discriminate].
    + destruct (Ascii.eqb_spec a c) as [->|Hne].
      * rewrite IH. split; intros [b E]; exists b; [now rewrite E | now injection E].
      * split; [discriminate | intros [b E]; injection E; congruence].
Qed.

Lemma index_from_eq (s sub : string) :
  strings.index_from s sub =
  if strings.HasPrefix s sub then Some O
  else match s with
       | "" => None
       | String _ s' => option_map S (strings.index_from s' sub)
       end.
Proof. now destruct s. Qed.

Lemma index_from_Some (s sub : string) (i : nat) :
  strings.index_from s sub = Some i ->
  leftmost sub s (str_take i s) (str_drop (i + String.length sub) s).
Proof.
  revert i; induction s as [|c s IH]; intros i; rewrite index_from_eq;
    destruct (strings.HasPrefix _ sub) eqn:Hp; try discriminate.
  - intros [= <-]. apply HasPrefix_true in Hp as [b E].
    destruct sub; [|discriminate]. destruct b; [|discriminate].
    split; [reflexivity | intros; simpl; lia].
  - intros [= <-]. apply HasPrefix_true in Hp as [b E].
    split; [| intros; simpl; lia].
    cbn [str_take Nat.add]. rewrite E at 1. simpl. f_equal.
    rewrite E. now rewrite str_drop_app.
  - destruct (strings.index_from s sub) as [j|] eqn:Hj; [|discriminate].
    intros [= <-]. destruct (IH j eq_refl) as [E Hmin].
    split.
    + cbn [str_take Nat.add str_drop]. simpl. now f_equal.
    + intros a' b' E'. destruct a' as [|c' a'].
      * exfalso. assert (strings.HasPrefix (String c s) sub = true) as Ht
          by (apply HasPrefix_true; now exists b').
        congruence.
      * simpl in E'. injection E' as -> E'.
        specialize (Hmin _ _ E'). cbn [str_take String.length]. lia.
Qed.

Lemma index_from_None (s sub : string) :
  strings.index_from s sub = None -> absent sub s.
Proof.
  induction s as [|c s IH]; rewrite index_from_eq;
    destruct (strings.HasPrefix _ sub) eqn:Hp; try discriminate.
  - intros _ a b E. destruct a; [|discriminate].
    assert (strings.HasPrefix "" sub = true) by (apply HasPrefix_true; now exists b).
    congruence.
  - destruct (strings.index_from s sub) eqn:Hj; [discriminate|].
    intros _ a b E. destruct a as [|c' a].
    + assert (strings.HasPrefix (String c s) sub = true)
        by (apply HasPrefix_true; now exists b).
      congruence.
    + simpl in E. injection E as -> E. exact (IH eq_refl _ _ E).
Qed.

(** The two outcomes of [strings.Index]. *)
Lemma Index_cases (s sub : string) :
  (strings.Index s sub = -1 /\ absent sub s) \/
  (0 <= strings.Index s sub /\
   leftmost sub s (slice_to s (strings.Index s sub))
                  (slice_from s (strings.Index s sub + len sub))).
Proof.
  unfold strings.Index, slice_to, slice_from, len.
  destruct (strings.index_from s sub) as [i|] eqn:Hi.
  - right. split; [lia|].
    rewrite Nat2Z.id, <- Nat2Z.inj_add, Nat2Z.id. now apply index_from_Some.
  - left. split; [reflexivity | now apply index_from_None].
Qed.

Lemma leftmost_not_absent (sub s a b : string) : leftmost sub s a b -> absent sub s -> False.
Proof. intros [E _] Ha. exact (Ha _ _ E). Qed.

Lemma leftmost_unique (sub s a b a' b' : string) :
  leftmost sub s a b -> leftmost sub s a' b' -> a = a' /\ b = b'.
Proof.
  intros [E M] [E' M'].
  assert (String.length a = String.length a') as L
    by (pose proof (M _ _ E'); pose proof (M' _ _ E); lia).
  rewrite E in E'. destruct (str_app_inj_length _ _ _ _ E' L) as [-> E2].
  split; [reflexivity | exact (str_app_inv_head _ _ _ E2)].
Qed.

Lemma leftmost_length (sub s a b : string) :
  leftmost sub s a b ->
  String.length s = (String.length a + String.length sub + String.length b)%nat.
Proof. intros [-> _]. rewrite !str_length_app. lia. Qed.

Lemma occurrences_fun (sub s : string) (k k' : nat) :
  occurrences sub s k -> occurrences sub s k' -> k = k'.
Proof.
  intros H; revert k'; induction H as [s Ha | s a b k Hl Ho IH]; intros k' H'.
  - inversion H' as [|? a' b' ? Hl']; subst; [reflexivity|].
    destruct (leftmost_not_absent _ _ _ _ Hl' Ha).
  - inversion H' as [? Ha'|? a' b' k2 Hl' Ho']; subst.
    + destruct (leftmost_not_absent _ _ _ _ Hl Ha').
    + destruct (leftmost_unique _ _ _ _ _ _ Hl Hl') as [-> ->].
      f_equal. now apply IH.
Qed.

Lemma replaced_fun (old new s r r' : string) (n : nat) :
  replaced old new n s r -> replaced old new n s r' -> r = r'.
Proof.
  intros H; revert r'; induction H as [s | n s a b r Hl Hr IH]; intros r' H'.
  - now inversion H'.
  - inversion H' as [|? ? a' b' r2 Hl' Hr']; subst.
    destruct (leftmost_unique _ _ _ _ _ _ Hl Hl') as [-> ->].
    now rewrite (IH _ Hr').
Qed.

(* ===================================================================== *)
(** * strings.Count, strings.Replace and the loop of replaceInFile *)
(* ===================================================================== *)

Lemma leftmost_shorter (sub s a b : string) :
  sub <> "" -> leftmost sub s a b -> (String.length b < String.length s)%nat.
Proof.
  intros Hne Hl. rewrite (leftmost_length _ _ _ _ Hl).
  destruct sub; [congruence | simpl; lia].
Qed.

Lemma occurrences_total (sub s : string) :
  sub <> "" -> exists k, occurrences sub s k.
Proof.
  intros Hne. remember (String.length s) as m eqn:Hm.
  revert s Hm. induction m as [m IH] using lt_wf_ind. intros s ->.
  destruct (Index_cases s sub) as [[_ Ha] | [_ Hl]].
  - exists O. now constructor.
  - destruct (IH _ (leftmost_shorter _ _ _ _ Hne Hl) _ eq_refl) as [k Hk].
    exists (S k). econstructor; eassumption.
Qed.

Lemma occurrences_bound (sub s : string) (k : nat) :
  sub <> "" -> occurrences sub s k -> (k <= String.length s)%nat.
Proof.
  intros Hne H. induction H as [s _ | s a b k Hl _ IH]; [lia|].
  pose proof (leftmost_shorter _ _ _ _ Hne Hl). lia.
Qed.

Lemma count_loop_spec (sub : string) (Hne : sub <> "") (fuel : nat) :
  forall s n k,
    (String.length s < fuel)%nat -> occurrences sub s k ->
    strings.count_loop fuel s sub n = n + Z.of_nat k.
Proof.
  induction fuel as [|fuel IH]; intros s n k Hf Hk; [lia|].
  cbn [strings.count_loop].
  destruct (Index_cases s sub) as [[Hi Ha] | [Hi Hl]].
  - rewrite Hi. cbn. inversion Hk as [|? a b k' Hl]; subst; [lia|].
    destruct (leftmost_not_absent _ _ _ _ Hl Ha).
  - destruct (Z.eqb_spec (strings.Index s sub) (-1)) as [E|_]; [lia|].
    inversion Hk as [? Ha|? a b k' Hl' Hk']; subst.
    + destruct (leftmost_not_absent _ _ _ _ Hl Ha).
    + destruct (leftmost_unique _ _ _ _ _ _ Hl Hl') as [_ <-].
      pose proof (leftmost_shorter _ _ _ _ Hne Hl).
      rewrite (IH _ _ k'); [lia | lia | assumption].
Qed.

(** [strings.Count] is the number of non-overlapping occurrences. *)
Lemma Count_spec (sub s : string) (k : nat) :
  sub <> "" -> occurrences sub s k -> strings.Count s sub = Z.of_nat k.
Proof.
  intros Hne Hk. unfold strings.Count.
  rewrite (count_loop_spec sub Hne _ s 0 k); [lia | lia | assumption].
Qed.

Lemma replace_loop_spec (old new : string) (n : nat) :
  forall s k,
    occurrences old s k -> (n <= k)%nat ->
    replaced old new n s (strings.replace_loop n s old new).
Proof.
  induction n as [|n IH]; intros s k Hk Hn; cbn [strings.replace_loop].
  - constructor.
  - inversion Hk as [|? a b k' Hl Hk']; subst; [lia|].
    destruct (Index_cases s old) as [[_ Ha] | [_ Hl']].
    + destruct (leftmost_not_absent _ _ _ _ Hl Ha).
    + destruct (leftmost_unique _ _ _ _ _ _ Hl Hl') as [<- <-].
      econstructor; [eassumption|]. apply (IH _ k'); [assumption | lia].
Qed.

(** [strings.ReplaceAll] replaces every one of the [k] occurrences. *)
Lemma ReplaceAll_spec (old new s : string) (k : nat) :
  old <> "" -> old <> new -> occurrences old s k ->
  replaced old new k s (strings.ReplaceAll s old new).
Proof.
  intros Hne Hon Hk. unfold strings.ReplaceAll, strings.Replace.
  rewrite (str_eqb_false _ _ Hon). cbn [orb Z.eqb].
  rewrite (Count_spec _ _ _ Hne Hk).
  destruct (Z.eqb_spec (Z.of_nat k) 0) as [E|E].
  - assert (k = O) as -> by lia. constructor.
  - cbn [Z.ltb Z.compare orb]. rewrite Nat2Z.id.
    apply (replace_loop_spec _ _ _ _ k); [assumption | lia].
Qed.

Lemma concat_all_app (l1 l2 : list string) :
  concat_all (l1 ++ l2)%list = concat_all l1 ++ concat_all l2.
Proof.
  induction l1 as [|x l1 IH]; simpl; [reflexivity|].
  unfold concat_all in *. simpl. now rewrite IH, str_app_assoc.
Qed.

Lemma Join_empty_sep (l : list string) : strings.Join l "" = concat_all l.
Proof. destruct l as [|e l]; reflexivity. Qed.

(** The loop of [replaceInFile] replaces the first [min (limit - count) k]
    occurrences and leaves the rest of [remaining] as it is. *)
Lemma replace_limited_spec (old new : string) (Hne : old <> "") (limit : Z) (fuel : nat) :
  forall remaining parts count k,
    (String.length remaining < fuel)%nat ->
    occurrences old remaining k ->
    exists remaining' parts' r,
      tools.replace_limited fuel old new limit remaining parts count
        = (remaining', parts', count + Z.of_nat (Nat.min (Z.to_nat (limit - count)) k)) /\
      replaced old new (Nat.min (Z.to_nat (limit - count)) k) remaining r /\
      concat_all (parts' ++ [remaining'])%list = concat_all parts ++ r.
Proof.
  induction fuel as [|fuel IH]; intros remaining parts count k Hf Hk; [lia|].
  cbn [tools.replace_limited].
  destruct (Z.ltb_spec count limit) as [Hlt|Hge].
  2:{ replace (Z.to_nat (limit - count)) with O by lia. cbn [Nat.min].
      exists remaining, parts, remaining. rewrite Z.add_0_r.
      split; [reflexivity|]. split; [constructor|].
      rewrite concat_all_app. unfold concat_all at 2. simpl.
      now rewrite str_app_nil_r. }
  destruct (Index_cases remaining old) as [[Hi Ha] | [Hi Hl]].
  - rewrite Hi. cbn.
    inversion Hk as [|? a b k' Hl]; subst;
      [| destruct (leftmost_not_absent _ _ _ _ Hl Ha)].
    rewrite Nat.min_0_r, Z.add_0_r.
    exists remaining, parts, remaining.
    split; [reflexivity|]. split; [constructor|].
    rewrite concat_all_app. unfold concat_all at 2. simpl.
    now rewrite str_app_nil_r.
  - destruct (Z.eqb_spec (strings.Index remaining old) (-1)) as [E|_]; [lia|].
    inversion Hk as [? Ha|? a b k' Hl' Hk']; subst;
      [destruct (leftmost_not_absent _ _ _ _ Hl Ha)|].
    destruct (leftmost_unique _ _ _ _ _ _ Hl Hl') as [Ea Eb].
    pose proof (leftmost_shorter _ _ _ _ Hne Hl) as Hs.
    rewrite Ea, Eb in *.
    destruct (IH b (parts ++ [a; new])%list (count + 1) k' ltac:(lia) Hk')
      as (rem' & parts' & r & Hrun & Hrep & Hcat).
    replace (Z.to_nat (limit - count)) with (S (Z.to_nat (limit - (count + 1)))) by lia.
    cbn [Nat.min].
    exists rem', parts', (a ++ new ++ r).
    split; [rewrite Hrun; f_equal; lia|].
    split; [econstructor; eassumption|].
    rewrite Hcat, concat_all_app. unfold concat_all at 2. simpl.
    now rewrite str_app_nil_r, !str_app_assoc.
Qed.

Lemma replaced_0 (old new s r : string) : replaced old new 0 s r -> r = s.
Proof. intros H. now inversion H. Qed.

Lemma replaced_length (old new s r : string) (n : nat) :
  replaced old new n s r ->
  (String.length r + n * String.length old = String.length s + n * String.length new)%nat.
Proof.
  induction 1 as [s | n s a b r Hl _ IH]; [lia|].
  rewrite (leftmost_length _ _ _ _ Hl), !str_length_app. lia.
Qed.

(** Replacing at least one occurrence by a different string changes the
    content: "not found" is reported exactly when nothing was replaced. *)
Lemma replaced_changes (old new s r : string) (n : nat) :
  old <> new -> replaced old new (S n) s r -> r <> s.
Proof.
  intros Hon H. pose proof (replaced_length _ _ _ _ _ H) as L.
  inversion H as [|? ? a b r' Hl Hr]; subst. intros E.
  destruct Hl as [Es _]. rewrite Es in E, L.
  apply str_app_inv_head in E.
  rewrite !str_length_app in L.
  assert (String.length (new ++ r') = String.length (old ++ b)) as L2 by now rewrite E.
  rewrite !str_length_app in L2.
  assert (String.length new = String.length old) as L' by nia.
  destruct (str_app_inj_length _ _ _ _ E L') as [-> _]. congruence.
Qed.

(* ===================================================================== *)
(** * The replace mode of the file_editor tool *)
(* ===================================================================== *)

Section ReplaceMode.
Import os tools.

Context (path_Dir : string -> string) {engine : RegexpEngine}
        {RawMessage : Type} (json_Unmarshal : RawMessage -> error + FileEditorInput).

Lemma ensureFileExists_present (p : string) (fs : FS) (n : Node) :
  fs !! p = Some n -> ensureFileExists path_Dir p fs = (None, fs).
Proof. intros Hp. unfold ensureFileExists, Stat. now rewrite Hp. Qed.

Lemma WriteFile_file (p data c : string) (fs : FS) :
  fs !! p = Some (File c) -> WriteFile p data fs = (None, <[p := File data]> fs).
Proof. intros Hp. unfold WriteFile. now rewrite Hp. Qed.

Lemma ReadFile_file (p c : string) (fs : FS) :
  fs !! p = Some (File c) -> ReadFile p fs = (c, None).
Proof. intros Hp. unfold ReadFile. now rewrite Hp. Qed.

(** [replaceInFile] on an existing file, in terms of the number [k] of
    occurrences: all of them for a limit that is not positive, the first
    [min limit k] otherwise. *)
Lemma replaceInFile_spec (p old new : string) (limit : Z) (fs : FS) (c : string) (k : nat) :
  old <> "" -> old <> new -> fs !! p = Some (File c) -> occurrences old c k ->
  replace_outcome p old new fs c
    (if limit <=? 0 then k else Nat.min (Z.to_nat limit) k)
    (replaceInFile path_Dir p old new limit fs).
Proof.
  intros Hne Hon Hp Hk. unfold replaceInFile.
  rewrite (str_eqb_false _ _ Hne), (str_eqb_false _ _ Hon).
  rewrite (ensureFileExists_present _ _ _ Hp), (ReadFile_file _ _ _ Hp).
  destruct (Z.ltb_spec 0 limit) as [Hpos|Hnp].
  - destruct (Z.leb_spec limit 0) as [?|_]; [lia|].
    destruct (replace_limited_spec old new Hne limit (S (String.length c)) c [] 0 k
                ltac:(lia) Hk) as (rem' & parts' & r & Hrun & Hrep & Hcat).
    rewrite Hrun. rewrite Z.sub_0_r in *. rewrite Z.add_0_l.
    remember (Nat.min (Z.to_nat limit) k) as n eqn:En.
    destruct n as [|n].
    + change (0 <? Z.of_nat 0) with false. cbv beta iota.
      rewrite String.eqb_refl. split; [reflexivity | congruence].
    + destruct (Z.ltb_spec 0 (Z.of_nat (S n))) as [_|?]; [|lia].
      cbv beta iota.
      rewrite Join_empty_sep, Hcat. cbn [concat_all List.fold_right String.append].
      rewrite (str_eqb_false c r)
        by (intros ->; exact (replaced_changes _ _ _ _ _ Hon Hrep eq_refl)).
      rewrite (WriteFile_file _ _ _ _ Hp).
      split; [congruence | intros _; now exists r].
  - destruct (Z.leb_spec limit 0) as [_|?]; [|lia].
    pose proof (ReplaceAll_spec _ _ _ _ Hne Hon Hk) as Hrep.
    rewrite (Count_spec _ _ _ Hne Hk).
    destruct k as [|k].
    + rewrite (replaced_0 _ _ _ _ Hrep).
      rewrite String.eqb_refl. split; [reflexivity | congruence].
    + rewrite (str_eqb_false c _)
        by (intros E; exact (replaced_changes _ _ _ _ _ Hon Hrep (eq_sym E))).
      rewrite (WriteFile_file _ _ _ _ Hp).
      split; [congruence | intros _; eexists; split; [exact Hrep | reflexivity]].
Qed.

Lemma EditFileContent_replace (raw : RawMessage) (inp : FileEditorInput) (fs : FS) :
  json_Unmarshal raw = inr inp -> Mode inp = "replace" -> Path inp <> "" ->
  EditFileContent path_Dir RawMessage json_Unmarshal raw fs =
  replaceInFile path_Dir (Path inp) (OldStr inp) (NewStr inp) (Limit inp) fs.
Proof.
  intros Hj Hm Hp. unfold EditFileContent.
  now rewrite Hj, (str_eqb_false _ _ Hp), Hm.
Qed.

(** C1. In replace mode: an empty old_str fails; old_str equal to new_str
    succeeds as a no-op and leaves the file system as it is; otherwise,
    on a file with content [c] holding [k] non-overlapping occurrences of
    old_str, limit 0 replaces all [k] and a positive limit N the first
    [min N k], scanning left to right and leaving the rest untouched, and
    the call fails, without touching the file, exactly when no
    occurrence was replaced. *)
Theorem replace_mode_correct (raw : RawMessage) (inp : FileEditorInput) (fs : FS) :
  json_Unmarshal raw = inr inp -> Mode inp = "replace" -> Path inp <> "" ->
  (OldStr inp = "" ->
   EditFileContent path_Dir RawMessage json_Unmarshal raw fs
     = (("", Some (errorString "old_str cannot be empty")), fs)) /\
  (OldStr inp <> "" -> OldStr inp = NewStr inp ->
   EditFileContent path_Dir RawMessage json_Unmarshal raw fs
     = (("No changes needed - old_str and new_str are identical", None), fs)) /\
  (OldStr inp <> "" -> OldStr inp <> NewStr inp ->
   forall c, fs !! Path inp = Some (File c) ->
   exists k,
     occurrences (OldStr inp) c k /\
     (Limit inp = 0 ->
      replace_outcome (Path inp) (OldStr inp) (NewStr inp) fs c k
        (EditFileContent path_Dir RawMessage json_Unmarshal raw fs)) /\
     (0 < Limit inp ->
      replace_outcome (Path inp) (OldStr inp) (NewStr inp) fs c
        (Nat.min (Z.to_nat (Limit inp)) k)
        (EditFileContent path_Dir RawMessage json_Unmarshal raw fs))).
Proof.
  intros Hj Hm Hp. rewrite (EditFileContent_replace _ _ _ Hj Hm Hp).
  split; [|split].
  - intros ->. reflexivity.
  - intros Hne <-. unfold replaceInFile.
    now rewrite (str_eqb_false _ _ Hne), String.eqb_refl.
  - intros Hne Hon c Hc.
    destruct (occurrences_total (OldStr inp) c Hne) as [k Hk].
    exists k. split; [exact Hk|].
    pose proof (replaceInFile_spec (Path inp) _ _ (Limit inp) fs c k Hne Hon Hc Hk) as Hs.
    split; intros Hl.
    + rewrite Hl in *. exact Hs.
    + destruct (Z.leb_spec (Limit inp) 0) as [?|_]; [lia | exact Hs].
Qed.

(** C6. With a non-empty old_str different from new_str, on a file
    holding [k] non-overlapping occurrences of old_str, a replace call
    with limit 0 and the same call with limit [k] return the same message
    and leave the same file system: the files are byte-identical. *)
Theorem replace_all_eq_replace_count (raw0 rawk : RawMessage) (inp0 inpk : FileEditorInput)
    (fs : FS) (c : string) :
  json_Unmarshal raw0 = inr inp0 -> json_Unmarshal rawk = inr inpk ->
  Mode inp0 = "replace" -> Mode inpk = "replace" ->
  Path inpk = Path inp0 -> OldStr inpk = OldStr inp0 -> NewStr inpk = NewStr inp0 ->
  Path inp0 <> "" -> OldStr inp0 <> "" -> OldStr inp0 <> NewStr inp0 ->
  fs !! Path inp0 = Some (File c) ->
  Limit inp0 = 0 ->
  exists k,
    occurrences (OldStr inp0) c k /\
    (Limit inpk = Z.of_nat k ->
     EditFileContent path_Dir RawMessage json_Unmarshal raw0 fs
     = EditFileContent path_Dir RawMessage json_Unmarshal rawk fs).
Proof.
  intros Hj0 Hjk Hm0 Hmk HP HO HN Hp Hne Hon Hc Hl0.
  destruct (occurrences_total (OldStr inp0) c Hne) as [k Hk].
  exists k. split; [exact Hk|]. intros Hlk.
  rewrite (EditFileContent_replace raw0 _ fs Hj0 Hm0 Hp).
  rewrite (EditFileContent_replace rawk _ fs Hjk Hmk ltac:(congruence)).
  rewrite HP, HO, HN, Hl0, Hlk.
  pose proof (replaceInFile_spec (Path inp0) _ _ 0 fs c k Hne Hon Hc Hk) as [H0 H0'].
  pose proof (replaceInFile_spec (Path inp0) _ _ (Z.of_nat k) fs c k Hne Hon Hc Hk)
    as [H1 H1'].
  cbn [Z.leb Z.compare] in H0, H0'.
  replace (if Z.of_nat k <=? 0 then k else Nat.min (Z.to_nat (Z.of_nat k)) k)
    with k in H1, H1'
    by (destruct (Z.leb_spec (Z.of_nat k) 0); lia).
  destruct k as [|k].
  - now rewrite H0, H1.
  - destruct (H0' ltac:(lia)) as (c0 & Hr0 & ->).
    destruct (H1' ltac:(lia)) as (c1 & Hr1 & ->).
    now rewrite (replaced_fun _ _ _ _ _ _ Hr0 Hr1).
Qed.

End ReplaceMode.

(* ===================================================================== *)
(** * strings.Split and strings.Join on a one-byte separator *)
(* ===================================================================== *)

Lemma Split_absent (s sep : string) :
  sep <> "" -> absent sep s -> strings.Split s sep = [s].
Proof.
  intros Hne Ha. unfold strings.Split.
  now rewrite (Count_spec sep s 0 Hne (occ_none _ _ Ha)).
Qed.

Lemma Split_leftmost (s sep a b : string) :
  sep <> "" -> leftmost sep s a b ->
  strings.Split s sep = a :: strings.Split b sep.
Proof.
  intros Hne Hl. unfold strings.Split.
  destruct (occurrences_total sep b Hne) as [k Hk].
  rewrite (Count_spec sep s (S k) Hne (occ_next _ _ _ _ _ Hl Hk)).
  rewrite (Count_spec sep b k Hne Hk), !Nat2Z.id.
  cbn [strings.split_loop].
  destruct (Index_cases s sep) as [[_ Ha] | [Hi Hl']].
  - destruct (leftmost_not_absent _ _ _ _ Hl Ha).
  - destruct (Z.ltb_spec (strings.Index s sep) 0) as [?|_]; [lia|].
    now destruct (leftmost_unique _ _ _ _ _ _ Hl Hl') as [<- <-].
Qed.

(** The part before the leftmost occurrence holds no occurrence. *)
Lemma leftmost_prefix_absent (sep s a b : string) :
  sep <> "" -> leftmost sep s a b -> absent sep a.
Proof.
  intros Hne [E Hmin] a1 a2 Ea.
  rewrite Ea, !str_app_assoc in E.
  specialize (Hmin _ _ E). rewrite Ea, !str_length_app in Hmin.
  destruct sep; [congruence | simpl in Hmin; lia].
Qed.

Lemma Split_elements_absent (sep : string) (Hne : sep <> "") (s : string) :
  Forall (absent sep) (strings.Split s sep).
Proof.
  destruct (occurrences_total sep s Hne) as [k Hk].
  induction Hk as [s Ha | s a b k Hl _ IH].
  - rewrite (Split_absent _ _ Hne Ha). now constructor.
  - rewrite (Split_leftmost _ _ _ _ Hne Hl). constructor; [|exact IH].
    exact (leftmost_prefix_absent _ _ _ _ Hne Hl).
Qed.

(** Two splittings of one string: the shorter prefix is a prefix of the
    longer one. *)
Lemma str_app_eq_shorter (a t x u : string) :
  a ++ t = x ++ u -> (String.length a < String.length x)%nat ->
  exists c w, x = a ++ String c w /\ t = String c w ++ u.
Proof.
  revert x; induction a as [|c a IH]; intros [|d x]; simpl; intros E L; try lia.
  - exists d, x. now split.
  - injection E as -> E. destruct (IH x E ltac:(lia)) as (c' & w & -> & ->).
    exists c', w. now split.
Qed.

(** For a separator of one byte, a part without it ends at the first one. *)
Lemma leftmost_after_absent (c : ascii) (a b : string) :
  absent (String c "") a -> leftmost (String c "") (a ++ String c "" ++ b) a b.
Proof.
  intros Ha. split; [reflexivity|].
  intros a' b' E.
  destruct (Nat.le_gt_cases (String.length a) (String.length a')) as [?|Hlt]; [assumption|].
  symmetry in E. destruct (str_app_eq_shorter _ _ _ _ E Hlt) as (d & w & Ea & Et).
  simpl in Et. injection Et as <- _. destruct (Ha a' w Ea).
Qed.

Lemma Split_app_sep (c : ascii) (x rest : string) :
  strings.Split (x ++ String c "" ++ rest) (String c "")
  = (strings.Split x (String c "") ++ strings.Split rest (String c ""))%list.
Proof.
  assert (String c "" <> "") as Hne by discriminate.
  destruct (occurrences_total (String c "") x Hne) as [k Hk].
  induction Hk as [x Ha | x a b k Hl _ IH].
  - rewrite (Split_absent _ _ Hne Ha).
    now rewrite (Split_leftmost _ _ _ _ Hne (leftmost_after_absent c x rest Ha)).
  - rewrite (Split_leftmost _ _ _ _ Hne Hl).
    pose proof (leftmost_prefix_absent _ _ _ _ Hne Hl) as Ha.
    destruct Hl as [-> _]. rewrite !str_app_assoc.
    rewrite (Split_leftmost _ _ _ _ Hne
               (leftmost_after_absent c a (b ++ String c "" ++ rest) Ha)).
    now rewrite IH.
Qed.

Lemma Join_cons (x y : string) (l : list string) (sep : string) :
  strings.Join (x :: y :: l) sep = x ++ sep ++ strings.Join (y :: l) sep.
Proof. reflexivity. Qed.

Lemma Join_single (x sep : string) : strings.Join [x] sep = x.
Proof. unfold strings.Join. simpl. apply str_app_nil_r. Qed.

(** Splitting what was joined gives the pieces, each split in turn. *)
Lemma Split_Join (c : ascii) (l : list string) :
  l <> [] ->
  strings.Split (strings.Join l (String c "")) (String c "")
  = List.concat (List.map (fun x => strings.Split x (String c "")) l).
Proof.
  intros Hl. destruct l as [|x l]; [congruence|]. clear Hl.
  revert x; induction l as [|y l IH]; intros x.
  - rewrite Join_single. simpl. now rewrite app_nil_r.
  - rewrite Join_cons, Split_app_sep, IH. reflexivity.
Qed.

Lemma concat_Split_absent (sep : string) (Hne : sep <> "") (l : list string) :
  Forall (absent sep) l ->
  List.concat (List.map (fun x => strings.Split x sep) l) = l.
Proof.
  induction 1 as [|x l Hx _ IH]; [reflexivity|].
  simpl. now rewrite (Split_absent _ _ Hne Hx), IH.
Qed.

Lemma Split_nonempty (s sep : string) : strings.Split s sep <> [].
Proof.
  unfold strings.Split. destruct (Z.to_nat _); cbn [strings.split_loop]; [discriminate|].
  destruct (_ <? 0); discriminate.
Qed.

(* ===================================================================== *)
(** * The insert_at_line, create and regex_replace modes *)
(* ===================================================================== *)

Section OtherModes.
Import os tools FileSpec.

Context (path_Dir : string -> string) {engine : RegexpEngine}
        {RawMessage : Type} (json_Unmarshal : RawMessage -> error + FileEditorInput).

Lemma newline_nonempty : newline <> "".
Proof. discriminate. Qed.

Lemma insertAtLine_spec (p content : string) (L : Z) (fs : FS) (c : string) :
  fs !! p = Some (File c) ->
  1 <= L <= llen (strings.Split c newline) + 1 ->
  insertAtLine path_Dir p content L fs =
    (("Successfully inserted content at line " ++ itoa L ++ " in " ++ p, None),
     <[p := File (strings.Join
                    (take (Z.to_nat (L - 1)) (strings.Split c newline) ++ [content] ++
                     drop (Z.to_nat (L - 1)) (strings.Split c newline))%list newline)]> fs).
Proof.
  intros Hp HL. unfold insertAtLine.
  destruct (Z.ltb_spec L 1) as [?|_]; [lia|].
  rewrite (ensureFileExists_present _ _ _ _ Hp), (ReadFile_file _ _ _ Hp).
  set (lines := strings.Split c newline) in *.
  destruct (Z.ltb_spec (llen lines + 1) L) as [?|_]; [lia|].
  assert ((if L =? 1 then ([content] ++ lines)%list
           else if llen lines <? L then (lines ++ [content])%list
                else (take (Z.to_nat (L - 1)) lines ++ [content] ++
                      drop (Z.to_nat (L - 1)) lines)%list)
          = (take (Z.to_nat (L - 1)) lines ++ [content] ++
             drop (Z.to_nat (L - 1)) lines)%list) as ->.
  { destruct (Z.eqb_spec L 1) as [->|?]; [reflexivity|].
    destruct (Z.ltb_spec (llen lines) L) as [Hlt|?]; [|reflexivity].
    unfold llen in *.
    rewrite firstn_all2, skipn_all2 by lia. reflexivity. }
  now rewrite (WriteFile_file _ _ _ _ Hp).
Qed.

Lemma EditFileContent_insert (raw : RawMessage) (inp : FileEditorInput) (fs : FS) :
  json_Unmarshal raw = inr inp -> Mode inp = "insert_at_line" -> Path inp <> "" ->
  EditFileContent path_Dir RawMessage json_Unmarshal raw fs =
  insertAtLine path_Dir (Path inp) (Content inp) (LineNumber inp) fs.
Proof.
  intros Hj Hm Hp. unfold EditFileContent.
  now rewrite Hj, (str_eqb_false _ _ Hp), Hm.
Qed.

(** C7 (as amended). On a file with content [c], insert_at_line at a
    line number [L] with [1 <= L <= lineCount + 1] succeeds, and the
    lines of the new file are the first [L-1] lines, then the lines of
    the inserted content, then the remaining lines: the original line
    [L] moves down by the number of lines of the content, which is one
    line (to index [L+1]) when the content has no newline.  For [L < 1]
    and [L > lineCount + 1] the call fails and the file system is as it
    was. *)
Theorem insert_at_line_correct (raw : RawMessage) (inp : FileEditorInput)
    (fs : FS) (c : string) :
  json_Unmarshal raw = inr inp -> Mode inp = "insert_at_line" -> Path inp <> "" ->
  fs !! Path inp = Some (File c) ->
  (1 <= LineNumber inp <= llen (strings.Split c newline) + 1 ->
   exists c',
     EditFileContent path_Dir RawMessage json_Unmarshal raw fs
     = (("Successfully inserted content at line " ++ itoa (LineNumber inp) ++
         " in " ++ Path inp, None),
        <[Path inp := File c']> fs) /\
     strings.Split c' newline
     = (take (Z.to_nat (LineNumber inp - 1)) (strings.Split c newline) ++
        strings.Split (Content inp) newline ++
        drop (Z.to_nat (LineNumber inp - 1)) (strings.Split c newline))%list /\
     (absent newline (Content inp) ->
      forall j : nat,
        (Z.to_nat (LineNumber inp - 1) <= j)%nat ->
        strings.Split c' newline !! S j = strings.Split c newline !! j)) /\
  (LineNumber inp < 1 \/ llen (strings.Split c newline) + 1 < LineNumber inp ->
   exists e,
     EditFileContent path_Dir RawMessage json_Unmarshal raw fs = (("", Some e), fs)).
Proof.
  intros Hj Hm Hp Hc. rewrite (EditFileContent_insert _ _ _ Hj Hm Hp).
  set (lines := strings.Split c newline). split.
  - intros HL. rewrite (insertAtLine_spec _ _ _ _ _ Hc HL). fold lines.
    eexists. split; [reflexivity|].
    assert (strings.Split
              (strings.Join (take (Z.to_nat (LineNumber inp - 1)) lines ++
                             [Content inp] ++
                             drop (Z.to_nat (LineNumber inp - 1)) lines)%list newline)
              newline
            = (take (Z.to_nat (LineNumber inp - 1)) lines ++
               strings.Split (Content inp) newline ++
               drop (Z.to_nat (LineNumber inp - 1)) lines)%list) as HS.
    { unfold newline. rewrite Split_Join by (now destruct (take _ lines)).
      rewrite !List.map_app, !List.concat_app. fold newline.
      pose proof (Split_elements_absent newline newline_nonempty c) as Hall.
      fold lines in Hall.
      rewrite (concat_Split_absent newline newline_nonempty (take _ lines))
        by (now apply Forall_take).
      rewrite (concat_Split_absent newline newline_nonempty (drop _ lines))
        by (now apply Forall_drop).
      simpl. now rewrite app_nil_r. }
    split; [exact HS|].
    intros Habs j Hj'. rewrite HS, (Split_absent _ _ newline_nonempty Habs).
    assert (length (take (Z.to_nat (LineNumber inp - 1)) lines)
            = Z.to_nat (LineNumber inp - 1)) as Hlen
      by (rewrite length_take; unfold llen in HL; fold lines in HL; lia).
    rewrite lookup_app_r by lia.
    rewrite Hlen.
    replace (S j - Z.to_nat (LineNumber inp - 1))%nat
      with (S (j - Z.to_nat (LineNumber inp - 1)))%nat by lia.
    simpl. rewrite lookup_drop. f_equal. lia.
  - intros HL. unfold insertAtLine.
    destruct (Z.ltb_spec (LineNumber inp) 1) as [?|Hge]; [eauto|].
    rewrite (ensureFileExists_present _ _ _ _ Hc), (ReadFile_file _ _ _ Hc).
    fold lines.
    destruct (Z.ltb_spec (llen lines + 1) (LineNumber inp)) as [?|?]; [eauto | lia].
Qed.

(** C8 (as amended). On an existing file with content [c], a create
    call with non-empty content returns the "already exists" notice and
    no error; with empty content it returns an error.  In both cases the
    file system, and so the file, is left as it was. *)
Theorem create_never_overwrites (raw : RawMessage) (inp : FileEditorInput)
    (fs : FS) (c : string) :
  json_Unmarshal raw = inr inp -> Mode inp = "create" -> Path inp <> "" ->
  fs !! Path inp = Some (File c) ->
  (Content inp <> "" ->
   EditFileContent path_Dir RawMessage json_Unmarshal raw fs
   = (("File " ++ Path inp ++
       " already exists. Use append, prepend, or replace modes to modify it.", None),
      fs)) /\
  (Content inp = "" ->
   EditFileContent path_Dir RawMessage json_Unmarshal raw fs
   = (("", Some (errorString "cannot create an empty file, content is required")), fs)).
Proof.
  intros Hj Hm Hp Hc. unfold EditFileContent.
  rewrite Hj, (str_eqb_false _ _ Hp), Hm. cbn [String.eqb Ascii.eqb Bool.eqb].
  split.
  - intros Hne. rewrite (str_eqb_false _ _ Hne). unfold createFile, Stat. now rewrite Hc.
  - intros ->. reflexivity.
Qed.

Lemma ensureFileExists_missing (p : string) (fs : FS) :
  fs !! p = None ->
  (path_Dir p = "." \/
   (path_Dir p <> p /\ forall c, fs !! path_Dir p <> Some (File c))) ->
  exists fs',
    ensureFileExists path_Dir p fs = (None, fs') /\
    created_empty (path_Dir p) p fs fs'.
Proof.
  intros Hp Hd. unfold ensureFileExists, Stat. rewrite Hp. cbn [IsNotExist].
  destruct (String.eqb_spec (path_Dir p) ".") as [E|Hnd]; cbn [negb].
  - unfold WriteFile. rewrite Hp. eexists. split; [reflexivity|].
    split; [apply lookup_insert_eq|]. split; [congruence|].
    intros q Hq _. now rewrite lookup_insert_ne.
  - destruct Hd as [?|[Hneq Hnf]]; [congruence|].
    unfold MkdirAll.
    destruct (fs !! path_Dir p) as [[c|]|] eqn:Hdir.
    + destruct (Hnf c eq_refl).
    + unfold WriteFile. rewrite Hp. eexists. split; [reflexivity|].
      split; [apply lookup_insert_eq|]. split.
      * intros _. now rewrite lookup_insert_ne.
      * intros q Hq _. now rewrite lookup_insert_ne.
    + unfold WriteFile. rewrite lookup_insert_ne, Hp by assumption.
      eexists. split; [reflexivity|].
      split; [apply lookup_insert_eq|]. split.
      * intros _. rewrite lookup_insert_ne by congruence. apply lookup_insert_eq.
      * intros q Hq Hq'. now rewrite !lookup_insert_ne.
Qed.

Lemma absent_in_empty (sub : string) : sub <> "" -> absent sub "".
Proof.
  intros Hne a b E. destruct a; [|discriminate]. destruct sub; [congruence | discriminate].
Qed.


End OtherModes.

(* ===================================================================== *)
(** * processToolUsages: one tool use, then a whole response *)
(* ===================================================================== *)

Section ProcessToolUsages.
Import agent AgentSpec.

Context {W RawMessage : Type}.
Variable a_tools : list (ToolDefinition W RawMessage).
Variable clock : nat -> Z.
Variable rate_error : Z -> Z -> error.

Lemma same_limits_refl (lp : LoopProtection) : same_limits lp lp.
Proof. repeat split. Qed.

Lemma same_limits_trans (a b c : LoopProtection) :
  same_limits a b -> same_limits b c -> same_limits a c.
Proof. unfold same_limits. intuition congruence. Qed.

Lemma executeTool_spec (id name : string) (input : RawMessage) (st : State W RawMessage) :
  forall result st',
    executeTool a_tools id name input st = (result, st') ->
    result_id result = Some id /\
    conversation st' = conversation st /\
    loopProtection st' = loopProtection st /\
    exists ev, trace st' = (trace st ++ [ev])%list /\
               (ev = EvCall id name \/ ev = EvNotFound id name).
Proof.
  intros result st'. unfold executeTool.
  destruct (findTool a_tools name) as [toolDef|].
  - cbn. destruct (Function toolDef input (world st)) as [[response [e|]] w];
      intros [= <- <-]; cbn; eauto 10.
  - intros [= <- <-]; cbn; eauto 10.
Qed.

(** One tool use: the consecutive-use counter goes up by one whatever
    happens; the call either is denied, with nothing run and nothing
    recorded besides the denial, or goes to [executeTool], which gives one
    result carrying the invocation id. *)
Lemma process_tool_use_spec (id name : string) (input : RawMessage)
    (toolResults : list (ContentBlockParam RawMessage)) (st : State W RawMessage) :
  forall r st',
    process_tool_use a_tools clock rate_error id name input toolResults st = (r, st') ->
    conversation st' = conversation st /\
    same_limits (loopProtection st) (loopProtection st') /\
    ConsecutiveToolUses (loopProtection st') = ConsecutiveToolUses (loopProtection st) + 1 /\
    ((exists err,
        r = inl (true, err) /\
        world st' = world st /\
        trace st' = (trace st ++ [EvToolUse id name; EvDenied err])%list /\
        (MaxConsecutiveToolUses (loopProtection st)
           < ConsecutiveToolUses (loopProtection st) + 1 ->
         err = consecutive_error (ConsecutiveToolUses (loopProtection st) + 1)))
     \/
     (ConsecutiveToolUses (loopProtection st) + 1
        <= MaxConsecutiveToolUses (loopProtection st) /\
      exists result ev,
        r = inr (toolResults ++ [result])%list /\
        result_id result = Some id /\
        trace st' = (trace st ++ [EvToolUse id name; ev])%list /\
        (ev = EvCall id name \/ ev = EvNotFound id name))).
Proof.
  intros r st'. unfold process_tool_use. cbn.
  destruct (Z.ltb_spec (MaxConsecutiveToolUses (loopProtection st))
                       (ConsecutiveToolUses (loopProtection st) + 1)) as [Hc|Hc].
  { intros [= <- <-]. cbn. rewrite <- app_assoc. cbn.
    repeat split; try reflexivity. left. eexists. repeat split; eauto. }
  destruct (_ && _).
  { intros [= <- <-]. cbn. rewrite <- app_assoc. cbn.
    repeat split; try reflexivity. left. eexists. repeat split; eauto. lia. }
  destruct (Minute <? _); cbn;
    destruct (String.eqb _ name); cbn;
    try destruct (_ <=? _); cbn;
    try (intros [= <- <-]; cbn; rewrite <- app_assoc; cbn;
         repeat split; try reflexivity; left; eexists;
         repeat split; eauto; lia);
    (destruct (executeTool _ _ _ _ _) as [result st2] eqn:He;
     intros [= <- <-];
     apply executeTool_spec in He as (Hid & Hconv & Hlp & ev & Htr & Hev);
     cbn in *; rewrite Hconv, Hlp, Htr; cbn; rewrite <- app_assoc; cbn;
     repeat split; try reflexivity; right; split; [lia|]; eauto 10).
Qed.

(** A whole response.  [B] is what the loop adds to the trace. *)
Lemma process_blocks_spec (blocks : list (ContentBlock RawMessage)) :
  forall toolResults hasToolUses (st : State W RawMessage) r st',
    process_blocks a_tools clock rate_error blocks toolResults hasToolUses st = (r, st') ->
    conversation st' = conversation st /\
    same_limits (loopProtection st) (loopProtection st') /\
    exists B,
      trace st' = (trace st ++ B)%list /\
      forallb block_event B = true /\
      (forall n, List.fold_left count_attempt B n
                 = n + (ConsecutiveToolUses (loopProtection st')
                        - ConsecutiveToolUses (loopProtection st))) /\
      match r with
      | inr (toolResults', hasToolUses') =>
          List.map result_id toolResults'
          = (List.map result_id toolResults ++ List.map Some (invocation_ids blocks))%list /\
          hasToolUses' = hasToolUses || negb (forallb (fun _ => false) (invocation_ids blocks)) /\
          mon_run (MaxConsecutiveToolUses (loopProtection st)) B
            (Idle (ConsecutiveToolUses (loopProtection st)))
          = Idle (ConsecutiveToolUses (loopProtection st'))
      | inl (readNext, err) =>
          readNext = true /\
          mon_run (MaxConsecutiveToolUses (loopProtection st)) B
            (Idle (ConsecutiveToolUses (loopProtection st)))
          = (if MaxConsecutiveToolUses (loopProtection st)
                <? ConsecutiveToolUses (loopProtection st')
             then Denied (ConsecutiveToolUses (loopProtection st'))
             else Idle (ConsecutiveToolUses (loopProtection st'))) /\
          (MaxConsecutiveToolUses (loopProtection st)
             < ConsecutiveToolUses (loopProtection st') ->
           err = consecutive_error (ConsecutiveToolUses (loopProtection st')))
      end.
Proof.
  induction blocks as [|b blocks IH]; intros toolResults hasToolUses st r st'.
  - cbn. intros [= <- <-]. split; [reflexivity|]. split; [apply same_limits_refl|].
    exists []. rewrite app_nil_r. cbn. repeat split; try reflexivity.
    + intros n. lia.
    + now rewrite app_nil_r.
    + now rewrite orb_false_r.
  - destruct b as [text | id name input | ty]; cbn [process_blocks].
    + intros H. apply IH in H as (Hconv & Hlim & B & Htr & Hev & Hcnt & Hr).
      cbn in *. split; [exact Hconv|]. split; [exact Hlim|].
      exists (EvText text :: B). rewrite Htr, <- app_assoc. cbn.
      repeat split; try assumption.
    + destruct (process_tool_use _ _ _ _ _ _ _ _) as [[ret|results1] st1] eqn:Hp.
      * intros [= <- <-].
        apply process_tool_use_spec in Hp as (Hconv & Hlim & Hc & Hcase).
        destruct Hcase as [(err & [= ->] & _ & Htr & Herr) | (_ & result & ev & [=] & _)].
        split; [exact Hconv|]. split; [exact Hlim|].
        exists [EvToolUse id name; EvDenied err]. split; [exact Htr|].
        split; [reflexivity|]. split; [intros n; cbn; lia|].
        split; [reflexivity|]. rewrite Hc. cbn.
        destruct (Z.ltb_spec (MaxConsecutiveToolUses (loopProtection st))
                             (ConsecutiveToolUses (loopProtection st) + 1)) as [Hlt|Hge].
        -- rewrite (Herr Hlt). cbn. rewrite decide_True by reflexivity. now split.
        -- split; [reflexivity | lia].
      * intros H.
        apply process_tool_use_spec in Hp as (Hconv1 & Hlim1 & Hc1 & Hcase).
        destruct Hcase as [(err & [=] & _) | (Hle & result & ev & [= ->] & Hid & Htr1 & Hev1)].
        apply IH in H as (Hconv & Hlim & B & Htr & Hev & Hcnt & Hr).
        split; [congruence|]. split; [eapply same_limits_trans; eassumption|].
        exists (EvToolUse id name :: ev :: B).
        rewrite Htr, Htr1, <- app_assoc. cbn [app].
        split; [reflexivity|].
        split; [cbn; rewrite Hev; now destruct Hev1 as [-> | ->]|].
        split.
        { intros n. cbn [List.fold_left count_attempt].
          replace (count_attempt (n + 1) ev) with (n + 1)
            by (now destruct Hev1 as [-> | ->]).
          rewrite Hcnt. lia. }
        assert (mon_run (MaxConsecutiveToolUses (loopProtection st))
                  (EvToolUse id name :: ev :: B)
                  (Idle (ConsecutiveToolUses (loopProtection st)))
                = mon_run (MaxConsecutiveToolUses (loopProtection st1)) B
                    (Idle (ConsecutiveToolUses (loopProtection st1)))) as Hmon.
        { destruct Hlim1 as (-> & _). rewrite Hc1. unfold mon_run. cbn.
          destruct (Z.ltb_spec (MaxConsecutiveToolUses (loopProtection st))
                               (ConsecutiveToolUses (loopProtection st) + 1)); [lia|].
          now destruct Hev1 as [-> | ->]. }
        rewrite Hmon.
        destruct Hlim1 as (HL & _). rewrite HL in *.
        destruct r as [[readNext err]|[results' has']].
        -- exact Hr.
        -- destruct Hr as (Hids & Hhas & Hm). repeat split; try assumption.
           ++ rewrite Hids, List.map_app, <- app_assoc. cbn. now rewrite Hid.
           ++ rewrite Hhas. cbn. now rewrite orb_true_r.
    + intros H. apply IH in H as (Hconv & Hlim & B & Htr & Hev & Hcnt & Hr). eauto 10.
Qed.

(** C4 (as amended). After [processToolUsages] has gone through a
    response: if a violation stopped it, it returns the error and asks for
    user input next, and nothing is appended to the conversation; if not,
    and the response has tool invocations, exactly one turn is appended,
    holding one tool-result block per invocation id, in the order of the
    invocations; a response without invocations appends nothing. *)
Theorem tool_results_one_turn (message : Message RawMessage) (st : State W RawMessage) :
  let '((readNext, err), st') := processToolUsages a_tools clock rate_error message st in
  match err with
  | Some _ => readNext = true /\ conversation st' = conversation st
  | None =>
      match invocation_ids (Content message) with
      | [] => readNext = true /\ conversation st' = conversation st
      | _ :: _ =>
          readNext = false /\
          results_appended (Content message) (conversation st) (conversation st')
      end
  end.
Proof.
  unfold processToolUsages.
  destruct (process_blocks _ _ _ _ _ _ _) as [[[readNext err]|[results has]] st1] eqn:Hp;
    apply process_blocks_spec in Hp as (Hconv & _ & B & _ & _ & _ & Hr).
  - destruct Hr as (-> & _). now split.
  - destruct Hr as (Hids & -> & _). cbn in Hids |- *.
    remember (invocation_ids (Content message)) as l eqn:El.
    destruct l as [|i ids]; cbn.
    + now split.
    + split; [reflexivity|]. exists results. rewrite Hconv, <- El. now split.
Qed.

(** C5 (as amended). When a tool use gets as far as the same-tool check:
    a name different from the previous one sets the streak to 1 and is
    never denied by this check; an immediate repeat adds 1 to the streak
    and is denied exactly when the streak is then at or above the
    maximum.  So, for a maximum of at least 2 and a streak below it, the
    denial fires exactly when the streak reaches the maximum. *)
Theorem same_tool_streak (id name : string) (input : RawMessage)
    (toolResults : list (ContentBlockParam RawMessage)) (st : State W RawMessage) :
  reaches_same_tool_check (loopProtection st) (clock (ticks st)) = true ->
  let '(r, st') := process_tool_use a_tools clock rate_error id name input toolResults st in
  LastToolName (loopProtection st') = name /\
  (name <> LastToolName (loopProtection st) ->
   SameToolCallCount (loopProtection st') = 1 /\ exists results, r = inr results) /\
  (name = LastToolName (loopProtection st) ->
   SameToolCallCount (loopProtection st') = SameToolCallCount (loopProtection st) + 1 /\
   (MaxSameToolCalls (loopProtection st) <= SameToolCallCount (loopProtection st) + 1 ->
    r = inl (true, same_tool_error name (SameToolCallCount (loopProtection st) + 1))) /\
   (SameToolCallCount (loopProtection st) + 1 < MaxSameToolCalls (loopProtection st) ->
    exists results, r = inr results)) /\
  (2 <= MaxSameToolCalls (loopProtection st) ->
   SameToolCallCount (loopProtection st) < MaxSameToolCalls (loopProtection st) ->
   ((exists err, r = inl (true, err)) <->
    SameToolCallCount (loopProtection st') = MaxSameToolCalls (loopProtection st))).
Proof.
  unfold reaches_same_tool_check, process_tool_use. cbn.
  intros [Hc Hrate]%andb_true_iff.
  apply negb_true_iff in Hc. apply negb_true_iff in Hrate.
  rewrite Hc, Hrate.
  destruct (Minute <? _); cbn;
    (destruct (String.eqb_spec (LastToolName (loopProtection st)) name) as [Hn|Hn]; cbn;
     [ destruct (Z.leb_spec (MaxSameToolCalls (loopProtection st))
                            (SameToolCallCount (loopProtection st) + 1)) as [Hm|Hm]; cbn
     | ]);
    try (destruct (executeTool _ _ _ _ _) as [result st2] eqn:He;
         apply executeTool_spec in He as (_ & _ & Hlp & _); rewrite Hlp; cbn);
    streak_case.
Qed.

End ProcessToolUsages.

(* ===================================================================== *)
(** * Traces: the counters and the monitor over an appended batch *)
(* ===================================================================== *)

Section Traces.
Import agent AgentSpec.

Lemma attempts_app (t b : list Event) :
  attempts_since_reset (t ++ b) = List.fold_left count_attempt b (attempts_since_reset t).
Proof. unfold attempts_since_reset. apply fold_left_app. Qed.

Lemma has_reset_app (t b : list Event) :
  has_reset (t ++ b) = has_reset t || has_reset b.
Proof. unfold has_reset. apply existsb_app. Qed.

Lemma mon_run_app (L : Z) (t b : list Event) (m : Monitor) :
  mon_run L (t ++ b) m = mon_run L b (mon_run L t m).
Proof. unfold mon_run. apply fold_left_app. Qed.

Lemma mon_run_Bad (L : Z) (t : list Event) : mon_run L t Bad = Bad.
Proof. induction t as [|e t IH]; [reflexivity | exact IH]. Qed.

(** A trace with its resets and reads in pairs can be continued by any
    other one. *)
Lemma reset_per_read_app (t b : list Event) :
  reset_per_read t = true -> reset_per_read (t ++ b) = reset_per_read b.
Proof.
  remember (List.length t) as n eqn:Hn. revert t Hn.
  induction n as [n IH] using lt_wf_ind. intros t Hn Ht.
  destruct t as [|e t]; [reflexivity|].
  destruct e; cbn in Ht |- *;
    try (apply (IH (List.length t)); [subst; cbn; lia | reflexivity | exact Ht]);
    try discriminate.
  destruct t as [|e' t]; [discriminate|].
  destruct e'; try discriminate. cbn.
  apply (IH (List.length t)); [subst; cbn; lia | reflexivity | exact Ht].
Qed.

Lemma block_events_no_reset (B : list Event) :
  forallb block_event B = true -> has_reset B = false /\ reset_per_read B = true.
Proof.
  induction B as [|e B IH]; [now split|].
  cbn. intros [He HB]%andb_true_iff. destruct (IH HB) as [H1 H2].
  destruct e; try discriminate; cbn; now split.
Qed.

(** The monitor carries the number of attempts since the last reset. *)
Lemma monitor_count_run (L : Z) (t : list Event) :
  forall m0 n0,
    monitor_count m0 = Some n0 ->
    mon_run L t m0 <> Bad ->
    monitor_count (mon_run L t m0) = Some (List.fold_left count_attempt t n0).
Proof.
  induction t as [|e t IH]; intros m0 n0 Hm0 Hok; [exact Hm0|].
  cbn in Hok |- *. unfold mon_run in *. cbn in Hok |- *.
  apply IH; [|exact Hok].
  destruct (mon_step L m0 e) eqn:Hstep;
    try (exfalso; apply Hok; apply (mon_run_Bad L t));
    destruct m0; cbn in Hm0, Hstep; try discriminate;
    injection Hm0 as ->;
    destruct e; cbn in Hstep |- *;
    repeat match type of Hstep with
           | context [if ?c then _ else _] => destruct c
           end;
    try discriminate; injection Hstep as <-; reflexivity.
Qed.

Lemma accepting_not_Bad (m : Monitor) : accepting m -> m <> Bad.
Proof. now destruct m. Qed.

(** In a trace the monitor accepts, an attempt made when the attempts
    since the last reset are at the limit or beyond is followed by its
    denial and by the error handling of [Run], after which the trace
    ends or goes on with a reset or the end of the session. *)
Lemma accepted_attempt_over_limit (L : Z) (pre post : list Event) (id name : string) :
  accepting (mon_run L (pre ++ EvToolUse id name :: post) (Await 0)) ->
  L <= attempts_since_reset pre ->
  exists post',
    post = EvDenied (consecutive_error (attempts_since_reset pre + 1)) ::
           EvProcessError (consecutive_error (attempts_since_reset pre + 1)) :: post' /\
    awaits_user_input post' /\
    (post' = [] ->
     mon_run L (pre ++ EvToolUse id name :: post) (Await 0)
     = Await (attempts_since_reset pre + 1)).
Proof.
  intros Hacc HL. rewrite mon_run_app in *.
  assert (mon_run L pre (Await 0) <> Bad) as Hpre.
  { intros E. rewrite E in Hacc. unfold mon_run in Hacc. cbn in Hacc.
    fold (mon_run L post Bad) in Hacc. now rewrite mon_run_Bad in Hacc. }
  pose proof (monitor_count_run L pre (Await 0) 0 eq_refl Hpre) as Hcnt.
  fold (attempts_since_reset pre) in Hcnt.
  set (n := attempts_since_reset pre) in *.
  unfold mon_run in Hacc |- *. cbn [List.fold_left] in Hacc |- *.
  fold (mon_run L pre (Await 0)) in Hacc |- *.
  destruct (mon_run L pre (Await 0)) as [k|k|k|k|k|]; cbn in Hcnt; try congruence;
    injection Hcnt as ->; cbn [mon_step] in Hacc |- *;
    try (fold (mon_run L post Bad) in Hacc; now rewrite mon_run_Bad in Hacc).
  destruct (Z.ltb_spec L (n + 1)) as [_|?]; [|lia].
  destruct post as [|e1 post]; [destruct Hacc|].
  cbn [List.fold_left mon_step] in Hacc |- *.
  destruct e1; try (fold (mon_run L post Bad) in Hacc; now rewrite mon_run_Bad in Hacc).
  destruct (decide (err = consecutive_error (n + 1))) as [->|_];
    [| fold (mon_run L post Bad) in Hacc; now rewrite mon_run_Bad in Hacc].
  destruct post as [|e2 post]; [destruct Hacc|].
  cbn [List.fold_left mon_step] in Hacc |- *.
  destruct e2; try (fold (mon_run L post Bad) in Hacc; now rewrite mon_run_Bad in Hacc).
  destruct (decide (err = consecutive_error (n + 1))) as [->|_];
    [| fold (mon_run L post Bad) in Hacc; now rewrite mon_run_Bad in Hacc].
  exists post. split; [reflexivity|]. split.
  - destruct post as [|e3 post]; [exact I|].
    cbn [List.fold_left mon_step] in Hacc. cbn.
    destruct e3; try (fold (mon_run L post Bad) in Hacc; now rewrite mon_run_Bad in Hacc);
      auto.
  - intros ->. reflexivity.
Qed.

End Traces.

(* ===================================================================== *)
(** * The loop of Run keeps its invariant *)
(* ===================================================================== *)

Section RunInvariant.
Import agent AgentSpec.

Context {W RawMessage : Type}.
Variable a_tools : list (ToolDefinition W RawMessage).
Variable getUserMessage : nat -> string * bool.
Variable client_Messages_New : nat -> list (MessageParam RawMessage) -> error + Message RawMessage.
Variable clock : nat -> Z.
Variable rate_error : Z -> Z -> error.

Lemma processToolUsages_spec (message : Message RawMessage) (st : State W RawMessage) :
  forall readNext err st',
    processToolUsages a_tools clock rate_error message st = ((readNext, err), st') ->
    same_limits (loopProtection st) (loopProtection st') /\
    exists B,
      trace st' = (trace st ++ B)%list /\
      forallb block_event B = true /\
      (forall n, List.fold_left count_attempt B n
                 = n + (ConsecutiveToolUses (loopProtection st')
                        - ConsecutiveToolUses (loopProtection st))) /\
      match err with
      | None =>
          mon_run (MaxConsecutiveToolUses (loopProtection st)) B
            (Idle (ConsecutiveToolUses (loopProtection st)))
          = Idle (ConsecutiveToolUses (loopProtection st'))
      | Some e =>
          mon_run (MaxConsecutiveToolUses (loopProtection st)) B
            (Idle (ConsecutiveToolUses (loopProtection st)))
          = (if MaxConsecutiveToolUses (loopProtection st)
                <? ConsecutiveToolUses (loopProtection st')
             then Denied (ConsecutiveToolUses (loopProtection st'))
             else Idle (ConsecutiveToolUses (loopProtection st'))) /\
          (MaxConsecutiveToolUses (loopProtection st)
             < ConsecutiveToolUses (loopProtection st') ->
           e = consecutive_error (ConsecutiveToolUses (loopProtection st')))
      end.
Proof.
  intros readNext err st'. unfold processToolUsages.
  destruct (process_blocks _ _ _ _ _ _ _) as [[[b e]|[results has]] st1] eqn:Hp;
    apply process_blocks_spec in Hp as (_ & Hlim & B & Htr & Hev & Hcnt & Hr).
  - intros [= <- <- <-]. split; [exact Hlim|]. exists B.
    destruct Hr as (_ & Hm & He). auto.
  - destruct Hr as (_ & _ & Hm).
    destruct (negb has); intros [= <- <- <-]; (split; [exact Hlim|]); exists B; auto.
Qed.

Lemma attempts_snoc (t : list Event) (e : Event) :
  attempts_since_reset (t ++ [e]) = count_attempt (attempts_since_reset t) e.
Proof. now rewrite attempts_app. Qed.

Lemma has_reset_snoc (t : list Event) (e : Event) :
  has_reset (t ++ [e]) = has_reset t || is_reset e.
Proof. rewrite has_reset_app. unfold has_reset at 2. cbn. now rewrite orb_false_r. Qed.

Lemma mon_run_snoc (L : Z) (t : list Event) (e : Event) (m : Monitor) :
  mon_run L (t ++ [e]) m = mon_step L (mon_run L t m) e.
Proof. now rewrite mon_run_app. Qed.

Lemma reset_per_read_snoc (t : list Event) (e : Event) :
  reset_per_read t = true -> reset_per_read [e] = true ->
  reset_per_read (t ++ [e]) = true.
Proof. intros Ht He. now rewrite (reset_per_read_app _ _ Ht). Qed.

Lemma reset_per_read_reset (t : list Event) (ok : bool) :
  reset_per_read t = true ->
  reset_per_read ((t ++ [EvReset]) ++ [EvUserInput ok]) = true.
Proof. intros Ht. now rewrite <- app_assoc, (reset_per_read_app _ _ Ht). Qed.

#[local] Arguments attempts_since_reset : simpl never.
#[local] Arguments has_reset : simpl never.
#[local] Arguments reset_per_read : simpl never.
#[local] Arguments mon_run : simpl never.

Lemma in_round_invariant (L : Z) (status : Status) (st : State W RawMessage) :
  in_round L st -> run_invariant L status st.
Proof.
  intros (HL & Hc & Hr & Hp & Hm). unfold run_invariant. rewrite Hm. auto.
Qed.

Lemma in_round_same (L : Z) (st st' : State W RawMessage) :
  trace st' = trace st -> loopProtection st' = loopProtection st ->
  in_round L st -> in_round L st'.
Proof. unfold in_round. now intros -> ->. Qed.

(** An event that is neither a reset, a read of user input, an attempt
    nor the end of the session leaves a round as it is. *)
Lemma in_round_emit (L : Z) (e : Event) (st : State W RawMessage) :
  count_attempt 0 e = 0 -> is_reset e = false -> reset_per_read [e] = true ->
  (forall n, mon_step L (Idle n) e = Idle n) ->
  in_round L st -> in_round L (emit e st).
Proof.
  intros He1 He2 He3 He4 (HL & Hc & Hr & Hp & Hm). unfold in_round. cbn.
  rewrite attempts_snoc, has_reset_snoc, mon_run_snoc, Hm, He4, Hr, He2.
  rewrite (reset_per_read_snoc _ _ Hp He3).
  repeat split; try assumption.
  rewrite Hc. destruct e; cbn in He1 |- *; try reflexivity; try discriminate; lia.
Qed.

(** The first part of a round, up to the read of user input. *)
Lemma round_start (L : Z) (readUserInput : bool) (st : State W RawMessage) :
  run_invariant L (Running readUserInput) st ->
  forall ok st1,
    (if readUserInput then
       readUserInputToConversation getUserMessage
         (emit EvReset
            (set_loopProtection
               (set_SameToolCallCount 0
                  (set_LastToolName "" (set_ConsecutiveToolUses 0 (loopProtection st))))
               st))
     else (true, st)) = (ok, st1) ->
    in_round L st1.
Proof.
  intros (HL & Hcnt & Hrpr & Hmon) ok st1.
  destruct readUserInput.
  - unfold readUserInputToConversation, read_line. cbn.
    destruct (getUserMessage (inputs st)) as [userInput ok'].
    assert (forall st2 : State W RawMessage,
              trace st2 = ((trace st ++ [EvReset]) ++ [EvUserInput ok'])%list ->
              loopProtection st2
              = set_SameToolCallCount 0
                  (set_LastToolName "" (set_ConsecutiveToolUses 0 (loopProtection st))) ->
              in_round L st2) as Hin.
    { intros st2 Htr Hlp. unfold in_round. rewrite Htr, Hlp. cbn.
      rewrite !attempts_snoc, !has_reset_snoc, !mon_run_snoc.
      rewrite (reset_per_read_reset _ _ Hrpr). cbn.
      rewrite orb_true_r. repeat split; try assumption.
      destruct (mon_run L (trace st) (Await 0)); cbn;
        first [contradiction | discriminate | reflexivity]. }
    destruct (negb ok'); intros [= <- <-]; apply Hin; reflexivity.
  - intros [= <- <-].
    destruct (mon_run L (trace st) (Await 0)) eqn:Hm; try contradiction; try discriminate.
    destruct Hmon as [-> Hr]. unfold in_round. rewrite Hm. auto.
Qed.

(** One round keeps the invariant. *)
Lemma Run_round_invariant (L : Z) (readUserInput : bool) (st : State W RawMessage) :
  forall step st',
    Run_round a_tools getUserMessage client_Messages_New clock rate_error readUserInput st
      = (step, st') ->
    run_invariant L (Running readUserInput) st ->
    run_invariant L (status_of step) st'.
Proof.
  intros step st' Hrun Hinv.
  unfold Run_round in Hrun.
  destruct (time_Now clock st) as [now st0] eqn:Ht.
  assert (run_invariant L (Running readUserInput) st0) as Hinv0.
  { unfold time_Now in Ht. injection Ht as _ <-. exact Hinv. }
  clear Hinv Ht. destruct Hinv0 as (HL & Hcnt & Hrpr & Hmon).
  destruct (_ <? _) in Hrun.
  { (* the session limit *)
    injection Hrun as <- <-. unfold run_invariant. cbn.
    rewrite attempts_snoc, has_reset_snoc, mon_run_snoc, orb_false_r.
    rewrite (reset_per_read_snoc _ EvSessionLimit Hrpr eq_refl). cbn.
    split; [assumption|]. split; [assumption|]. split; [reflexivity|].
    destruct (mon_run L (trace st0) (Await 0)); cbn;
      first [contradiction | discriminate | reflexivity]. }
  destruct (if readUserInput then _ else _) as [ok st1] eqn:Hstart.
  apply (round_start L readUserInput st0 (conj HL (conj Hcnt (conj Hrpr Hmon)))) in Hstart.
  destruct ok; cbn [negb] in Hrun.
  2:{ injection Hrun as <- <-. now apply in_round_invariant. }
  destruct (generateResponse client_Messages_New st1) as [resp st2] eqn:Hgen.
  assert (in_round L st2) as Hin2.
  { unfold generateResponse in Hgen. injection Hgen as _ <-.
    apply in_round_emit; try reflexivity.
    revert Hstart. apply in_round_same; reflexivity. }
  destruct resp as [err|message].
  { injection Hrun as <- <-. now apply in_round_invariant. }
  destruct (processToolUsages _ _ _ _ _) as [[readNext err] st3] eqn:Hp.
  apply processToolUsages_spec in Hp as ((HL3 & _) & B & Htr & Hev & Hfold & Hres).
  cbn [set_conversation loopProtection trace] in *.
  destruct Hin2 as (HL2 & Hc2 & Hr2 & Hp2 & Hm2).
  destruct (block_events_no_reset B Hev) as [HBr HBp].
  rewrite HL2 in *.
  assert (ConsecutiveToolUses (loopProtection st3) = attempts_since_reset (trace st3)) as Hc3.
  { rewrite Htr, attempts_app, Hfold, <- Hc2. lia. }
  assert (has_reset (trace st3) = true) as Hr3
    by (now rewrite Htr, has_reset_app, Hr2).
  assert (reset_per_read (trace st3) = true) as Hp3
    by (now rewrite Htr, (reset_per_read_app _ _ Hp2)).
  destruct err as [e|].
  - injection Hrun as <- <-. destruct Hres as [Hm3 He].
    unfold run_invariant. cbn [emit loopProtection trace status_of].
    rewrite attempts_snoc, has_reset_snoc, mon_run_snoc, orb_false_r.
    rewrite (reset_per_read_snoc _ (EvProcessError e) Hp3 eq_refl).
    rewrite Htr at 3. rewrite mon_run_app, Hm2, Hm3. cbn [count_attempt].
    split; [congruence|]. split; [auto|]. split; [reflexivity|].
    destruct (Z.ltb_spec L (ConsecutiveToolUses (loopProtection st3))) as [Hlt|Hge]; cbn.
    + rewrite (He Hlt), decide_True by reflexivity. reflexivity.
    + auto.
  - injection Hrun as <- <-. apply in_round_invariant.
    unfold in_round. rewrite Htr at 4. rewrite mon_run_app, Hm2, Hres.
    repeat split; try assumption; congruence.
Qed.

Lemma Run_loop_invariant (L : Z) (rounds : nat) :
  forall readUserInput (st : State W RawMessage),
    run_invariant L (Running readUserInput) st ->
    run_invariant L
      (fst (Run_loop a_tools getUserMessage client_Messages_New clock rate_error
              rounds readUserInput st))
      (snd (Run_loop a_tools getUserMessage client_Messages_New clock rate_error
              rounds readUserInput st)).
Proof.
  induction rounds as [|rounds IH]; intros readUserInput st Hinv; [exact Hinv|].
  cbn [Run_loop].
  destruct (Run_round _ _ _ _ _ _ _) as [step st'] eqn:Hround.
  apply (Run_round_invariant L) in Hround; [|exact Hinv].
  destruct step as [r| |err]; cbn [status_of] in Hround; [now apply IH | exact Hround ..].
Qed.

Lemma Run_invariant (rounds : nat) (lp : LoopProtection) (w : W) :
  run_invariant (MaxConsecutiveToolUses lp)
    (fst (Run a_tools getUserMessage client_Messages_New clock rate_error rounds lp w))
    (snd (Run a_tools getUserMessage client_Messages_New clock rate_error rounds lp w)).
Proof.
  unfold Run. cbn [time_Now initial].
  apply Run_loop_invariant. unfold run_invariant. cbn.
  repeat split; try reflexivity. discriminate.
Qed.


(** C3. In a session with a consecutive-use limit of 15, a tool
    invocation that comes when 15 attempts were made since the last reset
    of the counters (the 16th without user input in between) is denied
    with the consecutive-limit error: the trace goes on with the denial
    and the error handling of [Run], not with a call of a tool; and the
    run is back to awaiting user input: its next round reads user input,
    and what follows in the trace is the reset that goes with the read, or
    the end of the session.  The step that processes such an invocation
    returns the error without running a tool: the world of the tools is
    as it was. *)
Theorem sixteenth_invocation_denied (rounds : nat) (lp : LoopProtection) (w : W)
    (pre post : list Event) (id name : string) :
  MaxConsecutiveToolUses lp = 15 ->
  trace (snd (Run a_tools getUserMessage client_Messages_New clock rate_error rounds lp w))
  = (pre ++ EvToolUse id name :: post)%list ->
  attempts_since_reset pre = 15 ->
  (exists post',
     post = EvDenied (consecutive_error 16) :: EvProcessError (consecutive_error 16) :: post' /\
     awaits_user_input post' /\
     (post' = [] ->
      fst (Run a_tools getUserMessage client_Messages_New clock rate_error rounds lp w)
      = Running true)) /\
  (forall (input : RawMessage) toolResults (st : State W RawMessage),
     MaxConsecutiveToolUses (loopProtection st) = 15 ->
     ConsecutiveToolUses (loopProtection st) = 15 ->
     exists st',
       process_tool_use a_tools clock rate_error id name input toolResults st
       = (inl (true, consecutive_error 16), st') /\
       world st' = world st /\
       trace st' = (trace st ++ [EvToolUse id name; EvDenied (consecutive_error 16)])%list).
Proof.
  intros HL Htr Hn. split.
  - destruct (Run_invariant rounds lp w) as (_ & _ & _ & Hmon).
    rewrite HL, Htr in Hmon.
    assert (accepting (mon_run 15 (pre ++ EvToolUse id name :: post) (Await 0))) as Hacc
      by (destruct (mon_run 15 _ _); try contradiction; exact I).
    destruct (accepted_attempt_over_limit 15 pre post id name Hacc ltac:(lia))
      as (post' & Hpost & Hawait & Hend).
    rewrite Hn in *. exists post'. split; [exact Hpost|]. split; [exact Hawait|].
    intros Hnil. rewrite (Hend Hnil) in Hmon. exact Hmon.
  - intros input toolResults st HM HC.
    destruct (process_tool_use a_tools clock rate_error id name input toolResults st)
      as [r st'] eqn:Hp.
    apply process_tool_use_spec in Hp as (_ & _ & _ & Hcase).
    rewrite HM, HC in Hcase.
    destruct Hcase as [(err & -> & Hw & Ht & He) | (Hle & _)]; [|lia].
    rewrite (He ltac:(lia)) in *. exists st'. auto.
Qed.

End RunInvariant.

(* ===================================================================== *)
(** * The regex_replace scenario, on the reference engine *)
(* ===================================================================== *)

Section RegexScenario.
Import os tools.

Context (path_Dir : string -> string)
        {RawMessage : Type} (json_Unmarshal : RawMessage -> error + FileEditorInput).

(** C9. On a file whose content is "foo1 foo2 foo3", regex_replace with
    the pattern foo\d+, the replacement "bar" and limit 2 rewrites the
    file to "bar bar foo3" and reports 2 replacements. *)
Theorem regex_replace_scenario (raw : RawMessage) (inp : FileEditorInput) (fs : FS) :
  json_Unmarshal raw = inr inp -> Mode inp = "regex_replace" -> Path inp <> "" ->
  Pattern inp = "foo\d+" -> NewStr inp = "bar" -> Limit inp = 2 ->
  fs !! Path inp = Some (File "foo1 foo2 foo3") ->
  EditFileContent path_Dir (engine := regexp.engine) RawMessage json_Unmarshal raw fs
  = (("Successfully replaced 2 occurrence(s) in " ++ Path inp, None),
     <[Path inp := File "bar bar foo3"]> fs).
Proof.
  intros Hj Hm Hp Hpat Hnew Hlim Hc. unfold EditFileContent.
  rewrite Hj, (str_eqb_false _ _ Hp), Hm. cbn [String.eqb Ascii.eqb Bool.eqb].
  unfold regexReplaceInFile. rewrite Hpat, Hnew, Hlim.
  cbn [String.eqb Ascii.eqb Bool.eqb].
  rewrite (ensureFileExists_present _ _ _ _ Hc), (ReadFile_file _ _ _ Hc).
  assert (@Compile regexp.engine "foo\d+"
          = @inr error (@Regexp regexp.engine)
              [(regexp.Lit "f", regexp.One); (regexp.Lit "o", regexp.One);
               (regexp.Lit "o", regexp.One);
               (regexp.Class false regexp.digit, regexp.Plus)]) as -> by reflexivity.
  cbn [Z.ltb Z.compare].
  match goal with
  | |- context [@ReplaceAllStringFunc regexp.engine Z ?p ?src ?f ?z] =>
      let v := eval vm_compute in (@ReplaceAllStringFunc regexp.engine Z p src f z) in
      change (@ReplaceAllStringFunc regexp.engine Z p src f z) with v
  end.
  cbn [String.eqb Ascii.eqb Bool.eqb].
  now rewrite (WriteFile_file _ _ _ _ Hc).
Qed.

End RegexScenario.

(* ===================================================================== *)
(** * The theorems at concrete inputs *)
(* ===================================================================== *)

Section Instances.
Import os tools agent AgentSpec ReplaceSpec FileSpec Examples.

(** C1 at an input: replacing the first "cat" of "one cat, two cats". *)
Lemma replace_mode_correct_witness :
  exists k,
    occurrences "cat" "one cat, two cats" k /\
    (Limit replace_one_cat = 0 ->
     replace_outcome "notes.txt" "cat" "dog" notes "one cat, two cats" k
       (EditFileContent working_dir (engine := regexp.engine) FileEditorInput parsed
          replace_one_cat notes)) /\
    (0 < Limit replace_one_cat ->
     replace_outcome "notes.txt" "cat" "dog" notes "one cat, two cats"
       (Nat.min (Z.to_nat (Limit replace_one_cat)) k)
       (EditFileContent working_dir (engine := regexp.engine) FileEditorInput parsed
          replace_one_cat notes)).
Proof.
  refine (proj2 (proj2 (replace_mode_correct working_dir (engine := regexp.engine) parsed
                          replace_one_cat replace_one_cat notes eq_refl eq_refl _))
            _ _ "one cat, two cats" _);
    [discriminate | discriminate | discriminate | vm_compute; reflexivity].
Defined.

(** C6 at an input: all the cats, and as many cats as there are. *)
Lemma replace_all_eq_replace_count_witness :
  exists k,
    occurrences "cat" "one cat, two cats" k /\
    (Limit replace_two_cats = Z.of_nat k ->
     EditFileContent working_dir (engine := regexp.engine) FileEditorInput parsed
       replace_all_cats notes
     = EditFileContent working_dir (engine := regexp.engine) FileEditorInput parsed
         replace_two_cats notes).
Proof.
  refine (replace_all_eq_replace_count working_dir (engine := regexp.engine) parsed
            replace_all_cats replace_two_cats replace_all_cats replace_two_cats notes
            "one cat, two cats" eq_refl eq_refl eq_refl eq_refl eq_refl eq_refl eq_refl
            _ _ _ _ eq_refl);
    [discriminate | discriminate | discriminate | vm_compute; reflexivity].
Defined.

(** C7 at an input: a line without newline inserted at line 2 of three. *)
Lemma insert_at_line_correct_witness :
  exists c',
    EditFileContent working_dir (engine := regexp.engine) FileEditorInput parsed
      insert_x_at_2 three_lines
    = (("Successfully inserted content at line " ++ itoa 2 ++ " in " ++ "lines.txt", None),
       <["lines.txt" := File c']> three_lines) /\
    strings.Split c' newline
    = (take (Z.to_nat (2 - 1))
         (strings.Split ("a" ++ newline ++ "b" ++ newline ++ "c") newline) ++
       strings.Split "x" newline ++
       drop (Z.to_nat (2 - 1))
         (strings.Split ("a" ++ newline ++ "b" ++ newline ++ "c") newline))%list /\
    (absent newline "x" ->
     forall j : nat,
       (Z.to_nat (2 - 1) <= j)%nat ->
       strings.Split c' newline !! S j
       = strings.Split ("a" ++ newline ++ "b" ++ newline ++ "c") newline !! j).
Proof.
  refine (proj1 (insert_at_line_correct working_dir (engine := regexp.engine) parsed
                   insert_x_at_2 insert_x_at_2 three_lines
                   ("a" ++ newline ++ "b" ++ newline ++ "c") eq_refl eq_refl _ _) _);
    [discriminate | vm_compute; reflexivity | vm_compute; split; discriminate].
Defined.

(** C7 as first stated fails when the inserted content has a newline:
    two lines inserted at line 1 of the file "a" leave the second of them
    at line 2, and the original line 1 at line 3. *)
Lemma insert_two_lines_counterexample :
  exists c',
    snd (EditFileContent working_dir (engine := regexp.engine) FileEditorInput parsed
           insert_two_lines_at_1 one_line) !! "lines.txt" = Some (File c') /\
    strings.Split "a" newline !! 0%nat = Some "a" /\
    strings.Split c' newline !! 1%nat = Some "y" /\
    strings.Split c' newline !! 2%nat = Some "a" /\
    strings.Split c' newline !! 1%nat <> strings.Split "a" newline !! 0%nat.
Proof. eexists. vm_compute. repeat split; try reflexivity. discriminate. Qed.

(** C8 at an input: creating notes.txt, which exists. *)
Lemma create_never_overwrites_witness :
  (tools.Content create_notes <> "" ->
   EditFileContent working_dir (engine := regexp.engine) FileEditorInput parsed
     create_notes notes
   = (("File " ++ Path create_notes ++
       " already exists. Use append, prepend, or replace modes to modify it.", None),
      notes)) /\
  (tools.Content create_notes = "" ->
   EditFileContent working_dir (engine := regexp.engine) FileEditorInput parsed
     create_notes notes
   = (("", Some (errorString "cannot create an empty file, content is required")), notes)).
Proof.
  refine (create_never_overwrites working_dir (engine := regexp.engine) parsed
            create_notes create_notes notes "one cat, two cats" eq_refl eq_refl _ _);
    [discriminate | vm_compute; reflexivity].
Defined.

(** C8 as first stated fails for empty content: the call returns an
    error, not the "already exists" notice. *)
Lemma create_empty_counterexample :
  EditFileContent working_dir (engine := regexp.engine) FileEditorInput parsed
    create_notes_empty notes
  = (("", Some (errorString "cannot create an empty file, content is required")), notes) /\
  failed (EditFileContent working_dir (engine := regexp.engine) FileEditorInput parsed
            create_notes_empty notes).
Proof. split; [reflexivity | discriminate]. Qed.

(** C9 at an input. *)
Lemma regex_replace_scenario_witness :
  EditFileContent working_dir (engine := regexp.engine) FileEditorInput parsed
    replace_two_foos foos
  = (("Successfully replaced 2 occurrence(s) in " ++ Path replace_two_foos, None),
     <[Path replace_two_foos := File "bar bar foo3"]> foos).
Proof.
  refine (regex_replace_scenario working_dir parsed replace_two_foos replace_two_foos foos
            eq_refl eq_refl _ eq_refl eq_refl eq_refl _);
    [discriminate | vm_compute; reflexivity].
Defined.


(** C4 as first stated fails when a violation comes partway through the
    batch: of five invocations of one tool under the default limits, four
    are dispatched and the fifth is denied, and no turn of results is
    appended to the conversation. *)
Lemma violation_drops_results_counterexample :
  trace (snd (processToolUsages [read_file_tool] still_clock plain_rate_error
                five_reads fresh))
  = [EvToolUse "t1" "read_file"; EvCall "t1" "read_file";
     EvToolUse "t2" "read_file"; EvCall "t2" "read_file";
     EvToolUse "t3" "read_file"; EvCall "t3" "read_file";
     EvToolUse "t4" "read_file"; EvCall "t4" "read_file";
     EvToolUse "t5" "read_file"; EvDenied (same_tool_error "read_file" 5)] /\
  ~ results_appended (Content five_reads) (conversation fresh)
      (conversation (snd (processToolUsages [read_file_tool] still_clock plain_rate_error
                            five_reads fresh))).
Proof.
  split; [vm_compute; reflexivity|].
  intros (results & H & _). vm_compute in H. discriminate.
Qed.

(** C5 at an input: the first invocation of a fresh agent. *)
Lemma same_tool_streak_witness :
  SameToolCallCount
    (loopProtection
       (snd (process_tool_use [read_file_tool] still_clock plain_rate_error
               "t1" "read_file" tt [] fresh))) = 1.
Proof.
  pose proof (same_tool_streak [read_file_tool] still_clock plain_rate_error
                "t1" "read_file" tt [] fresh eq_refl) as H.
  destruct (process_tool_use _ _ _ _ _ _ _ _) as [r st'].
  destruct H as (_ & H & _). apply H. discriminate.
Defined.

(** C5 as first stated fails for a maximum of 1: the first invocation of
    a tool brings the streak to the maximum, and is not denied. *)
Lemma same_tool_limit_one_counterexample :
  SameToolCallCount
    (loopProtection
       (snd (process_tool_use [read_file_tool] still_clock plain_rate_error
               "t1" "read_file" tt [] (initial one_call_limits tt))))
  = MaxSameToolCalls
      (loopProtection
         (snd (process_tool_use [read_file_tool] still_clock plain_rate_error
                 "t1" "read_file" tt [] (initial one_call_limits tt)))) /\
  fst (process_tool_use [read_file_tool] still_clock plain_rate_error
         "t1" "read_file" tt [] (initial one_call_limits tt))
  = inr [ToolResultParam "t1" "ok" false] /\
  ~ (exists err,
       fst (process_tool_use [read_file_tool] still_clock plain_rate_error
              "t1" "read_file" tt [] (initial one_call_limits tt))
       = inl (true, err)).
Proof. split; [reflexivity|]. split; [reflexivity|]. intros [err H]. discriminate. Qed.

(** C3 at an input: sixteen rounds with a tool invocation each. *)
Lemma sixteenth_invocation_denied_witness :
  exists post',
    drop 49 (trace (snd sixteen_rounds))
    = EvDenied (consecutive_error 16) :: EvProcessError (consecutive_error 16) :: post' /\
    awaits_user_input post' /\
    (post' = [] -> fst sixteen_rounds = Running true).
Proof.
  refine (proj1 (sixteenth_invocation_denied [list_files_tool; read_file_tool]
                   one_line_user tool_every_time still_clock plain_rate_error 16
                   (NewLoopProtection 0 0) tt
                   (take 48 (trace (snd sixteen_rounds)))
                   (drop 49 (trace (snd sixteen_rounds)))
                   "call15" "read_file" eq_refl _ _));
    vm_compute; reflexivity.
Defined.

End Instances.

(* ===================================================================== *)
(** * The file_editor tool: what a call can and cannot change *)
(* ===================================================================== *)

Section EditFrame.
Import os tools FileSpec EditSpec.

Context (path_Dir : string -> string) {engine : RegexpEngine}
        {RawMessage : Type} (json_Unmarshal : RawMessage -> error + FileEditorInput).

(** A relation between the file system before and after that the three
    writing operations of package os respect, on the path [p] of a call
    and on its directory, is respected by every mode of the tool. *)
Section Related.

Variable R : FS -> FS -> Prop.
Variable p : string.
Hypothesis R_refl : forall fs, R fs fs.
Hypothesis R_trans : forall a b c, R a b -> R b c -> R a c.
Hypothesis R_mkdir : forall fs, R fs (snd (MkdirAll (path_Dir p) fs)).
Hypothesis R_write : forall data fs, R fs (snd (WriteFile p data fs)).
Hypothesis R_append : forall data fs, R fs (snd (AppendFile p data fs)).

Lemma ensureFileExists_related (fs : FS) :
  R fs (snd (ensureFileExists path_Dir p fs)).
Proof.
  unfold ensureFileExists.
  destruct (IsNotExist (Stat p fs)); [|apply R_refl].
  destruct (negb (String.eqb (path_Dir p) ".")).
  - pose proof (R_mkdir fs) as Hm.
    destruct (MkdirAll (path_Dir p) fs) as [[?|] fs1]; cbn in *; [exact Hm|].
    eapply R_trans; [exact Hm | apply R_write].
  - apply R_write.
Qed.

Lemma createFile_related (content : string) (fs : FS) :
  R fs (snd (createFile path_Dir p content fs)).
Proof.
  unfold createFile.
  destruct (Stat p fs); [|apply R_refl].
  destruct (negb (String.eqb (path_Dir p) ".")).
  - pose proof (R_mkdir fs) as Hm.
    destruct (MkdirAll (path_Dir p) fs) as [[?|] fs1]; cbn in *; [exact Hm|].
    pose proof (R_write content fs1) as Hw.
    destruct (WriteFile p content fs1) as [[?|] fs2]; cbn in *;
      eapply R_trans; eauto.
  - pose proof (R_write content fs) as Hw.
    destruct (WriteFile p content fs) as [[?|] fs2]; exact Hw.
Qed.

Lemma replaceInFile_related (old new : string) (limit : Z) (fs : FS) :
  R fs (snd (replaceInFile path_Dir p old new limit fs)).
Proof.
  unfold replaceInFile.
  destruct (String.eqb old ""); [apply R_refl|].
  destruct (String.eqb old new); [apply R_refl|].
  pose proof (ensureFileExists_related fs) as He.
  destruct (ensureFileExists path_Dir p fs) as [[?|] fs1]; cbn in *; [exact He|].
  destruct (ReadFile p fs1) as [c [?|]]; [exact He|].
  destruct (if 0 <? limit then _ else _) as [count newContent].
  destruct (String.eqb c newContent); [exact He|].
  pose proof (R_write newContent fs1) as Hw.
  destruct (WriteFile p newContent fs1) as [[?|] fs2]; cbn in *; eapply R_trans; eauto.
Qed.

Lemma regexReplaceInFile_related (pattern new : string) (limit : Z) (fs : FS) :
  R fs (snd (regexReplaceInFile path_Dir p pattern new limit fs)).
Proof.
  unfold regexReplaceInFile.
  destruct (String.eqb pattern ""); [apply R_refl|].
  pose proof (ensureFileExists_related fs) as He.
  destruct (ensureFileExists path_Dir p fs) as [[?|] fs1]; cbn in *; [exact He|].
  destruct (ReadFile p fs1) as [c [?|]]; [exact He|].
  destruct (Compile pattern) as [?|regex]; [exact He|].
  destruct (if 0 <? limit then _ else _) as [newContent count].
  destruct (String.eqb c newContent); [exact He|].
  pose proof (R_write newContent fs1) as Hw.
  destruct (WriteFile p newContent fs1) as [[?|] fs2]; cbn in *; eapply R_trans; eauto.
Qed.

Lemma appendToFile_related (content : string) (fs : FS) :
  R fs (snd (appendToFile path_Dir p content fs)).
Proof.
  unfold appendToFile.
  pose proof (ensureFileExists_related fs) as He.
  destruct (ensureFileExists path_Dir p fs) as [[?|] fs1]; cbn in *; [exact He|].
  pose proof (R_append content fs1) as Hw.
  destruct (AppendFile p content fs1) as [[?|] fs2]; cbn in *; eapply R_trans; eauto.
Qed.

Lemma prependToFile_related (content : string) (fs : FS) :
  R fs (snd (prependToFile path_Dir p content fs)).
Proof.
  unfold prependToFile.
  pose proof (ensureFileExists_related fs) as He.
  destruct (ensureFileExists path_Dir p fs) as [[?|] fs1]; cbn in *; [exact He|].
  destruct (ReadFile p fs1) as [c [?|]]; [exact He|].
  pose proof (R_write (content ++ c) fs1) as Hw.
  destruct (WriteFile p (content ++ c) fs1) as [[?|] fs2]; cbn in *;
    eapply R_trans; eauto.
Qed.

Lemma insertAtLine_related (content : string) (L : Z) (fs : FS) :
  R fs (snd (insertAtLine path_Dir p content L fs)).
Proof.
  unfold insertAtLine.
  destruct (L <? 1); [apply R_refl|].
  pose proof (ensureFileExists_related fs) as He.
  destruct (ensureFileExists path_Dir p fs) as [[?|] fs1]; cbn in *; [exact He|].
  destruct (ReadFile p fs1) as [c [?|]]; [exact He|].
  destruct (_ <? L); [exact He|].
  match goal with
  | |- context [WriteFile p ?d fs1] =>
      pose proof (R_write d fs1) as Hw;
      destruct (WriteFile p d fs1) as [[?|] fs2]
  end; cbn in *; eapply R_trans; eauto.
Qed.

Lemma EditFileContent_related (raw : RawMessage) (fs : FS) :
  (forall inp, json_Unmarshal raw = inr inp -> Path inp = p) ->
  R fs (snd (EditFileContent path_Dir RawMessage json_Unmarshal raw fs)).
Proof.
  intros Hp. unfold EditFileContent.
  destruct (json_Unmarshal raw) as [?|inp]; [apply R_refl|].
  rewrite (Hp inp eq_refl).
  destruct (String.eqb p ""); [apply R_refl|].
  destruct (String.eqb (Mode inp) "create").
  { destruct (String.eqb (Content inp) ""); [apply R_refl | apply createFile_related]. }
  destruct (String.eqb (Mode inp) "replace"); [apply replaceInFile_related|].
  destruct (String.eqb (Mode inp) "regex_replace"); [apply regexReplaceInFile_related|].
  destruct (String.eqb (Mode inp) "append"); [apply appendToFile_related|].
  destruct (String.eqb (Mode inp) "prepend"); [apply prependToFile_related|].
  destruct (String.eqb (Mode inp) "insert_at_line"); [apply insertAtLine_related|].
  apply R_refl.
Qed.

End Related.

Lemma same_elsewhere_refl (p d : string) (fs : FS) : same_elsewhere p d fs fs.
Proof. intros q _ _. reflexivity. Qed.

Lemma same_elsewhere_trans (p d : string) (a b c : FS) :
  same_elsewhere p d a b -> same_elsewhere p d b c -> same_elsewhere p d a c.
Proof. intros Hab Hbc q Hp Hd. now rewrite (Hbc q Hp Hd), (Hab q Hp Hd). Qed.

Lemma MkdirAll_elsewhere (p d : string) (fs : FS) :
  same_elsewhere p d fs (snd (MkdirAll d fs)).
Proof.
  intros q _ Hd. unfold MkdirAll.
  destruct (fs !! d) as [[c|]|]; cbn; [reflexivity ..|].
  now rewrite lookup_insert_ne.
Qed.

Lemma WriteFile_elsewhere (p d data : string) (fs : FS) :
  same_elsewhere p d fs (snd (WriteFile p data fs)).
Proof.
  intros q Hp _. unfold WriteFile.
  destruct (fs !! p) as [[c|]|]; cbn; try reflexivity; now rewrite lookup_insert_ne.
Qed.

Lemma AppendFile_elsewhere (p d data : string) (fs : FS) :
  same_elsewhere p d fs (snd (AppendFile p data fs)).
Proof.
  intros q Hp _. unfold AppendFile.
  destruct (fs !! p) as [[c|]|]; cbn; try reflexivity; now rewrite lookup_insert_ne.
Qed.

Lemma kept_at_refl (q : string) (fs : FS) : kept_at q fs fs.
Proof. unfold kept_at. destruct (fs !! q) as [[c|]|]; eauto. Qed.

Lemma kept_at_trans (q : string) (a b c : FS) :
  kept_at q a b -> kept_at q b c -> kept_at q a c.
Proof.
  unfold kept_at. destruct (a !! q) as [[x|]|]; [| |auto].
  - intros [y ->]. auto.
  - intros ->. auto.
Qed.

Lemma MkdirAll_kept (q d : string) (fs : FS) : kept_at q fs (snd (MkdirAll d fs)).
Proof.
  unfold MkdirAll.
  destruct (fs !! d) as [[c|]|] eqn:Hd; cbn; try apply kept_at_refl.
  unfold kept_at. destruct (decide (q = d)) as [->|Hne].
  - now rewrite Hd.
  - rewrite lookup_insert_ne by congruence. destruct (fs !! q) as [[x|]|]; eauto.
Qed.

Lemma WriteFile_kept (q p data : string) (fs : FS) :
  kept_at q fs (snd (WriteFile p data fs)).
Proof.
  unfold WriteFile.
  destruct (fs !! p) as [[c|]|] eqn:Hp; cbn; try apply kept_at_refl;
    unfold kept_at; (destruct (decide (q = p)) as [->|Hne];
      [rewrite Hp, ?lookup_insert_eq; eauto
      |rewrite lookup_insert_ne by congruence; destruct (fs !! q) as [[x|]|]; eauto]).
Qed.

Lemma AppendFile_kept (q p data : string) (fs : FS) :
  kept_at q fs (snd (AppendFile p data fs)).
Proof.
  unfold AppendFile.
  destruct (fs !! p) as [[c|]|] eqn:Hp; cbn; try apply kept_at_refl.
  unfold kept_at. destruct (decide (q = p)) as [->|Hne].
  - rewrite Hp, lookup_insert_eq. eauto.
  - rewrite lookup_insert_ne by congruence. destruct (fs !! q) as [[x|]|]; eauto.
Qed.


(** X2. A call of the tool removes nothing and changes the kind of
    nothing: a path that was a directory is a directory afterwards, and a
    path that was a regular file is a regular file afterwards, for every
    input (also one that does not parse) and every outcome. *)
Theorem edit_keeps_entries (raw : RawMessage) (fs : FS) (q : string) :
  kept_at q fs (snd (EditFileContent path_Dir RawMessage json_Unmarshal raw fs)).
Proof.
  destruct (json_Unmarshal raw) as [e|inp] eqn:Hj.
  - unfold EditFileContent. rewrite Hj. apply kept_at_refl.
  - revert q.
    apply (EditFileContent_related (fun a b => forall q, kept_at q a b) (Path inp)).
    + intros fs0 q. apply kept_at_refl.
    + intros a b c Hab Hbc q. exact (kept_at_trans q a b c (Hab q) (Hbc q)).
    + intros fs0 q. apply MkdirAll_kept.
    + intros data fs0 q. apply WriteFile_kept.
    + intros data fs0 q. apply AppendFile_kept.
    + intros inp' Hj'. congruence.
Qed.

Lemma AppendFile_file (p data c : string) (fs : FS) :
  fs !! p = Some (File c) ->
  AppendFile p data fs = (None, <[p := File (c ++ data)]> fs).
Proof. intros Hp. unfold AppendFile. now rewrite Hp. Qed.

(** X3. On a path that is a regular file, a call of the tool changes
    nothing but the content of that file, and a call that returns an
    error changes nothing at all. *)
Theorem edit_of_existing_file (raw : RawMessage) (inp : FileEditorInput)
    (fs : FS) (c : string) :
  json_Unmarshal raw = inr inp ->
  fs !! Path inp = Some (File c) ->
  (failed (EditFileContent path_Dir RawMessage json_Unmarshal raw fs) ->
   snd (EditFileContent path_Dir RawMessage json_Unmarshal raw fs) = fs) /\
  exists c',
    snd (EditFileContent path_Dir RawMessage json_Unmarshal raw fs)
    = <[Path inp := File c']> fs.
Proof.
  intros Hj Hc. unfold EditFileContent. rewrite Hj.
  assert (forall r, (failed (r, fs) -> snd (r, fs) = fs) /\
                      exists c', snd (r, fs) = <[Path inp := File c']> fs) as Hsame.
  { intros r. split; [reflexivity|]. exists c. cbn. now rewrite insert_id. }
  assert (forall msg c1,
            (failed ((msg, None), <[Path inp := File c1]> fs) ->
             snd ((msg, None : option error), <[Path inp := File c1]> fs) = fs) /\
            exists c', snd ((msg, None : option error), <[Path inp := File c1]> fs)
                       = <[Path inp := File c']> fs) as Hwritten.
  { intros msg c1. split; [intros Hf; exfalso; apply Hf; reflexivity | eauto]. }
  destruct (String.eqb (Path inp) ""); [apply Hsame|].
  destruct (String.eqb (Mode inp) "create").
  { destruct (String.eqb (Content inp) ""); [apply Hsame|].
    unfold createFile, Stat. rewrite Hc. apply Hsame. }
  destruct (String.eqb (Mode inp) "replace").
  { unfold replaceInFile.
    destruct (String.eqb (OldStr inp) ""); [apply Hsame|].
    destruct (String.eqb (OldStr inp) (NewStr inp)); [apply Hsame|].
    rewrite (ensureFileExists_present _ _ _ _ Hc), (ReadFile_file _ _ _ Hc).
    destruct (if 0 <? Limit inp then _ else _) as [count newContent].
    destruct (String.eqb c newContent); [apply Hsame|].
    rewrite (WriteFile_file _ _ _ _ Hc). apply Hwritten. }
  destruct (String.eqb (Mode inp) "regex_replace").
  { unfold regexReplaceInFile.
    destruct (String.eqb (Pattern inp) ""); [apply Hsame|].
    rewrite (ensureFileExists_present _ _ _ _ Hc), (ReadFile_file _ _ _ Hc).
    destruct (Compile (Pattern inp)) as [e|regex]; [apply Hsame|].
    destruct (if 0 <? Limit inp then _ else _) as [newContent count].
    destruct (String.eqb c newContent); [apply Hsame|].
    rewrite (WriteFile_file _ _ _ _ Hc). apply Hwritten. }
  destruct (String.eqb (Mode inp) "append").
  { unfold appendToFile.
    rewrite (ensureFileExists_present _ _ _ _ Hc), (AppendFile_file _ _ _ _ Hc).
    apply Hwritten. }
  destruct (String.eqb (Mode inp) "prepend").
  { unfold prependToFile.
    rewrite (ensureFileExists_present _ _ _ _ Hc), (ReadFile_file _ _ _ Hc).
    rewrite (WriteFile_file _ _ _ _ Hc). apply Hwritten. }
  destruct (String.eqb (Mode inp) "insert_at_line"); [|apply Hsame].
  unfold insertAtLine.
  destruct (LineNumber inp <? 1); [apply Hsame|].
  rewrite (ensureFileExists_present _ _ _ _ Hc), (ReadFile_file _ _ _ Hc).
  destruct (_ <? LineNumber inp); [apply Hsame|].
  rewrite (WriteFile_file _ _ _ _ Hc). apply Hwritten.
Qed.

End EditFrame.

(* ===================================================================== *)
(** * The file_editor tool: append, prepend and the first write to a path *)
(* ===================================================================== *)

Section FirstWrites.
Import os tools FileSpec EditSpec.

Context (path_Dir : string -> string) {engine : RegexpEngine}
        {RawMessage : Type} (json_Unmarshal : RawMessage -> error + FileEditorInput).

Lemma appendToFile_existing (p content c : string) (fs : FS) :
  fs !! p = Some (File c) ->
  appendToFile path_Dir p content fs
  = (("Successfully appended content to " ++ p, None), <[p := File (c ++ content)]> fs).
Proof.
  intros Hp. unfold appendToFile.
  now rewrite (ensureFileExists_present _ _ _ _ Hp), (AppendFile_file _ _ _ _ Hp).
Qed.

Lemma prependToFile_existing (p content c : string) (fs : FS) :
  fs !! p = Some (File c) ->
  prependToFile path_Dir p content fs
  = (("Successfully prepended content to " ++ p, None), <[p := File (content ++ c)]> fs).
Proof.
  intros Hp. unfold prependToFile.
  now rewrite (ensureFileExists_present _ _ _ _ Hp), (ReadFile_file _ _ _ Hp),
    (WriteFile_file _ _ _ _ Hp).
Qed.

(** X4. On a regular file with content [c], an append call leaves the
    content [c] followed by the new content, and a prepend call the new
    content followed by [c]; both report success. *)
Theorem append_prepend_existing (raw : RawMessage) (inp : FileEditorInput)
    (fs : FS) (c : string) :
  json_Unmarshal raw = inr inp -> Path inp <> "" ->
  fs !! Path inp = Some (File c) ->
  (Mode inp = "append" ->
   EditFileContent path_Dir RawMessage json_Unmarshal raw fs
   = (("Successfully appended content to " ++ Path inp, None),
      <[Path inp := File (c ++ Content inp)]> fs)) /\
  (Mode inp = "prepend" ->
   EditFileContent path_Dir RawMessage json_Unmarshal raw fs
   = (("Successfully prepended content to " ++ Path inp, None),
      <[Path inp := File (Content inp ++ c)]> fs)).
Proof.
  intros Hj Hp Hc. unfold EditFileContent. rewrite Hj, (str_eqb_false _ _ Hp).
  split; intros ->; cbn [String.eqb Ascii.eqb Bool.eqb].
  - now apply appendToFile_existing.
  - now apply prependToFile_existing.
Qed.

(** X5. Appending [b] and prepending [a] to a regular file commute: in
    either order both calls succeed and the file holds [a], then what it
    held, then [b]; nothing else changes. *)
Theorem append_prepend_commute (p a b : string) (fs : FS) (c : string) :
  fs !! p = Some (File c) ->
  prependToFile path_Dir p a (snd (appendToFile path_Dir p b fs))
  = (("Successfully prepended content to " ++ p, None), <[p := File (a ++ c ++ b)]> fs) /\
  appendToFile path_Dir p b (snd (prependToFile path_Dir p a fs))
  = (("Successfully appended content to " ++ p, None), <[p := File (a ++ c ++ b)]> fs).
Proof.
  intros Hp. split.
  - rewrite (appendToFile_existing _ _ _ _ Hp). cbn [snd].
    rewrite (prependToFile_existing p a (c ++ b)) by apply lookup_insert_eq.
    now rewrite insert_insert_eq.
  - rewrite (prependToFile_existing _ _ _ _ Hp). cbn [snd].
    rewrite (appendToFile_existing p b (a ++ c)) by apply lookup_insert_eq.
    now rewrite insert_insert_eq, str_app_assoc.
Qed.

Lemma Split_empty : strings.Split "" newline = [""].
Proof. reflexivity. Qed.


End FirstWrites.

(* ===================================================================== *)
(** * The file_editor tool: create, and what read_file sees afterwards *)
(* ===================================================================== *)

Section CreateAndRead.
Import os tools FileSpec EditSpec.

Context (path_Dir : string -> string) {engine : RegexpEngine}
        {RawMessage : Type} (json_Unmarshal : RawMessage -> error + FileEditorInput)
        {ReaderMessage : Type}
        (reader_Unmarshal : ReaderMessage -> error + file_reader.FileReaderInput).

Lemma createFile_missing (p content : string) (fs : FS) :
  fs !! p = None ->
  (path_Dir p = "." \/
   (path_Dir p <> p /\ forall c, fs !! path_Dir p <> Some (File c))) ->
  exists fs',
    createFile path_Dir p content fs = (("Successfully created file " ++ p, None), fs') /\
    fs' !! p = Some (File content) /\
    (path_Dir p <> "." -> fs' !! path_Dir p = Some Dir) /\
    same_elsewhere p (path_Dir p) fs fs'.
Proof.
  intros Hp Hd. unfold createFile, Stat. rewrite Hp.
  destruct (String.eqb_spec (path_Dir p) ".") as [E|Hnd]; cbn [negb].
  - unfold WriteFile. rewrite Hp. eexists. split; [reflexivity|].
    split; [apply lookup_insert_eq|]. split; [congruence|].
    intros q Hq _. now rewrite lookup_insert_ne.
  - destruct Hd as [?|[Hneq Hnf]]; [congruence|].
    unfold MkdirAll.
    destruct (fs !! path_Dir p) as [[c|]|] eqn:Hdir.
    + destruct (Hnf c eq_refl).
    + unfold WriteFile. rewrite Hp. eexists. split; [reflexivity|].
      split; [apply lookup_insert_eq|]. split.
      * intros _. now rewrite lookup_insert_ne.
      * intros q Hq _. now rewrite lookup_insert_ne.
    + unfold WriteFile. rewrite lookup_insert_ne, Hp by assumption.
      eexists. split; [reflexivity|].
      split; [apply lookup_insert_eq|]. split.
      * intros _. rewrite lookup_insert_ne by congruence. apply lookup_insert_eq.
      * intros q Hq Hq'. now rewrite !lookup_insert_ne.
Qed.


(** X8. A call that is turned down on its arguments (no path, create
    without content, replace with an empty old_str or with old_str equal
    to new_str, regex_replace without a pattern, insert_at_line at a
    line below 1, or a mode that is none of the six) leaves the file
    system exactly as it was: the checks come before the file is looked
    for, so nothing is created even when the path does not exist. *)
Theorem rejected_edit_changes_nothing (raw : RawMessage) (inp : FileEditorInput) (fs : FS) :
  json_Unmarshal raw = inr inp ->
  (Path inp = "" \/
   (Mode inp = "create" /\ Content inp = "") \/
   (Mode inp = "replace" /\ (OldStr inp = "" \/ OldStr inp = NewStr inp)) \/
   (Mode inp = "regex_replace" /\ Pattern inp = "") \/
   (Mode inp = "insert_at_line" /\ LineNumber inp < 1) \/
   ~ In (Mode inp)
       ["create"; "replace"; "regex_replace"; "append"; "prepend"; "insert_at_line"]) ->
  snd (EditFileContent path_Dir RawMessage json_Unmarshal raw fs) = fs.
Proof.
  intros Hj Hrej. unfold EditFileContent. rewrite Hj.
  destruct (String.eqb_spec (Path inp) "") as [|Hp]; [reflexivity|].
  destruct Hrej as [?|Hrej]; [contradiction|].
  destruct (String.eqb_spec (Mode inp) "create") as [Hm|Hm1].
  { destruct (String.eqb_spec (Content inp) "") as [|Hc]; [reflexivity|].
    rewrite Hm in Hrej.
    destruct Hrej as [[_ ?]|[[[=] _]|[[[=] _]|[[[=] _]|Hn]]]]; [contradiction|].
    exfalso. apply Hn. now left. }
  destruct Hrej as [[? _]|Hrej]; [contradiction|].
  destruct (String.eqb_spec (Mode inp) "replace") as [Hm|Hm2].
  { unfold replaceInFile.
    destruct (String.eqb_spec (OldStr inp) "") as [|Ho]; [reflexivity|].
    destruct (String.eqb_spec (OldStr inp) (NewStr inp)) as [|Hon]; [reflexivity|].
    rewrite Hm in Hrej.
    destruct Hrej as [[_ [?|?]]|[[[=] _]|[[[=] _]|Hn]]]; try contradiction.
    exfalso. apply Hn. right. now left. }
  destruct Hrej as [[? _]|Hrej]; [contradiction|].
  destruct (String.eqb_spec (Mode inp) "regex_replace") as [Hm|Hm3].
  { unfold regexReplaceInFile.
    destruct (String.eqb_spec (Pattern inp) "") as [|Hpat]; [reflexivity|].
    rewrite Hm in Hrej.
    destruct Hrej as [[_ ?]|[[[=] _]|Hn]]; [contradiction|].
    exfalso. apply Hn. right. right. now left. }
  destruct Hrej as [[? _]|Hrej]; [contradiction|].
  destruct (String.eqb_spec (Mode inp) "append") as [Hm|Hm4].
  { rewrite Hm in Hrej. destruct Hrej as [[[=] _]|Hn].
    exfalso. apply Hn. do 3 right. now left. }
  destruct (String.eqb_spec (Mode inp) "prepend") as [Hm|Hm5].
  { rewrite Hm in Hrej. destruct Hrej as [[[=] _]|Hn].
    exfalso. apply Hn. do 4 right. now left. }
  destruct (String.eqb_spec (Mode inp) "insert_at_line") as [Hm|Hm6]; [|reflexivity].
  unfold insertAtLine.
  destruct (Z.ltb_spec (LineNumber inp) 1) as [|Hge]; [reflexivity|].
  destruct Hrej as [[_ ?]|Hn]; [lia|].
  exfalso. apply Hn. do 5 right. now left.
Qed.

End CreateAndRead.

(* ===================================================================== *)
(** * regex_replace with a limit, on the reference engine *)
(* ===================================================================== *)

Section RegexLimit.
Import os tools.

Variable path_Dir : string -> string.

(** The closure of [regexReplaceInFile] counts the matches it replaces
    and stops replacing at the limit. *)
Lemma limited_count (re : regexp.Prog) (new : string) (limit : Z)
    (l : list (string * string)) (tail : string) :
  forall count, count <= limit ->
    snd (regexp.replace_segments l tail
           (limited_repl (engine := regexp.engine) re new limit) count)
    = Z.min limit (count + llen l).
Proof.
  induction l as [|[before matched] l IH]; intros count Hc.
  - cbn. unfold llen. cbn. lia.
  - cbn [regexp.replace_segments]. unfold limited_repl at 1.
    destruct (Z.ltb_spec count limit) as [Hlt|Hge].
    + specialize (IH (count + 1) ltac:(lia)).
      destruct (regexp.replace_segments l tail _ (count + 1)) as [more st].
      cbn [snd] in *. rewrite IH. unfold llen. cbn [List.length]. lia.
    + specialize (IH count Hc).
      destruct (regexp.replace_segments l tail _ count) as [more st].
      cbn [snd] in *. rewrite IH. unfold llen. cbn [List.length]. lia.
Qed.


End RegexLimit.

(* ===================================================================== *)
(** * Proving an invariant of a run

    The loop of [Run] and the loop of [processToolUsages], unfolded once
    and for all: what has to be shown of the steps for a property to hold
    of the states a run goes through. *)
(* ===================================================================== *)

Section BlocksPrinciple.
Import agent AgentSpec RunSpec.

Context {W RawMessage : Type}.
Variable a_tools : list (ToolDefinition W RawMessage).
Variable clock : nat -> Z.
Variable rate_error : Z -> Z -> error.

(** [B] holds while the blocks of a response are processed, [D err] when
    the processing has stopped with the violation [err]. *)
Variable B : State W RawMessage -> Prop.
Variable D : error -> State W RawMessage -> Prop.

Hypothesis B_text : forall text st, B st -> B (emit (EvText text) st).
Hypothesis B_tool_use : forall id name input toolResults st r st',
  B st ->
  process_tool_use a_tools clock rate_error id name input toolResults st = (r, st') ->
  match r with
  | inl (_, err) => D err st'
  | inr _ => B st'
  end.

Lemma process_blocks_principle (blocks : list (ContentBlock RawMessage)) :
  forall toolResults hasToolUses st r st',
    B st ->
    process_blocks a_tools clock rate_error blocks toolResults hasToolUses st = (r, st') ->
    match r with
    | inl (_, err) => D err st'
    | inr _ => B st'
    end.
Proof.
  induction blocks as [|b blocks IH]; intros toolResults hasToolUses st r st' HB.
  - cbn. intros [= <- <-]. exact HB.
  - destruct b as [text|id name input|ty]; cbn [process_blocks].
    + apply IH. now apply B_text.
    + destruct (process_tool_use _ _ _ _ _ _ _ _) as [[[b err]|results] st1] eqn:Hp;
        pose proof (B_tool_use _ _ _ _ _ _ _ HB Hp) as H1; cbn in H1.
      * intros [= <- <-]. exact H1.
      * now apply IH.
    + now apply IH.
Qed.

Lemma processToolUsages_principle (message : Message RawMessage) :
  forall st readNext err st',
    B st ->
    processToolUsages a_tools clock rate_error message st = ((readNext, err), st') ->
    match err with
    | Some e => D e st'
    | None =>
        if readNext then B st'
        else exists st1 toolResults,
               B st1 /\
               st' = set_conversation
                       (conversation st1 ++ [NewUserMessage toolResults])%list st1
    end.
Proof.
  intros st readNext err st' HB. unfold processToolUsages.
  destruct (process_blocks _ _ _ _ _ _ _) as [[[b e]|[results has]] st1] eqn:Hp;
    pose proof (process_blocks_principle _ _ _ _ _ _ HB Hp) as H1; cbn in H1.
  - intros [= <- <- <-]. exact H1.
  - destruct has; cbn [negb]; intros [= <- <- <-]; eauto.
Qed.

End BlocksPrinciple.

Section RunPrinciple.
Import agent AgentSpec RunSpec.

Context {W RawMessage : Type}.
Variable a_tools : list (ToolDefinition W RawMessage).
Variable getUserMessage : nat -> string * bool.
Variable client_Messages_New : nat -> list (MessageParam RawMessage) -> error + Message RawMessage.
Variable clock : nat -> Z.
Variable rate_error : Z -> Z -> error.

(** [A] holds when a round starts that reads user input, [R] when a
    round starts that does not and when a request is made, [P] when the
    response is about to be processed, [F] when the run has returned. *)
Variables A R P F : State W RawMessage -> Prop.

Hypothesis A_tick : forall st, A st -> A (snd (time_Now clock st)).
Hypothesis R_tick : forall st, R st -> R (snd (time_Now clock st)).
Hypothesis A_limit : forall st, A st -> F (emit EvSessionLimit st).
Hypothesis R_limit : forall st, R st -> F (emit EvSessionLimit st).
Hypothesis A_read : forall st ok st1,
  A st ->
  readUserInputToConversation getUserMessage
    (emit EvReset
       (set_loopProtection
          (set_SameToolCallCount 0
             (set_LastToolName "" (set_ConsecutiveToolUses 0 (loopProtection st))))
          st)) = (ok, st1) ->
  if ok then R st1 else F st1.
Hypothesis R_generate : forall st r st2,
  R st ->
  generateResponse client_Messages_New st = (r, st2) ->
  match r with
  | inl _ => F st2
  | inr message =>
      P (set_conversation (conversation st2 ++ [ToParam message])%list st2)
  end.
Hypothesis P_process : forall message st readNext err st3,
  P st ->
  processToolUsages a_tools clock rate_error message st = ((readNext, err), st3) ->
  match err with
  | Some e => A (emit (EvProcessError e) st3)
  | None => if readNext then A st3 else R st3
  end.

Lemma Run_round_principle (readUserInput : bool) (st : State W RawMessage) :
  forall step st',
    Run_round a_tools getUserMessage client_Messages_New clock rate_error readUserInput st
      = (step, st') ->
    (if readUserInput then A st else R st) ->
    match step with
    | Continue true => A st'
    | Continue false => R st'
    | _ => F st'
    end.
Proof.
  intros step st' Hrun Hinv. unfold Run_round in Hrun.
  assert (if readUserInput then A (snd (time_Now clock st))
          else R (snd (time_Now clock st))) as Hinv0
    by (destruct readUserInput; auto).
  clear Hinv. destruct (time_Now clock st) as [now st0]. cbn [snd] in Hinv0.
  destruct (_ <? _) in Hrun.
  { injection Hrun as <- <-. destruct readUserInput; auto. }
  assert (exists ok st1,
            (if readUserInput then
               readUserInputToConversation getUserMessage
                 (emit EvReset
                    (set_loopProtection
                       (set_SameToolCallCount 0
                          (set_LastToolName ""
                             (set_ConsecutiveToolUses 0 (loopProtection st0))))
                       st0))
             else (true, st0)) = (ok, st1) /\
            (if ok then R st1 else F st1)) as (ok & st1 & Hstart & H1).
  { destruct readUserInput.
    - destruct (readUserInputToConversation _ _) as [ok st1] eqn:Hread.
      exists ok, st1. split; [reflexivity|]. exact (A_read _ _ _ Hinv0 Hread).
    - exists true, st0. split; [reflexivity | exact Hinv0]. }
  rewrite Hstart in Hrun. destruct ok; cbn [negb] in Hrun.
  2:{ injection Hrun as <- <-. exact H1. }
  destruct (generateResponse client_Messages_New st1) as [resp st2] eqn:Hgen.
  pose proof (R_generate _ _ _ H1 Hgen) as H2.
  destruct resp as [err|message].
  { injection Hrun as <- <-. exact H2. }
  destruct (processToolUsages _ _ _ _ _) as [[readNext err] st3] eqn:Hp.
  pose proof (P_process _ _ _ _ _ H2 Hp) as H3.
  destruct err as [e|]; injection Hrun as <- <-; exact H3.
Qed.

Lemma Run_loop_principle (rounds : nat) :
  forall (readUserInput : bool) (st : State W RawMessage),
    (if readUserInput then A st else R st) ->
    match fst (Run_loop a_tools getUserMessage client_Messages_New clock rate_error
                 rounds readUserInput st) return Prop with
    | Running true =>
        A (snd (Run_loop a_tools getUserMessage client_Messages_New clock rate_error
                  rounds readUserInput st))
    | Running false =>
        R (snd (Run_loop a_tools getUserMessage client_Messages_New clock rate_error
                  rounds readUserInput st))
    | Returned _ =>
        F (snd (Run_loop a_tools getUserMessage client_Messages_New clock rate_error
                  rounds readUserInput st))
    end.
Proof.
  induction rounds as [|rounds IH]; intros readUserInput st Hinv.
  - cbn. destruct readUserInput; exact Hinv.
  - cbn [Run_loop].
    destruct (Run_round _ _ _ _ _ _ _) as [step st'] eqn:Hround.
    pose proof (Run_round_principle _ _ _ _ Hround Hinv) as H1.
    destruct step as [[|]| |err]; cbn [fst snd]; try exact H1; now apply IH.
Qed.

Lemma Run_principle (rounds : nat) (lp : LoopProtection) (w : W) :
  A (set_loopProtection (set_SessionStartTime (clock O) lp)
       (snd (time_Now clock (initial lp w)))) ->
  match fst (Run a_tools getUserMessage client_Messages_New clock rate_error rounds lp w)
        return Prop with
  | Running true =>
      A (snd (Run a_tools getUserMessage client_Messages_New clock rate_error rounds lp w))
  | Running false =>
      R (snd (Run a_tools getUserMessage client_Messages_New clock rate_error rounds lp w))
  | Returned _ =>
      F (snd (Run a_tools getUserMessage client_Messages_New clock rate_error rounds lp w))
  end.
Proof.
  intros H0. unfold Run. cbn [time_Now initial ticks loopProtection].
  exact (Run_loop_principle rounds true _ H0).
Qed.

End RunPrinciple.

(* ===================================================================== *)
(** * The dispatch of tools in a run *)
(* ===================================================================== *)

Section DispatchInRun.
Import agent AgentSpec RunSpec.

Context {W RawMessage : Type}.
Variable a_tools : list (ToolDefinition W RawMessage).
Variable getUserMessage : nat -> string * bool.
Variable client_Messages_New : nat -> list (MessageParam RawMessage) -> error + Message RawMessage.
Variable clock : nat -> Z.
Variable rate_error : Z -> Z -> error.

Lemma dispatch_run_app (L : Z) (t b : list Event) (d : Dispatch) :
  dispatch_run L (t ++ b) d = dispatch_run L b (dispatch_run L t d).
Proof. apply fold_left_app. Qed.

Lemma dispatch_run_snoc (L : Z) (t : list Event) (e : Event) (d : Dispatch) :
  dispatch_run L (t ++ [e]) d = dispatch_step L (dispatch_run L t d) e.
Proof. now rewrite dispatch_run_app. Qed.

#[local] Arguments dispatch_run : simpl never.

(** One tool use takes the dispatch from [Ready] to [Ready], with one
    more run of [executeTool] only when the counter is within the
    limit. *)
Lemma process_tool_use_dispatch (L : Z) (id name : string) (input : RawMessage)
    (toolResults : list (ContentBlockParam RawMessage)) (st : State W RawMessage) :
  forall r st' n,
    process_tool_use a_tools clock rate_error id name input toolResults st = (r, st') ->
    MaxConsecutiveToolUses (loopProtection st) = L ->
    dispatch_run L (trace st) (Ready 0) = Ready n ->
    0 <= n <= Z.max 0 L -> n <= ConsecutiveToolUses (loopProtection st) ->
    MaxConsecutiveToolUses (loopProtection st') = L /\
    exists n',
      dispatch_run L (trace st') (Ready 0) = Ready n' /\
      0 <= n' <= Z.max 0 L /\ n' <= ConsecutiveToolUses (loopProtection st').
Proof.
  intros r st' n Hp HL Hrun Hn Hc.
  apply process_tool_use_spec in Hp as (_ & (HL' & _) & Hcnt & Hcase).
  split; [congruence|].
  destruct Hcase as [(err & _ & _ & Htr & _) | (Hle & result & ev & _ & _ & Htr & Hev)];
    rewrite Htr, dispatch_run_app, Hrun; unfold dispatch_run; cbn.
  - exists n. split; [reflexivity|]. lia.
  - exists (n + 1).
    assert ((n + 1 <=? L) = true) as Hb by (apply Z.leb_le; lia).
    destruct Hev as [-> | ->]; cbn; rewrite !String.eqb_refl, Hb; cbn;
      (split; [reflexivity | lia]).
Qed.

(** X10. Along the trace of a run, every dispatch attempt is answered
    by the very next event, which is its denial or the run of
    [executeTool] on the same invocation; no denial and no run of
    [executeTool] comes without its attempt; and between two resets of
    the counters [executeTool] runs at most MaxConsecutiveToolUses times
    (never, if that limit is negative). *)
Theorem dispatch_answers_every_attempt (rounds : nat) (lp : LoopProtection) (w : W) :
  exists n,
    dispatch_run (MaxConsecutiveToolUses lp)
      (trace (snd (Run a_tools getUserMessage client_Messages_New clock rate_error
                     rounds lp w)))
      (Ready 0) = Ready n /\
    0 <= n <= Z.max 0 (MaxConsecutiveToolUses lp).
Proof.
  set (L := MaxConsecutiveToolUses lp).
  pose (A := fun st : State W RawMessage =>
               MaxConsecutiveToolUses (loopProtection st) = L /\
               exists n, dispatch_run L (trace st) (Ready 0) = Ready n /\
                         0 <= n <= Z.max 0 L).
  pose (R := fun st : State W RawMessage =>
               MaxConsecutiveToolUses (loopProtection st) = L /\
               exists n, dispatch_run L (trace st) (Ready 0) = Ready n /\
                         0 <= n <= Z.max 0 L /\
                         n <= ConsecutiveToolUses (loopProtection st)).
  assert (forall st, R st -> A st) as HRA.
  { intros st (HL & n & Hrun & Hn & _). split; [exact HL|]. eauto. }
  assert (forall e st,
            (forall n, dispatch_step L (Ready n) e = Ready n) ->
            A st -> A (emit e st)) as HA_emit.
  { intros e st He (HL & n & Hrun & Hn). split; [exact HL|]. exists n.
    cbn [emit trace loopProtection].
    now rewrite dispatch_run_snoc, Hrun, He. }
  assert (forall e st,
            (forall n, dispatch_step L (Ready n) e = Ready n) ->
            R st -> R (emit e st)) as HR_emit.
  { intros e st He (HL & n & Hrun & Hn & Hc). split; [exact HL|]. exists n.
    cbn [emit trace loopProtection].
    now rewrite dispatch_run_snoc, Hrun, He. }
  pose proof (Run_principle a_tools getUserMessage client_Messages_New clock rate_error
                A R R A) as HP.
  assert (match fst (Run a_tools getUserMessage client_Messages_New clock rate_error
                       rounds lp w) return Prop with
          | Running true =>
              A (snd (Run a_tools getUserMessage client_Messages_New clock rate_error
                        rounds lp w))
          | Running false =>
              R (snd (Run a_tools getUserMessage client_Messages_New clock rate_error
                        rounds lp w))
          | Returned _ =>
              A (snd (Run a_tools getUserMessage client_Messages_New clock rate_error
                        rounds lp w))
          end) as Hfinal.
  { apply HP; clear HP.
    - intros st H. exact H.
    - intros st H. exact H.
    - intros st H. now apply HA_emit.
    - intros st H. apply HA_emit; [reflexivity | now apply HRA].
    - intros st ok st1 (HL & n & Hrun & Hn).
      unfold readUserInputToConversation, read_line. cbn.
      destruct (getUserMessage (inputs st)) as [userInput ok'].
      destruct ok'; cbn; intros [= <- <-]; (split; [exact HL|]); exists 0; cbn;
        rewrite !dispatch_run_snoc, Hrun; cbn; repeat split; lia.
    - intros st r st2 HR. unfold generateResponse. intros [= <- <-].
      destruct (client_Messages_New _ _) as [err|message].
      + apply HRA. now apply HR_emit.
      + apply (HR_emit (EvGenerate true)) in HR; [|reflexivity]. exact HR.
    - intros message st readNext err st3 HR Hproc.
      pose proof (processToolUsages_principle a_tools clock rate_error R (fun _ => A)) as HB.
      specialize (HB (fun text st => HR_emit (EvText text) st (fun _ => eq_refl))).
      assert (forall id name input toolResults st r st',
                R st ->
                process_tool_use a_tools clock rate_error id name input toolResults st
                = (r, st') ->
                match r with
                | inl (_, _) => A st'
                | inr _ => R st'
                end) as Htool.
      { intros id name input toolResults st0 r st' (HL & n & Hrun & Hn & Hc) Hp.
        pose proof (process_tool_use_dispatch L _ _ _ _ _ _ _ n Hp HL Hrun Hn Hc) as Hd.
        destruct r as [[b e]|results]; [apply HRA|]; exact Hd. }
      specialize (HB Htool message st readNext err st3 HR Hproc).
      destruct err as [e|].
      + now apply HA_emit.
      + destruct readNext; [now apply HRA|].
        destruct HB as (st1 & results & H1 & ->). exact H1.
    - split; [reflexivity|]. exists 0. cbn. split; [reflexivity | lia]. }
  destruct (fst (Run _ _ _ _ _ _ _ _)) as [[|]|err];
    [destruct Hfinal as (_ & n & Hrun & Hn)
    |destruct Hfinal as (_ & n & Hrun & Hn & _)
    |destruct Hfinal as (_ & n & Hrun & Hn)]; eauto.
Qed.

End DispatchInRun.

(* ===================================================================== *)
(** * The rate limit *)
(* ===================================================================== *)

Section RateLimit.
Import agent AgentSpec RunSpec.

Context {W RawMessage : Type}.
Variable a_tools : list (ToolDefinition W RawMessage).
Variable getUserMessage : nat -> string * bool.
Variable client_Messages_New : nat -> list (MessageParam RawMessage) -> error + Message RawMessage.
Variable clock : nat -> Z.
Variable rate_error : Z -> Z -> error.

Lemma executions_app (t b : list Event) :
  executions (t ++ b) = executions t + executions b.
Proof. unfold executions. rewrite List.filter_app, List.length_app. lia. Qed.

Lemma executions_snoc (t : list Event) (e : Event) :
  executions (t ++ [e]) = executions t + (if is_execution e then 1 else 0).
Proof. rewrite executions_app. unfold executions at 2. cbn. now destruct (is_execution e). Qed.

#[local] Arguments executions : simpl never.

(** One tool use, as the rate limit sees it.  When the use is denied for
    the consecutive-use limit, or the window is not older than a minute,
    the window stays and its count goes up by one, and [executeTool] runs
    only if the new count is below the maximum. *)
Lemma process_tool_use_rate (id name : string) (input : RawMessage)
    (toolResults : list (ContentBlockParam RawMessage)) (st : State W RawMessage) :
  forall r st',
    process_tool_use a_tools clock rate_error id name input toolResults st = (r, st') ->
    (MaxConsecutiveToolUses (loopProtection st)
       < ConsecutiveToolUses (loopProtection st) + 1 \/
     clock (ticks st) - ToolUseStartTime (loopProtection st) <= Minute) ->
    ToolUseStartTime (loopProtection st') = ToolUseStartTime (loopProtection st) /\
    ToolUseCount (loopProtection st') = ToolUseCount (loopProtection st) + 1 /\
    executions (trace st')
    = executions (trace st) + (match r with inl _ => 0 | inr _ => 1 end) /\
    (forall results, r = inr results ->
       ToolUseCount (loopProtection st) + 1 < MaxToolUsesPerMinute (loopProtection st)).
Proof.
  intros r st' Hp Hwin.
  assert (executions (trace st')
          = executions (trace st) + (match r with inl _ => 0 | inr _ => 1 end)) as Hex.
  { pose proof Hp as Hs.
    apply process_tool_use_spec in Hs as (_ & _ & _ & Hcase).
    destruct Hcase as [(err & -> & _ & Htr & _) | (_ & result & ev & -> & _ & Htr & Hev)];
      rewrite Htr, executions_app; unfold executions at 2; cbn; [lia|].
    destruct Hev as [-> | ->]; cbn; lia. }
  revert Hp. unfold process_tool_use. cbn.
  destruct (Z.ltb_spec (MaxConsecutiveToolUses (loopProtection st))
                       (ConsecutiveToolUses (loopProtection st) + 1)) as [Hc|Hc].
  { intros [= <- <-]. cbn. repeat split; try reflexivity; try exact Hex. discriminate. }
  destruct Hwin as [?|Hwin]; [lia|].
  destruct (Z.leb_spec (clock (ticks st) - ToolUseStartTime (loopProtection st)) Minute)
    as [_|?]; [|lia].
  destruct (Z.leb_spec (MaxToolUsesPerMinute (loopProtection st))
                       (ToolUseCount (loopProtection st) + 1)) as [Hr|Hr]; cbn [andb].
  { intros [= <- <-]. cbn. repeat split; try reflexivity; try exact Hex. discriminate. }
  destruct (Z.ltb_spec Minute (clock (ticks st) - ToolUseStartTime (loopProtection st)))
    as [?|_]; [lia|].
  cbn.
  destruct (String.eqb _ name); cbn;
    try destruct (_ <=? _); cbn;
    try (intros [= <- <-]; cbn; repeat split; try reflexivity; try exact Hex;
         discriminate);
    (destruct (executeTool _ _ _ _ _) as [result st2] eqn:He;
     intros [= <- <-];
     apply executeTool_spec in He as (_ & _ & Hlp & _);
     cbn in *; rewrite Hlp; cbn; repeat split; try reflexivity; try exact Hex;
     intros; exact Hr).
Qed.


(** X12. While the clock stays within a minute of the start of the
    rate window, the whole run makes fewer runs of [executeTool] than the
    per-minute maximum allows uses: with a window that starts empty, at
    most MaxToolUsesPerMinute - 1, because the use that brings the count
    to the maximum is itself denied, and denied uses are counted too. *)
Theorem rate_limit_bounds_executions (rounds : nat) (lp : LoopProtection) (w : W) :
  (forall t, clock t - ToolUseStartTime lp <= Minute) ->
  executions
    (trace (snd (Run a_tools getUserMessage client_Messages_New clock rate_error
                   rounds lp w)))
  <= Z.max 0 (MaxToolUsesPerMinute lp - 1 - ToolUseCount lp).
Proof.
  intros Hclock.
  set (M := MaxToolUsesPerMinute lp). set (c0 := ToolUseCount lp).
  set (T0 := ToolUseStartTime lp) in *.
  pose (K := fun st : State W RawMessage =>
               MaxToolUsesPerMinute (loopProtection st) = M /\
               ToolUseStartTime (loopProtection st) = T0 /\
               executions (trace st) + c0 <= ToolUseCount (loopProtection st) /\
               executions (trace st) <= Z.max 0 (M - 1 - c0)).
  assert (forall e st, is_execution e = false -> K st -> K (emit e st)) as HK_emit.
  { intros e st He (HM & HT & H1 & H2). unfold K. cbn [emit trace loopProtection].
    rewrite executions_snoc, He. repeat split; try assumption; lia. }
  pose proof (Run_principle a_tools getUserMessage client_Messages_New clock rate_error
                K K K K) as HP.
  assert (K (snd (Run a_tools getUserMessage client_Messages_New clock rate_error
                    rounds lp w))) as (_ & _ & _ & Hfinal).
  { assert (match fst (Run a_tools getUserMessage client_Messages_New clock rate_error
                         rounds lp w) return Prop with
            | Running true =>
                K (snd (Run a_tools getUserMessage client_Messages_New clock rate_error
                          rounds lp w))
            | Running false =>
                K (snd (Run a_tools getUserMessage client_Messages_New clock rate_error
                          rounds lp w))
            | Returned _ =>
                K (snd (Run a_tools getUserMessage client_Messages_New clock rate_error
                          rounds lp w))
            end) as H.
    2:{ destruct (fst (Run _ _ _ _ _ _ _ _)) as [[|]|err]; exact H. }
    apply HP; clear HP.
    - intros st H. exact H.
    - intros st H. exact H.
    - intros st H. now apply HK_emit.
    - intros st H. now apply HK_emit.
    - intros st ok st1 (HM & HT & H1 & H2).
      unfold readUserInputToConversation, read_line. cbn.
      destruct (getUserMessage (inputs st)) as [userInput ok'].
      destruct ok'; cbn; intros [= <- <-]; unfold K; cbn;
        rewrite !executions_snoc; cbn; repeat split; try assumption; lia.
    - intros st r st2 HK. unfold generateResponse. intros [= <- <-].
      destruct (client_Messages_New _ _) as [err|message].
      + now apply HK_emit.
      + apply (HK_emit (EvGenerate true)) in HK; [|reflexivity]. exact HK.
    - intros message st readNext err st3 HK Hproc.
      pose proof (processToolUsages_principle a_tools clock rate_error K (fun _ => K)) as HB.
      specialize (HB (fun text st => HK_emit (EvText text) st eq_refl)).
      assert (forall id name input toolResults st r st',
                K st ->
                process_tool_use a_tools clock rate_error id name input toolResults st
                = (r, st') ->
                match r with
                | inl (_, _) => K st'
                | inr _ => K st'
                end) as Htool.
      { intros id name input toolResults st0 r st' (HM & HT & H1 & H2) Hp.
        pose proof Hp as Hs.
        apply process_tool_use_spec in Hs as (_ & (_ & HM' & _) & _).
        apply process_tool_use_rate in Hp as (HT' & Hcnt & Hex & Hok).
        2:{ right. rewrite HT. apply Hclock. }
        assert (K st') as HK'.
        { unfold K. rewrite HM', HT', Hcnt, Hex.
          split; [exact HM|]. split; [exact HT|].
          destruct r as [[b e]|results]; [split; lia|].
          specialize (Hok results eq_refl). rewrite HM in Hok. split; lia. }
        destruct r as [[b e]|results]; exact HK'. }
      specialize (HB Htool message st readNext err st3 HK Hproc).
      destruct err as [e|].
      + now apply HK_emit.
      + destruct readNext; [exact HB|].
        destruct HB as (st1 & results & H1 & ->). exact H1.
    - unfold K. cbn. change (executions []) with 0.
      pose proof (Z.le_max_l 0 (M - 1 - c0)). repeat split; try reflexivity; lia. }
  exact Hfinal.
Qed.

End RateLimit.

(* ===================================================================== *)
(** * The conversation of a run *)
(* ===================================================================== *)

Section ConversationInRun.
Import agent AgentSpec RunSpec.

Context {W RawMessage : Type}.
Variable a_tools : list (ToolDefinition W RawMessage).
Variable getUserMessage : nat -> string * bool.
Variable clock : nat -> Z.
Variable rate_error : Z -> Z -> error.

Lemma alternates_snoc (conv : list (MessageParam RawMessage)) :
  forall r m,
    alternates r (conv ++ [m])
    = alternates r conv && has_role (if Nat.even (List.length conv) then r else other r) m.
Proof.
  induction conv as [|m0 conv IH]; intros r m.
  - cbn. now rewrite andb_true_r.
  - cbn [alternates List.app List.length]. rewrite IH, andb_assoc.
    rewrite Nat.even_succ, <- Nat.negb_even.
    destruct (Nat.even (List.length conv)); cbn [negb]; [reflexivity|].
    now destruct r.
Qed.

(** A user turn after an even number of alternating turns makes a
    request as it should be; an assistant turn after such a request makes
    an even number of alternating turns again. *)
Lemma request_after_user_turn (conv : list (MessageParam RawMessage))
    (blocks : list (ContentBlockParam RawMessage)) :
  alternates user conv = true -> Nat.even (List.length conv) = true ->
  request_ok (conv ++ [NewUserMessage blocks]) = true.
Proof.
  intros Ha He. unfold request_ok.
  rewrite alternates_snoc, Ha, He, List.length_app, Nat.add_1_r, Nat.odd_succ, He.
  reflexivity.
Qed.

Lemma even_after_assistant_turn (conv : list (MessageParam RawMessage))
    (message : Message RawMessage) :
  request_ok conv = true ->
  alternates user (conv ++ [ToParam message]) = true /\
  Nat.even (List.length (conv ++ [ToParam message])) = true.
Proof.
  unfold request_ok. intros [Ha Ho]%andb_true_iff.
  rewrite alternates_snoc, Ha, List.length_app, Nat.add_1_r, Nat.even_succ, Ho.
  rewrite <- Nat.negb_odd, Ho. split; reflexivity.
Qed.

Lemma conversation_after_read (st : State W RawMessage) :
  forall ok st1,
    alternates user (conversation st) = true ->
    Nat.even (List.length (conversation st)) = true ->
    readUserInputToConversation getUserMessage
      (emit EvReset
         (set_loopProtection
            (set_SameToolCallCount 0
               (set_LastToolName "" (set_ConsecutiveToolUses 0 (loopProtection st))))
            st)) = (ok, st1) ->
    if ok then request_ok (conversation st1) = true
    else alternates user (conversation st1) = true.
Proof.
  intros ok st1 Ha He. unfold readUserInputToConversation, read_line. cbn.
  destruct (getUserMessage (inputs st)) as [userInput ok'].
  destruct ok'; cbn; intros [= <- <-]; cbn; [|exact Ha].
  now apply request_after_user_turn.
Qed.

Lemma conversation_after_process (message : Message RawMessage) (st : State W RawMessage) :
  forall readNext err st3,
    alternates user (conversation st) = true ->
    Nat.even (List.length (conversation st)) = true ->
    processToolUsages a_tools clock rate_error message st = ((readNext, err), st3) ->
    match err with
    | Some _ =>
        alternates user (conversation st3) = true /\
        Nat.even (List.length (conversation st3)) = true
    | None =>
        if readNext then
          alternates user (conversation st3) = true /\
          Nat.even (List.length (conversation st3)) = true
        else request_ok (conversation st3) = true
    end.
Proof.
  intros readNext err st3 Ha He Hproc.
  pose proof (processToolUsages_principle a_tools clock rate_error
                (fun s : State W RawMessage => conversation s = conversation st)
                (fun _ s => conversation s = conversation st)) as HB.
  specialize (HB (fun text s H => H)).
  assert (forall id name input toolResults (s : State W RawMessage) r s',
            conversation s = conversation st ->
            process_tool_use a_tools clock rate_error id name input toolResults s = (r, s') ->
            match r with
            | inl (_, _) => conversation s' = conversation st
            | inr _ => conversation s' = conversation st
            end) as Htool.
  { intros id name input toolResults s r s' Hs Hp.
    apply process_tool_use_spec in Hp as (Hconv & _).
    destruct r as [[b e]|results]; congruence. }
  specialize (HB Htool message st readNext err st3 eq_refl Hproc).
  destruct err as [e|]; [rewrite HB; auto|].
  destruct readNext; [rewrite HB; auto|].
  destruct HB as (st1 & results & H1 & ->). cbn. rewrite H1.
  now apply request_after_user_turn.
Qed.

Lemma Run_round_conversation
    (client_Messages_New : nat -> list (MessageParam RawMessage) -> error + Message RawMessage)
    (readUserInput : bool) (st : State W RawMessage) :
  forall step st',
    Run_round a_tools getUserMessage client_Messages_New clock rate_error readUserInput st
      = (step, st') ->
    (if readUserInput
     then alternates user (conversation st) = true /\
          Nat.even (List.length (conversation st)) = true
     else request_ok (conversation st) = true) ->
    match step with
    | Continue true =>
        alternates user (conversation st') = true /\
        Nat.even (List.length (conversation st')) = true
    | Continue false => request_ok (conversation st') = true
    | _ => alternates user (conversation st') = true
    end.
Proof.
  intros step st' Hround Hinv.
  apply (Run_round_principle a_tools getUserMessage client_Messages_New clock rate_error
           (fun s => alternates user (conversation s) = true /\
                     Nat.even (List.length (conversation s)) = true)
           (fun s => request_ok (conversation s) = true)
           (fun s => alternates user (conversation s) = true /\
                     Nat.even (List.length (conversation s)) = true)
           (fun s => alternates user (conversation s) = true)
           ltac:(auto) ltac:(auto)) with (readUserInput := readUserInput) (st := st);
    try assumption.
  - intros s [Ha _]. exact Ha.
  - intros s [Ha _]%andb_true_iff. exact Ha.
  - intros s ok s1 [Ha He] Hread.
    exact (conversation_after_read s ok s1 Ha He Hread).
  - intros s r s2 HR. unfold generateResponse. intros [= <- <-].
    destruct (client_Messages_New _ _) as [err|message].
    + apply andb_true_iff in HR as [Ha _]. exact Ha.
    + exact (even_after_assistant_turn (conversation s) message HR).
  - intros message s readNext err s3 [Ha He] Hproc.
    exact (conversation_after_process message s readNext err s3 Ha He Hproc).
Qed.

Lemma Run_loop_conversation
    (client_Messages_New : nat -> list (MessageParam RawMessage) -> error + Message RawMessage)
    (rounds : nat) :
  forall (readUserInput : bool) (st : State W RawMessage),
    (if readUserInput
     then alternates user (conversation st) = true /\
          Nat.even (List.length (conversation st)) = true
     else request_ok (conversation st) = true) ->
    alternates user
      (conversation (snd (Run_loop a_tools getUserMessage client_Messages_New clock
                            rate_error rounds readUserInput st))) = true /\
    match fst (Run_loop a_tools getUserMessage client_Messages_New clock rate_error
                 rounds readUserInput st) return Prop with
    | Running true =>
        Nat.even
          (List.length
             (conversation (snd (Run_loop a_tools getUserMessage client_Messages_New clock
                                   rate_error rounds readUserInput st)))) = true
    | Running false =>
        request_ok
          (conversation (snd (Run_loop a_tools getUserMessage client_Messages_New clock
                                rate_error rounds readUserInput st))) = true
    | Returned _ => True
    end.
Proof.
  induction rounds as [|rounds IH]; intros readUserInput st Hinv.
  - cbn. destruct readUserInput.
    + destruct Hinv as [Ha He]. now split.
    + split; [|exact Hinv]. apply andb_true_iff in Hinv as [Ha _]. exact Ha.
  - cbn [Run_loop].
    destruct (Run_round _ _ _ _ _ _ _) as [step st'] eqn:Hround.
    pose proof (Run_round_conversation _ _ _ _ _ Hround Hinv) as H1.
    destruct step as [ru| |err]; cbn [fst snd]; [|split; [exact H1 | exact I] ..].
    apply IH. destruct ru; exact H1.
Qed.

(** X13. At every point between two rounds of a run, the conversation
    is made of user and assistant turns in turn, the user first.  When
    the next round is to read user input it ends with an assistant turn
    (or is empty); when the next round goes on without user input, it
    ends with the user turn that carries the tool results. *)
Theorem conversation_alternates
    (client_Messages_New : nat -> list (MessageParam RawMessage) -> error + Message RawMessage)
    (rounds : nat) (lp : LoopProtection) (w : W) :
  alternates user
    (conversation (snd (Run a_tools getUserMessage client_Messages_New clock rate_error
                          rounds lp w))) = true /\
  match fst (Run a_tools getUserMessage client_Messages_New clock rate_error rounds lp w)
        return Prop with
  | Running true =>
      Nat.even
        (List.length
           (conversation (snd (Run a_tools getUserMessage client_Messages_New clock
                                 rate_error rounds lp w)))) = true
  | Running false =>
      request_ok
        (conversation (snd (Run a_tools getUserMessage client_Messages_New clock
                              rate_error rounds lp w))) = true
  | Returned _ => True
  end.
Proof.
  unfold Run. cbn [time_Now initial ticks loopProtection].
  apply (Run_loop_conversation client_Messages_New rounds true). split; reflexivity.
Qed.

(** A round whose request is as it should be goes the same way with any
    client that answers such requests alike. *)
Lemma Run_round_same_client
    (client client' : nat -> list (MessageParam RawMessage) -> error + Message RawMessage)
    (readUserInput : bool) (st : State W RawMessage) :
  (forall n conv, request_ok conv = true -> client' n conv = client n conv) ->
  (if readUserInput
   then alternates user (conversation st) = true /\
        Nat.even (List.length (conversation st)) = true
   else request_ok (conversation st) = true) ->
  Run_round a_tools getUserMessage client' clock rate_error readUserInput st
  = Run_round a_tools getUserMessage client clock rate_error readUserInput st.
Proof.
  intros Hsame Hinv. unfold Run_round.
  destruct (time_Now clock st) as [now st0] eqn:Ht.
  assert (conversation st0 = conversation st) as Hconv
    by (unfold time_Now in Ht; now injection Ht as _ <-).
  rewrite <- Hconv in Hinv. clear Ht Hconv.
  destruct (_ <? _); [reflexivity|].
  match goal with
  | |- context [if readUserInput then ?x else ?y] =>
      assert (exists ok st1,
                (if readUserInput then x else y) = (ok, st1) /\
                (ok = true -> request_ok (conversation st1) = true))
        as (ok & st1 & Hstart & H1)
  end.
  { destruct readUserInput.
    - destruct Hinv as [Ha He].
      destruct (readUserInputToConversation _ _) as [ok st1] eqn:Hread.
      exists ok, st1. split; [reflexivity|]. intros ->.
      exact (conversation_after_read _ _ _ Ha He Hread).
    - eexists _, _. split; [reflexivity|]. intros _. exact Hinv. }
  rewrite Hstart. destruct ok; cbn [negb]; [|reflexivity].
  unfold generateResponse. now rewrite (Hsame _ _ (H1 eq_refl)).
Qed.

Lemma Run_loop_same_client
    (client client' : nat -> list (MessageParam RawMessage) -> error + Message RawMessage)
    (rounds : nat) :
  (forall n conv, request_ok conv = true -> client' n conv = client n conv) ->
  forall (readUserInput : bool) (st : State W RawMessage),
    (if readUserInput
     then alternates user (conversation st) = true /\
          Nat.even (List.length (conversation st)) = true
     else request_ok (conversation st) = true) ->
    Run_loop a_tools getUserMessage client' clock rate_error rounds readUserInput st
    = Run_loop a_tools getUserMessage client clock rate_error rounds readUserInput st.
Proof.
  intros Hsame.
  induction rounds as [|rounds IH]; intros readUserInput st Hinv; [reflexivity|].
  cbn [Run_loop]. rewrite (Run_round_same_client client client' _ _ Hsame Hinv).
  destruct (Run_round a_tools getUserMessage client clock rate_error readUserInput st)
    as [step st'] eqn:Hround.
  pose proof (Run_round_conversation _ _ _ _ _ Hround Hinv) as H1.
  destruct step as [ru| |err]; [|reflexivity ..].
  apply IH. destruct ru; exact H1.
Qed.

(** X14. The client is only ever asked with a conversation that is as
    a request should be (user and assistant in turn, the user first and
    last): a run goes exactly the same way, to the same status and the
    same state, with any other client that gives the same answers to
    such requests. *)
Theorem client_asked_well_formed_requests
    (client client' : nat -> list (MessageParam RawMessage) -> error + Message RawMessage)
    (rounds : nat) (lp : LoopProtection) (w : W) :
  (forall n conv, request_ok conv = true -> client' n conv = client n conv) ->
  Run a_tools getUserMessage client' clock rate_error rounds lp w
  = Run a_tools getUserMessage client clock rate_error rounds lp w.
Proof.
  intros Hsame. unfold Run. cbn [time_Now initial ticks loopProtection].
  apply (Run_loop_same_client client client' rounds Hsame true). split; reflexivity.
Qed.

End ConversationInRun.

(* ===================================================================== *)
(** * Finding and running a tool *)
(* ===================================================================== *)

Section Tools.
Import agent AgentSpec RunSpec ResponseSpec.

Context {W RawMessage : Type}.
Variable a_tools : list (ToolDefinition W RawMessage).
Variable clock : nat -> Z.
Variable rate_error : Z -> Z -> error.

Lemma findTool_in_none (l : list (ToolDefinition W RawMessage)) (name : string) :
  Forall (fun t => Name t <> name) l -> findTool_in l name = None.
Proof.
  induction 1 as [|t l Ht _ IH]; [reflexivity|].
  cbn. now rewrite (str_eqb_false _ _ Ht).
Qed.

Lemma findTool_in_first (pre post : list (ToolDefinition W RawMessage))
    (tool : ToolDefinition W RawMessage) (name : string) :
  Forall (fun t => Name t <> name) pre -> Name tool = name ->
  findTool_in (pre ++ tool :: post) name = Some tool.
Proof.
  intros Hpre Hname. induction Hpre as [|t l Ht _ IH]; cbn.
  - now rewrite Hname, String.eqb_refl.
  - now rewrite (str_eqb_false _ _ Ht).
Qed.

(** X15. Of the tools registered under a name, it is the first in the
    list that is run: [executeTool] records the call, runs the function
    of that tool on the input and the world, and gives back its answer,
    or the text of its error marked as an error; a later tool of the same
    name is never reached. *)
Theorem executeTool_runs_first_match (pre post : list (ToolDefinition W RawMessage))
    (tool : ToolDefinition W RawMessage) (id name : string) (input : RawMessage)
    (st : State W RawMessage) :
  a_tools = (pre ++ tool :: post)%list ->
  Forall (fun t => Name t <> name) pre -> Name tool = name ->
  executeTool a_tools id name input st
  = (match snd (fst (Function tool input (world st))) with
     | Some e => NewToolResultBlock id (Error e) true
     | None => NewToolResultBlock id (fst (fst (Function tool input (world st)))) false
     end,
     set_world (snd (Function tool input (world st))) (emit (EvCall id name) st)).
Proof.
  intros -> Hpre Hname. unfold executeTool, findTool.
  rewrite (findTool_in_first _ _ _ _ Hpre Hname). cbn [emit world].
  destruct (Function tool input (world st)) as [[response [e|]] w]; reflexivity.
Qed.

(** X16. A tool use that names no registered tool goes through the
    three checks like any other, and is counted by them; if it passes, no
    function is run: the result is the text "tool not found" marked as an
    error, and the world is as it was. *)
Theorem unknown_tool_not_found (id name : string) (input : RawMessage)
    (toolResults : list (ContentBlockParam RawMessage)) (st : State W RawMessage) :
  Forall (fun t => Name t <> name) a_tools ->
  world (snd (process_tool_use a_tools clock rate_error id name input toolResults st))
  = world st /\
  ConsecutiveToolUses
    (loopProtection
       (snd (process_tool_use a_tools clock rate_error id name input toolResults st)))
  = ConsecutiveToolUses (loopProtection st) + 1 /\
  ((exists err,
      fst (process_tool_use a_tools clock rate_error id name input toolResults st)
      = inl (true, err)) \/
   (fst (process_tool_use a_tools clock rate_error id name input toolResults st)
    = inr (toolResults ++ [NewToolResultBlock id "tool not found" true])%list /\
    exists pre,
      trace (snd (process_tool_use a_tools clock rate_error id name input toolResults st))
      = (pre ++ [EvNotFound id name])%list)).
Proof.
  intros Hnone.
  assert (forall s : State W RawMessage,
            executeTool a_tools id name input s
            = (NewToolResultBlock id "tool not found" true, emit (EvNotFound id name) s))
    as Hexec.
  { intros s. unfold executeTool, findTool. now rewrite (findTool_in_none _ _ Hnone). }
  unfold process_tool_use. cbn.
  destruct (_ <? _); [cbn; split; [reflexivity|]; split; [reflexivity|]; left; eauto|].
  destruct (_ && _); [cbn; split; [reflexivity|]; split; [reflexivity|]; left; eauto|].
  destruct (Minute <? _); cbn;
    destruct (String.eqb _ name); cbn;
    try destruct (_ <=? _); cbn;
    try (split; [reflexivity|]; split; [reflexivity|]; left; eauto; fail);
    rewrite Hexec; cbn; (split; [reflexivity|]); (split; [reflexivity|]); right;
    (split; [reflexivity|]); eauto.
Qed.

(** X17. A response without a tool use is only printed: its text
    blocks go to the trace in order, and nothing else happens.  The
    conversation, the loop protection with all its counters, the world
    and the clock are as they were, and the next round reads user
    input. *)
Theorem text_only_response (message : Message RawMessage) (st : State W RawMessage) :
  invocation_ids (Content message) = [] ->
  processToolUsages a_tools clock rate_error message st
  = ((true, None),
     {| conversation := conversation st; loopProtection := loopProtection st;
        world := world st; ticks := ticks st; inputs := inputs st;
        requests := requests st;
        trace := (trace st ++ printed_texts (Content message))%list |}).
Proof.
  intros Hno. unfold processToolUsages.
  assert (forall blocks (s : State W RawMessage) results has,
            invocation_ids blocks = [] ->
            process_blocks a_tools clock rate_error blocks results has s
            = (inr (results, has),
               {| conversation := conversation s; loopProtection := loopProtection s;
                  world := world s; ticks := ticks s; inputs := inputs s;
                  requests := requests s;
                  trace := (trace s ++ printed_texts blocks)%list |})) as Hblocks.
  { induction blocks as [|b blocks IH]; intros s results has Hids.
    - cbn. rewrite app_nil_r. now destruct s.
    - destruct b as [text|id name input|ty]; cbn in Hids |- *; [|discriminate|].
      + rewrite (IH _ _ _ Hids). cbn. now rewrite <- app_assoc.
      + now rewrite (IH _ _ _ Hids). }
  now rewrite (Hblocks _ _ _ _ Hno).
Qed.

End Tools.

(* ===================================================================== *)
(** * The session: where it starts and that it ends *)
(* ===================================================================== *)

Section Session.
Import agent AgentSpec RunSpec.

Context {W RawMessage : Type}.
Variable a_tools : list (ToolDefinition W RawMessage).
Variable getUserMessage : nat -> string * bool.
Variable client_Messages_New : nat -> list (MessageParam RawMessage) -> error + Message RawMessage.
Variable clock : nat -> Z.
Variable rate_error : Z -> Z -> error.

(** X18. A run does not depend on the session start, the
    consecutive-use counter, the last tool or its streak that the loop
    protection holds when [Run] is called: the session starts at the
    first reading of the clock in [Run], and the other three are reset
    before the first response is processed.  Two agents configured alike
    run to the same status, trace, conversation and world. *)
Theorem run_ignores_initial_tracking (rounds : nat) (lp lp' : LoopProtection) (w : W) :
  configured_alike lp lp' ->
  fst (Run a_tools getUserMessage client_Messages_New clock rate_error rounds lp' w)
  = fst (Run a_tools getUserMessage client_Messages_New clock rate_error rounds lp w) /\
  trace (snd (Run a_tools getUserMessage client_Messages_New clock rate_error rounds lp' w))
  = trace (snd (Run a_tools getUserMessage client_Messages_New clock rate_error
                  rounds lp w)) /\
  conversation
    (snd (Run a_tools getUserMessage client_Messages_New clock rate_error rounds lp' w))
  = conversation
      (snd (Run a_tools getUserMessage client_Messages_New clock rate_error rounds lp w)) /\
  world (snd (Run a_tools getUserMessage client_Messages_New clock rate_error rounds lp' w))
  = world (snd (Run a_tools getUserMessage client_Messages_New clock rate_error
                  rounds lp w)).
Proof.
  intros (H1 & H2 & H3 & H4 & H5 & H6).
  destruct lp, lp'. cbn in H1, H2, H3, H4, H5, H6. subst.
  unfold Run. destruct rounds as [|rounds]; [cbn; auto|].
  cbn [Run_loop]. unfold Run_round, time_Now. cbn.
  destruct (_ <? _); [cbn; auto|].
  auto.
Qed.

Lemma executeTool_ticks (id name : string) (input : RawMessage) (st : State W RawMessage) :
  ticks (snd (executeTool a_tools id name input st)) = ticks st.
Proof.
  unfold executeTool. destruct (findTool a_tools name) as [toolDef|]; [|reflexivity].
  cbn. now destruct (Function toolDef input (world st)) as [[response [e|]] w].
Qed.

Lemma process_tool_use_ticks (id name : string) (input : RawMessage)
    (toolResults : list (ContentBlockParam RawMessage)) (st : State W RawMessage) :
  (ticks st
   <= ticks (snd (process_tool_use a_tools clock rate_error id name input toolResults st)))%nat.
Proof.
  unfold process_tool_use. cbn.
  destruct (_ <? _); [cbn; lia|].
  destruct (_ && _); [cbn; lia|].
  destruct (Minute <? _); cbn;
    destruct (String.eqb _ name); cbn;
    try destruct (_ <=? _); cbn; try lia;
    match goal with
    | |- context [executeTool a_tools id name input ?s] =>
        pose proof (executeTool_ticks id name input s) as Ht;
        destruct (executeTool a_tools id name input s) as [result st2]
    end; cbn in *; lia.
Qed.

(** A round that does not end the run reads the clock at least once, and
    leaves the session start and the session limit as they are. *)
Lemma Run_round_ticks (readUserInput : bool) (st : State W RawMessage) :
  forall next st',
    Run_round a_tools getUserMessage client_Messages_New clock rate_error readUserInput st
    = (Continue next, st') ->
    (S (ticks st) <= ticks st')%nat /\
    SessionStartTime (loopProtection st') = SessionStartTime (loopProtection st) /\
    MaxSessionDuration (loopProtection st') = MaxSessionDuration (loopProtection st) /\
    ~ MaxSessionDuration (loopProtection st)
      < clock (ticks st) - SessionStartTime (loopProtection st).
Proof.
  intros next st'. unfold Run_round, time_Now. cbn [loopProtection].
  destruct (Z.ltb_spec (MaxSessionDuration (loopProtection st))
                       (clock (ticks st) - SessionStartTime (loopProtection st)))
    as [?|Hle]; [discriminate|].
  match goal with
  | |- context [if readUserInput then ?x else (true, ?s0)] =>
      assert (forall ok st1,
                (if readUserInput then x else (true, s0)) = (ok, st1) ->
                ticks st1 = S (ticks st) /\
                SessionStartTime (loopProtection st1) = SessionStartTime (loopProtection st) /\
                MaxSessionDuration (loopProtection st1)
                = MaxSessionDuration (loopProtection st)) as Hstart;
      [|destruct (if readUserInput then x else (true, s0)) as [ok st1] eqn:E;
        specialize (Hstart ok st1 eq_refl)]
  end.
  { intros ok st1. destruct readUserInput.
    - unfold readUserInputToConversation, read_line. cbn.
      destruct (getUserMessage (inputs st)) as [userInput ok'].
      destruct ok'; cbn; intros [= <- <-]; cbn; auto.
    - intros [= <- <-]. cbn. auto. }
  destruct Hstart as (Ht1 & Hs1 & Hm1).
  destruct ok; cbn [negb]; [|discriminate].
  unfold generateResponse.
  destruct (client_Messages_New _ _) as [err|message]; [discriminate|].
  destruct (processToolUsages _ _ _ _ _) as [[readNext err] st3] eqn:Hp.
  assert ((S (ticks st) <= ticks st3)%nat) as Ht3.
  { pose proof (processToolUsages_principle a_tools clock rate_error
                  (fun s : State W RawMessage => (S (ticks st) <= ticks s)%nat)
                  (fun _ s => (S (ticks st) <= ticks s)%nat)) as HB.
    specialize (HB (fun text s H => H)).
    assert (forall id name input toolResults (s : State W RawMessage) r s',
              (S (ticks st) <= ticks s)%nat ->
              process_tool_use a_tools clock rate_error id name input toolResults s
              = (r, s') ->
              match r with
              | inl (_, _) => (S (ticks st) <= ticks s')%nat
              | inr _ => (S (ticks st) <= ticks s')%nat
              end) as Htool.
    { intros id name input toolResults s r s' Hs Hpu.
      pose proof (process_tool_use_ticks id name input toolResults s) as Hmono.
      rewrite Hpu in Hmono. cbn in Hmono. destruct r as [[b e]|results]; lia. }
    match type of Hp with
    | processToolUsages _ _ _ ?m ?s = _ =>
        assert ((S (ticks st) <= ticks s)%nat) as Hs0 by (cbn; lia);
        specialize (HB Htool m s _ _ _ Hs0 Hp)
    end.
    destruct err as [e|]; [exact HB|]. destruct readNext; [exact HB|].
    destruct HB as (s1 & results & H1 & ->). exact H1. }
  apply processToolUsages_spec in Hp as ((_ & _ & Hm3 & _ & Hs3) & _).
  cbn in Hm3, Hs3.
  destruct err as [e|]; intros [= <- <-]; cbn; repeat split; try congruence; lia.
Qed.

Lemma Run_loop_returns (rounds : nat) :
  (forall t, clock t <= clock (S t)) ->
  forall (readUserInput : bool) (st : State W RawMessage),
    (0 < rounds)%nat ->
    MaxSessionDuration (loopProtection st)
      < clock (ticks st + rounds - 1) - SessionStartTime (loopProtection st) ->
    exists err,
      fst (Run_loop a_tools getUserMessage client_Messages_New clock rate_error
             rounds readUserInput st) = Returned err.
Proof.
  intros Hmono.
  assert (forall a b, (a <= b)%nat -> clock a <= clock b) as Hle.
  { intros a b Hab. induction Hab as [|b _ IH]; [lia|]. specialize (Hmono b). lia. }
  induction rounds as [|rounds IH]; intros readUserInput st Hpos Hlate; [lia|].
  cbn [Run_loop].
  destruct (Run_round _ _ _ _ _ _ _) as [step st'] eqn:Hround.
  destruct step as [next| |err]; cbn [fst]; eauto.
  apply Run_round_ticks in Hround as (Ht & Hs & Hm & Hnot).
  destruct rounds as [|rounds].
  - exfalso. apply Hnot. replace (ticks st + 1 - 1)%nat with (ticks st) in Hlate by lia.
    exact Hlate.
  - apply IH; [lia|]. rewrite Hs, Hm.
    pose proof (Hle (ticks st + S (S rounds) - 1)%nat (ticks st' + S rounds - 1)%nat
                  ltac:(lia)).
    lia.
Qed.

(** X19. The session limit ends every run.  With a clock that does not
    go backwards, if the n-th reading of the clock after the one that
    starts the session is more than MaxSessionDuration later than it,
    then [Run] has returned after at most n rounds of its loop, whatever
    the user, the client and the tools do. *)
Theorem session_limit_ends_run (rounds : nat) (lp : LoopProtection) (w : W) :
  (forall t, clock t <= clock (S t)) ->
  (0 < rounds)%nat ->
  MaxSessionDuration lp < clock rounds - clock O ->
  exists err,
    fst (Run a_tools getUserMessage client_Messages_New clock rate_error rounds lp w)
    = Returned err.
Proof.
  intros Hmono Hpos Hlate. unfold Run. cbn [time_Now initial ticks loopProtection].
  apply Run_loop_returns; [exact Hmono | exact Hpos |].
  cbn. now rewrite Nat.sub_0_r.
Qed.

End Session.

(* ===================================================================== *)
(** * The action limiter *)
(* ===================================================================== *)

Section LimiterCounters.
Import action_limiter LimiterSpec.

Lemma total_empty : total ∅ = 0.
Proof. unfold total. apply map_fold_empty. Qed.

Lemma total_insert_new (m : gmap string Z) (k : string) (c : Z) :
  m !! k = None -> total (<[k := c]> m) = c + total m.
Proof.
  intros Hk. unfold total. apply map_fold_insert_L; [|exact Hk].
  intros. lia.
Qed.

Lemma total_delete (m : gmap string Z) (k : string) (c : Z) :
  m !! k = Some c -> total m = c + total (delete k m).
Proof.
  intros Hk. unfold total. apply (map_fold_delete_L _ _ k c m); [|exact Hk].
  intros. lia.
Qed.

(** [m[k]++] adds one to the sum of the counters. *)
Lemma total_increment (m : gmap string Z) (k : string) :
  total (increment m k) = total m + 1.
Proof.
  unfold increment, count_of. destruct (m !! k) as [c|] eqn:Hk; cbn.
  - rewrite (total_delete m k c Hk), <- insert_delete_eq.
    rewrite total_insert_new by apply lookup_delete_eq. lia.
  - rewrite total_insert_new by exact Hk. lia.
Qed.

Lemma count_of_increment (m : gmap string Z) (k k' : string) :
  count_of (increment m k) k' = if decide (k' = k) then count_of m k + 1 else count_of m k'.
Proof.
  unfold increment, count_of at 1. destruct (decide (k' = k)) as [->|Hne].
  - now rewrite lookup_insert_eq.
  - now rewrite lookup_insert_ne by congruence.
Qed.

End LimiterCounters.

Section Limiter.
Import action_limiter LimiterSpec.

Variable clock : nat -> Z.
Variable map_range : nat -> gmap string Z -> list (string * Z).
Variable fmt_seconds : Z -> string.
Variable fmt_minutes : Z -> string.
Context {RawMessage : Type}.
Variable json_Unmarshal : RawMessage -> error + ActionLimiterInput.
Variable json_MarshalIndent : ActionStats -> error + string.

Lemma make_stats_eq (l : Limiter) :
  make_stats clock l
  = {| stats := fresh_stats (clock (ticks l)) (clock (S (ticks l)));
       isInitialized := isInitialized l; ticks := S (S (ticks l)); ranges := ranges l |}.
Proof. reflexivity. Qed.

Lemma initializeStats_initialized (l : Limiter) :
  isInitialized (initializeStats clock l) = true.
Proof. unfold initializeStats. destruct (isInitialized l) eqn:E; [exact E | reflexivity]. Qed.

(** [checkLimits] changes no counter. *)
Lemma checkLimits_stats (l : Limiter) :
  stats (snd (checkLimits clock map_range fmt_seconds fmt_minutes l)) = stats l /\
  isInitialized (snd (checkLimits clock map_range fmt_seconds fmt_minutes l))
  = isInitialized l.
Proof.
  unfold checkLimits.
  destruct (negb (isInitialized l)); [now split|].
  destruct (50 <=? _); [now split|].
  destruct (List.find _ _) as [[target count]|]; [now split|].
  cbn [stats]. destruct (5 <=? _); [now split|].
  cbn. destruct (_ && _); [now split|]. destruct (_ <? _); now split.
Qed.

(** What is known when [checkLimits] has found no limit exceeded. *)
Lemma checkLimits_passed (l l1 : Limiter) (reason : string) :
  checkLimits clock map_range fmt_seconds fmt_minutes l = ((false, reason), l1) ->
  isInitialized l = true ->
  TotalActions (stats l) < 50 /\
  List.find (fun entry : string * Z => 10 <=? snd entry)
    (map_range (ranges l) (ActionsByTarget (stats l))) = None /\
  ConsecutiveSame (stats l) < 5 /\
  ~ (10 < TotalActions (stats l) /\
     clock (ticks l) - StartTime (stats l) < 5 * Second) /\
  clock (ticks l) - StartTime (stats l) <= 5 * Minute.
Proof.
  unfold checkLimits. intros H Hinit. rewrite Hinit in H. cbn [negb] in H.
  destruct (Z.leb_spec 50 (TotalActions (stats l))) as [?|Ht]; [discriminate|].
  destruct (List.find _ _) as [[target count]|] eqn:Hfind; [discriminate|].
  cbn [stats] in H.
  destruct (Z.leb_spec 5 (ConsecutiveSame (stats l))) as [?|Hc]; [discriminate|].
  cbn in H.
  destruct (Z.ltb_spec 10 (TotalActions (stats l))) as [H10|H10];
    destruct (Z.ltb_spec (clock (ticks l) - StartTime (stats l)) (5 * Second)) as [Hs|Hs];
    cbn [andb] in H; try discriminate;
    (destruct (Z.ltb_spec (5 * Minute) (clock (ticks l) - StartTime (stats l)))
       as [?|Hm]; [discriminate|]);
    repeat split; try assumption; lia.
Qed.

Lemma find_none_all_below (order : list (string * Z)) (k : string) (c : Z) :
  List.find (fun entry : string * Z => 10 <=? snd entry) order = None ->
  In (k, c) order -> c < 10.
Proof.
  intros Hfind Hin. pose proof (List.find_none _ _ Hfind _ Hin) as H. cbn in H.
  now apply Z.leb_gt.
Qed.

Lemma recordAction_stats (action target : string) (l : Limiter) :
  isInitialized l = true ->
  stats (recordAction clock action target l)
  = {| TotalActions := TotalActions (stats l) + 1;
       ActionsByType := increment (ActionsByType (stats l)) action;
       ActionsByTarget := increment (ActionsByTarget (stats l)) target;
       ActionsByTypePath :=
         <[action := increment (default ∅ (ActionsByTypePath (stats l) !! action)) target]>
           (ActionsByTypePath (stats l));
       StartTime := StartTime (stats l);
       LastActionTime := clock (ticks l);
       ConsecutiveSame :=
         (if String.eqb action (LastAction (stats l)) &&
             String.eqb target (LastTarget (stats l))
          then ConsecutiveSame (stats l) + 1 else 1);
       LastAction := action;
       LastTarget := target |} /\
  isInitialized (recordAction clock action target l) = true.
Proof. intros Hinit. unfold recordAction. rewrite Hinit. cbn. now split. Qed.

(** A property of the counters that holds of fresh statistics, and that
    recording an action keeps whenever [checkLimits] has let the action
    through, holds after every call of the tool. *)
Lemma ActionLimiter_preserves (P : ActionStats -> bool -> Prop) :
  (forall t, P (fresh_stats (clock t) (clock (S t))) true) ->
  (forall l l1 reason action target,
     isInitialized l = true -> P (stats l) true ->
     checkLimits clock map_range fmt_seconds fmt_minutes l = ((false, reason), l1) ->
     P (stats (recordAction clock action target l1)) true) ->
  forall input l,
    P (stats l) (isInitialized l) ->
    P (stats (snd (ActionLimiter clock map_range fmt_seconds fmt_minutes RawMessage
                     json_Unmarshal json_MarshalIndent input l)))
      (isInitialized
         (snd (ActionLimiter clock map_range fmt_seconds fmt_minutes RawMessage
                 json_Unmarshal json_MarshalIndent input l))).
Proof.
  intros Hfresh Hrecord input l HP. unfold ActionLimiter.
  destruct (json_Unmarshal input) as [e|inp]; [exact HP|].
  assert (P (stats (initializeStats clock l)) true /\
          isInitialized (initializeStats clock l) = true) as [HP0 Hinit0].
  { unfold initializeStats. destruct (isInitialized l) eqn:E; cbn [negb].
    - now split.
    - split; [apply Hfresh | reflexivity]. }
  set (l0 := initializeStats clock l) in *. clearbody l0. clear HP.
  destruct (ResetState inp).
  { cbn [snd]. unfold resetStats. rewrite make_stats_eq. cbn. rewrite Hinit0. apply Hfresh. }
  destruct (checkLimits clock map_range fmt_seconds fmt_minutes l0)
    as [[exceeded reason] l1] eqn:Hcheck.
  pose proof (checkLimits_stats l0) as [Hs1 Hi1]. rewrite Hcheck in Hs1, Hi1.
  cbn [snd] in Hs1, Hi1.
  destruct exceeded.
  { cbn [snd]. now rewrite Hs1, Hi1, Hinit0. }
  assert (P (stats (if negb (CheckOnly inp) && negb (String.eqb (Action inp) "")
                    then recordAction clock (Action inp) (Target inp) l1 else l1))
            (isInitialized
               (if negb (CheckOnly inp) && negb (String.eqb (Action inp) "")
                then recordAction clock (Action inp) (Target inp) l1 else l1))) as HP2.
  { destruct (_ && _).
    - rewrite (proj2 (recordAction_stats _ _ l1 ltac:(congruence))).
      exact (Hrecord l0 l1 reason _ _ Hinit0 HP0 Hcheck).
    - now rewrite Hs1, Hi1, Hinit0. }
  destruct (json_MarshalIndent _); exact HP2.
Qed.

Lemma after_calls_preserves (P : ActionStats -> bool -> Prop) :
  (forall t, P (fresh_stats (clock t) (clock (S t))) true) ->
  (forall l l1 reason action target,
     isInitialized l = true -> P (stats l) true ->
     checkLimits clock map_range fmt_seconds fmt_minutes l = ((false, reason), l1) ->
     P (stats (recordAction clock action target l1)) true) ->
  forall inputs l,
    P (stats l) (isInitialized l) ->
    P (stats (after_calls
                (ActionLimiter clock map_range fmt_seconds fmt_minutes RawMessage
                   json_Unmarshal json_MarshalIndent) inputs l))
      (isInitialized
         (after_calls
            (ActionLimiter clock map_range fmt_seconds fmt_minutes RawMessage
               json_Unmarshal json_MarshalIndent) inputs l)).
Proof.
  intros Hfresh Hrecord. induction inputs as [|input inputs IH]; intros l HP; [exact HP|].
  cbn [after_calls List.fold_left]. apply IH.
  now apply ActionLimiter_preserves.
Qed.

Lemma fresh_within_limits (now1 now2 : Z) : within_limits (fresh_stats now1 now2).
Proof.
  unfold within_limits. cbn. split; [lia|]. split; [lia|].
  intros k c Hk. now rewrite lookup_empty in Hk.
Qed.

Lemma fresh_adds_up (now1 now2 : Z) : adds_up (fresh_stats now1 now2).
Proof.
  unfold adds_up. cbn. rewrite total_empty.
  split; [reflexivity|]. split; [reflexivity|]. intros action. unfold count_of.
  rewrite !lookup_empty. cbn. symmetry. apply total_empty.
Qed.

(** Recording an action that [checkLimits] has let through keeps the
    counters within the limits. *)
Lemma recordAction_within_limits :
  visits_all map_range ->
  forall l l1 reason action target,
    isInitialized l = true -> within_limits (stats l) ->
    checkLimits clock map_range fmt_seconds fmt_minutes l = ((false, reason), l1) ->
    within_limits (stats (recordAction clock action target l1)).
Proof.
  intros Hvisits l l1 reason action target Hinit (Ht & Hc & Htargets) Hcheck.
  pose proof (checkLimits_stats l) as [Hs1 Hi1]. rewrite Hcheck in Hs1, Hi1.
  cbn [snd] in Hs1, Hi1.
  apply checkLimits_passed in Hcheck as (Ht50 & Hfind & Hc5 & _); [|exact Hinit].
  rewrite (proj1 (recordAction_stats action target l1 ltac:(congruence))), Hs1.
  unfold within_limits. cbn. split; [lia|]. split.
  - destruct (_ && _); lia.
  - intros k c. unfold increment, count_of.
    destruct (decide (k = target)) as [->|Hne].
    + rewrite lookup_insert_eq. intros [= <-].
      destruct (ActionsByTarget (stats l) !! target) as [c0|] eqn:Hk; cbn; [|lia].
      pose proof (Htargets _ _ Hk).
      pose proof (find_none_all_below _ _ _ Hfind (Hvisits _ _ _ _ Hk)). lia.
    + rewrite lookup_insert_ne by congruence. apply Htargets.
Qed.

(** Recording an action keeps the sums. *)
Lemma recordAction_adds_up (l l1 : Limiter) (reason action target : string) :
  isInitialized l = true -> adds_up (stats l) ->
  checkLimits clock map_range fmt_seconds fmt_minutes l = ((false, reason), l1) ->
  adds_up (stats (recordAction clock action target l1)).
Proof.
  intros Hinit (H1 & H2 & H3) Hcheck.
  pose proof (checkLimits_stats l) as [Hs1 Hi1]. rewrite Hcheck in Hs1, Hi1.
  cbn [snd] in Hs1, Hi1.
  rewrite (proj1 (recordAction_stats action target l1 ltac:(congruence))), Hs1.
  unfold adds_up. cbn. rewrite !total_increment. split; [lia|]. split; [lia|].
  intros a. rewrite count_of_increment. destruct (decide (a = action)) as [->|Hne].
  - rewrite lookup_insert_eq. cbn. rewrite total_increment. now rewrite H3.
  - rewrite lookup_insert_ne by congruence. apply H3.
Qed.

(** X20. Whatever calls are made of the tool, from the start of the
    program on, the counters stay within the limits it enforces, provided
    a range over the map of targets visits every entry: the total is at
    most 50, the streak of identical actions at most 5, and no target is
    counted more than 10 times. *)
Theorem limiter_stays_within_limits (inputs : list RawMessage) :
  visits_all map_range ->
  within_limits
    (stats (after_calls
              (ActionLimiter clock map_range fmt_seconds fmt_minutes RawMessage
                 json_Unmarshal json_MarshalIndent) inputs zero)).
Proof.
  intros Hvisits.
  apply (after_calls_preserves (fun s _ => within_limits s)).
  - intros t. apply fresh_within_limits.
  - now apply recordAction_within_limits.
  - exact (fresh_within_limits 0 0).
Qed.

(** X21. Whatever calls are made of the tool, from the start of the
    program on, its counters add up: the total is the sum of the counts
    by action type and also the sum of the counts by target, and the
    count of an action type is the sum of the counts of that type by
    target. *)
Theorem limiter_counters_add_up (inputs : list RawMessage) :
  adds_up
    (stats (after_calls
              (ActionLimiter clock map_range fmt_seconds fmt_minutes RawMessage
                 json_Unmarshal json_MarshalIndent) inputs zero)).
Proof.
  apply (after_calls_preserves (fun s _ => adds_up s)).
  - intros t. apply fresh_adds_up.
  - intros l l1 reason action target. apply recordAction_adds_up.
  - exact (fresh_adds_up 0 0).
Qed.

(** X22. Once a count limit is reached (50 actions in all, 10 on one
    target, or 5 identical actions in a row), every call that does not
    ask for a reset is answered "Action limit exceeded", whatever action
    it is about and also when it only checks, and it changes no counter:
    only a reset lifts the limit. *)
Theorem count_limit_blocks_until_reset (input : RawMessage) (inp : ActionLimiterInput)
    (l : Limiter) :
  visits_all map_range ->
  isInitialized l = true ->
  count_limit_reached (stats l) ->
  json_Unmarshal input = inr inp -> ResetState inp = false ->
  exists reason,
    fst (ActionLimiter clock map_range fmt_seconds fmt_minutes RawMessage
           json_Unmarshal json_MarshalIndent input l)
    = ("Action limit exceeded: " ++ reason, None) /\
    stats (snd (ActionLimiter clock map_range fmt_seconds fmt_minutes RawMessage
                  json_Unmarshal json_MarshalIndent input l))
    = stats l.
Proof.
  intros Hvisits Hinit Hreached Hj Hreset. unfold ActionLimiter.
  rewrite Hj, Hreset. unfold initializeStats. rewrite Hinit. cbn [negb].
  destruct (checkLimits clock map_range fmt_seconds fmt_minutes l)
    as [[exceeded reason] l1] eqn:Hcheck.
  pose proof (checkLimits_stats l) as [Hs1 _]. rewrite Hcheck in Hs1. cbn [snd] in Hs1.
  destruct exceeded; [exists reason; now split|].
  exfalso.
  apply checkLimits_passed in Hcheck as (Ht50 & Hfind & Hc5 & _); [|exact Hinit].
  destruct Hreached as [?|[(k & c & Hk & Hc)|?]]; [lia| |lia].
  pose proof (find_none_all_below _ _ _ Hfind (Hvisits _ _ _ _ Hk)). lia.
Qed.

(** X23. A call that asks for a reset is served before any limit is
    looked at: it answers "Action stats reset successfully" and leaves
    fresh statistics (no action counted, empty maps, no last action)
    whose start is a reading of the clock made in that call, whatever the
    state was and whatever else the call asks for. *)
Theorem reset_clears_everything (input : RawMessage) (inp : ActionLimiterInput)
    (l : Limiter) :
  json_Unmarshal input = inr inp -> ResetState inp = true ->
  fst (ActionLimiter clock map_range fmt_seconds fmt_minutes RawMessage
         json_Unmarshal json_MarshalIndent input l)
  = ("Action stats reset successfully", None) /\
  isInitialized (snd (ActionLimiter clock map_range fmt_seconds fmt_minutes RawMessage
                        json_Unmarshal json_MarshalIndent input l)) = true /\
  exists t,
    (ticks l <= t)%nat /\
    stats (snd (ActionLimiter clock map_range fmt_seconds fmt_minutes RawMessage
                  json_Unmarshal json_MarshalIndent input l))
    = fresh_stats (clock t) (clock (S t)).
Proof.
  intros Hj Hreset. unfold ActionLimiter. rewrite Hj, Hreset. cbn [fst snd].
  split; [reflexivity|]. unfold resetStats. rewrite make_stats_eq. cbn [isInitialized stats].
  split; [apply initializeStats_initialized|].
  exists (ticks (initializeStats clock l)). split; [|reflexivity].
  unfold initializeStats. destruct (isInitialized l); cbn; lia.
Qed.

(** X24. A call that only checks, or that names no action, records
    nothing: on a limiter that is initialized it leaves every counter as
    it was, whether the limits are exceeded or not. *)
Theorem check_only_records_nothing (input : RawMessage) (inp : ActionLimiterInput)
    (l : Limiter) :
  isInitialized l = true ->
  json_Unmarshal input = inr inp -> ResetState inp = false ->
  CheckOnly inp = true \/ Action inp = "" ->
  stats (snd (ActionLimiter clock map_range fmt_seconds fmt_minutes RawMessage
                json_Unmarshal json_MarshalIndent input l))
  = stats l.
Proof.
  intros Hinit Hj Hreset Hcheck_only. unfold ActionLimiter.
  rewrite Hj, Hreset. unfold initializeStats. rewrite Hinit. cbn [negb].
  destruct (checkLimits clock map_range fmt_seconds fmt_minutes l)
    as [[exceeded reason] l1] eqn:Hcheck.
  pose proof (checkLimits_stats l) as [Hs1 _]. rewrite Hcheck in Hs1. cbn [snd] in Hs1.
  destruct exceeded; [exact Hs1|].
  assert (negb (CheckOnly inp) && negb (String.eqb (Action inp) "") = false) as ->.
  { destruct Hcheck_only as [-> | ->]; [reflexivity|]. cbn. apply andb_false_r. }
  destruct (json_MarshalIndent _); exact Hs1.
Qed.

(** X25. The rule against rapid actions lets eleven through, not ten:
    while every reading of the clock is within five seconds of every
    other, the total of recorded actions never goes beyond 11, whatever
    calls are made; an action is refused only once more than 10 are
    recorded. *)
Theorem rapid_actions_capped (inputs : list RawMessage) :
  (forall i j, clock j - clock i < 5 * Second) ->
  TotalActions
    (stats (after_calls
              (ActionLimiter clock map_range fmt_seconds fmt_minutes RawMessage
                 json_Unmarshal json_MarshalIndent) inputs zero)) <= 11.
Proof.
  intros Hclock.
  pose (P := fun (s : ActionStats) (init : bool) =>
               TotalActions s <= 11 /\ (init = true -> exists i, StartTime s = clock i)).
  assert (P (stats (after_calls
                      (ActionLimiter clock map_range fmt_seconds fmt_minutes RawMessage
                         json_Unmarshal json_MarshalIndent) inputs zero))
            (isInitialized
               (after_calls
                  (ActionLimiter clock map_range fmt_seconds fmt_minutes RawMessage
                     json_Unmarshal json_MarshalIndent) inputs zero))) as [H _].
  2:{ exact H. }
  apply (after_calls_preserves P).
  - intros t. unfold P. cbn. split; [lia | eauto].
  - intros l l1 reason action target Hinit [Ht Hstart] Hcheck.
    pose proof (checkLimits_stats l) as [Hs1 Hi1]. rewrite Hcheck in Hs1, Hi1.
    cbn [snd] in Hs1, Hi1.
    apply checkLimits_passed in Hcheck as (_ & _ & _ & Hrapid & _); [|exact Hinit].
    rewrite (proj1 (recordAction_stats action target l1 ltac:(congruence))), Hs1.
    unfold P. cbn. split; [|intros _; exact (Hstart eq_refl)].
    destruct (Hstart eq_refl) as [i Hi]. rewrite Hi in Hrapid.
    pose proof (Hclock i (ticks l)). lia.
  - unfold P. cbn. split; [lia | discriminate].
Qed.

End Limiter.

(* ===================================================================== *)
(** * The world of a run changes only through the tools *)
(* ===================================================================== *)

Section WorldInRun.
Import agent AgentSpec RunSpec.

Context {W RawMessage : Type}.
Variable a_tools : list (ToolDefinition W RawMessage).
Variable getUserMessage : nat -> string * bool.
Variable client_Messages_New : nat -> list (MessageParam RawMessage) -> error + Message RawMessage.
Variable clock : nat -> Z.
Variable rate_error : Z -> Z -> error.

Lemma findTool_in_In (l : list (ToolDefinition W RawMessage)) (name : string)
    (tool : ToolDefinition W RawMessage) :
  findTool_in l name = Some tool -> In tool l.
Proof.
  induction l as [|t l IH]; cbn; [discriminate|].
  destruct (String.eqb (Name t) name); [intros [= ->]; now left | auto].
Qed.

Lemma executeTool_world (I : W -> Prop) (id name : string) (input : RawMessage)
    (st : State W RawMessage) :
  (forall tool input w, In tool a_tools -> I w -> I (snd (Function tool input w))) ->
  I (world st) -> I (world (snd (executeTool a_tools id name input st))).
Proof.
  intros Htools HI. unfold executeTool, findTool.
  destruct (findTool_in a_tools name) as [tool|] eqn:Hfind; [|exact HI].
  apply findTool_in_In in Hfind. cbn [emit world].
  pose proof (Htools tool input (world st) Hfind HI) as H1.
  destruct (Function tool input (world st)) as [[response [e|]] w]; exact H1.
Qed.

Lemma process_tool_use_world (I : W -> Prop) (id name : string) (input : RawMessage)
    (toolResults : list (ContentBlockParam RawMessage)) (st : State W RawMessage) :
  (forall tool input w, In tool a_tools -> I w -> I (snd (Function tool input w))) ->
  I (world st) ->
  I (world (snd (process_tool_use a_tools clock rate_error id name input toolResults st))).
Proof.
  intros Htools HI. unfold process_tool_use. cbn.
  destruct (_ <? _); [exact HI|].
  destruct (_ && _); [exact HI|].
  destruct (Minute <? _); cbn;
    destruct (String.eqb _ name); cbn;
    try destruct (_ <=? _); cbn; try exact HI;
    match goal with
    | |- context [executeTool a_tools id name input ?s] =>
        pose proof (executeTool_world I id name input s Htools HI) as H1;
        destruct (executeTool a_tools id name input s) as [result st2]
    end; exact H1.
Qed.

(** A property of the world that every registered tool keeps holds of
    the world throughout a run. *)
Lemma Run_world_invariant (I : W -> Prop) (rounds : nat) (lp : LoopProtection) (w : W) :
  (forall tool input w, In tool a_tools -> I w -> I (snd (Function tool input w))) ->
  I w ->
  I (world (snd (Run a_tools getUserMessage client_Messages_New clock rate_error
                   rounds lp w))).
Proof.
  intros Htools HI.
  pose (K := fun st : State W RawMessage => I (world st)).
  pose proof (Run_principle a_tools getUserMessage client_Messages_New clock rate_error
                K K K K) as HP.
  assert (match fst (Run a_tools getUserMessage client_Messages_New clock rate_error
                       rounds lp w) return Prop with
          | Running true =>
              K (snd (Run a_tools getUserMessage client_Messages_New clock rate_error
                        rounds lp w))
          | Running false =>
              K (snd (Run a_tools getUserMessage client_Messages_New clock rate_error
                        rounds lp w))
          | Returned _ =>
              K (snd (Run a_tools getUserMessage client_Messages_New clock rate_error
                        rounds lp w))
          end) as H.
  2:{ destruct (fst (Run _ _ _ _ _ _ _ _)) as [[|]|err]; exact H. }
  apply HP; clear HP.
  - intros st H. exact H.
  - intros st H. exact H.
  - intros st H. exact H.
  - intros st H. exact H.
  - intros st ok st1 HK.
    unfold readUserInputToConversation, read_line. cbn.
    destruct (getUserMessage (inputs st)) as [userInput ok'].
    destruct ok'; cbn; intros [= <- <-]; exact HK.
  - intros st r st2 HK. unfold generateResponse. intros [= <- <-].
    destruct (client_Messages_New _ _) as [err|message]; exact HK.
  - intros message st readNext err st3 HK Hproc.
    pose proof (processToolUsages_principle a_tools clock rate_error K (fun _ => K)) as HB.
    specialize (HB (fun text st H => H)).
    assert (forall id name input toolResults st r st',
              K st ->
              process_tool_use a_tools clock rate_error id name input toolResults st
              = (r, st') ->
              match r with
              | inl (_, _) => K st'
              | inr _ => K st'
              end) as Htool.
    { intros id name input toolResults st0 r st' HK0 Hp.
      pose proof (process_tool_use_world I id name input toolResults st0 Htools HK0) as H1.
      rewrite Hp in H1. destruct r as [[b e]|results]; exact H1. }
    specialize (HB Htool message st readNext err st3 HK Hproc).
    destruct err as [e|]; [exact HB|].
    destruct readNext; [exact HB|].
    destruct HB as (st1 & results & H1 & ->). exact H1.
  - exact HI.
Qed.

(** X26. A run changes the world only by running the functions of the
    registered tools: a relation between worlds that holds of a world and
    itself, that is transitive, and that holds between the world before
    and the world after every call of every registered tool, holds
    between the world [Run] is called in and the world it leaves,
    whatever the user, the client and the clock do. *)
Theorem world_changes_only_through_tools (R : W -> W -> Prop) (rounds : nat)
    (lp : LoopProtection) (w : W) :
  (forall w, R w w) ->
  (forall w1 w2 w3, R w1 w2 -> R w2 w3 -> R w1 w3) ->
  (forall tool input w, In tool a_tools -> R w (snd (Function tool input w))) ->
  R w (world (snd (Run a_tools getUserMessage client_Messages_New clock rate_error
                     rounds lp w))).
Proof.
  intros Hrefl Htrans Htools.
  apply (Run_world_invariant (fun w' => R w w')); [|apply Hrefl].
  intros tool input w' Hin Hw'. exact (Htrans _ _ _ Hw' (Htools tool input w' Hin)).
Qed.

End WorldInRun.

(* ===================================================================== *)
(** * A session with the modelled tools *)
(* ===================================================================== *)

Section Session.
Import agent AgentSpec RunSpec EditSpec LimiterSpec registry.

Variable path_Dir : string -> string.
Context {engine : RegexpEngine} {RawMessage : Type}.
Variable editor_Unmarshal : RawMessage -> error + tools.FileEditorInput.
Variable reader_Unmarshal : RawMessage -> error + file_reader.FileReaderInput.
Variable limiter_Unmarshal : RawMessage -> error + action_limiter.ActionLimiterInput.
Variable limiter_clock : nat -> Z.
Variable map_range : nat -> gmap string Z -> list (string * Z).
Variable fmt_seconds : Z -> string.
Variable fmt_minutes : Z -> string.
Variable json_MarshalIndent : action_limiter.ActionStats -> error + string.
Variable getUserMessage : nat -> string * bool.
Variable client_Messages_New : nat -> list (MessageParam RawMessage) -> error + Message RawMessage.
Variable clock : nat -> Z.
Variable rate_error : Z -> Z -> error.

(** X27. A session of the agent with the tools read_file, file_editor
    and action_limiter removes no path and changes the kind of none:
    whatever the user and the client say, a path that is a directory when
    [Run] is called is a directory at every point between two rounds,
    and a path that is a regular file is a regular file. *)
Theorem session_keeps_files (rounds : nat) (lp : LoopProtection) (w : World) (q : string) :
  kept_at q (files w)
    (files (world (snd (Run
       (modelled_tools path_Dir RawMessage editor_Unmarshal reader_Unmarshal
          limiter_Unmarshal limiter_clock map_range fmt_seconds fmt_minutes
          json_MarshalIndent)
       getUserMessage client_Messages_New clock rate_error rounds lp w)))).
Proof.
  revert q.
  apply (Run_world_invariant _ getUserMessage client_Messages_New clock rate_error
           (fun w' => forall q, kept_at q (files w) (files w'))).
  - intros tool input w' Hin Hw' q.
    apply (kept_at_trans q _ (files w')); [apply Hw'|].
    destruct Hin as [<-|[<-|[<-|[]]]]; cbn.
    + apply kept_at_refl.
    + assert (kept_at q (files w')
                (snd (tools.EditFileContent path_Dir RawMessage editor_Unmarshal input
                        (files w')))) as H.
      { destruct (editor_Unmarshal input) as [e|inp] eqn:Hj.
        - unfold tools.EditFileContent. rewrite Hj. apply kept_at_refl.
        - revert q.
          apply (EditFileContent_related path_Dir editor_Unmarshal
                   (fun a b => forall q, kept_at q a b) (tools.Path inp)).
          + intros fs0 q. apply kept_at_refl.
          + intros a b c Hab Hbc q. exact (kept_at_trans q a b c (Hab q) (Hbc q)).
          + intros fs0 q. apply MkdirAll_kept.
          + intros data fs0 q. apply WriteFile_kept.
          + intros data fs0 q. apply AppendFile_kept.
          + intros inp' Hj'. congruence. }
      destruct (tools.EditFileContent _ _ _ _ _) as [res fs]. exact H.
    + destruct (action_limiter.ActionLimiter _ _ _ _ _ _ _ _ _) as [res l].
      apply kept_at_refl.
  - intros q. apply kept_at_refl.
Qed.


End Session.

(* ===================================================================== *)
(** * Shortening a string for the log *)
(* ===================================================================== *)

Section Truncate.
Import search_web.

Lemma len_app (a b : string) : len (a ++ b) = len a + len b.
Proof. unfold len. rewrite str_length_app. lia. Qed.

(** X29. [truncateString] with a limit that is not negative leaves a
    string within the limit as it is, and cuts a longer one to the limit
    and adds three dots: the result is then three bytes longer than the
    limit (and can be longer than the string it shortens); applied again
    to its result it changes nothing.  With a negative limit it panics on
    every string. *)
Theorem truncateString_correct (s : string) (maxLen : Z) :
  (maxLen < 0 -> truncateString s maxLen = None) /\
  (0 <= maxLen ->
   exists r,
     truncateString s maxLen = Some r /\
     (len s <= maxLen -> r = s) /\
     (maxLen < len s ->
      r = slice_to s maxLen ++ "..." /\ len r = maxLen + 3) /\
     truncateString r maxLen = Some r).
Proof.
  unfold truncateString. split.
  - intros Hneg. destruct (Z.leb_spec (len s) maxLen) as [Hle|_]; [unfold len in Hle; lia|].
    destruct (Z.ltb_spec maxLen 0) as [_|?]; [reflexivity | lia].
  - intros Hpos. destruct (Z.leb_spec (len s) maxLen) as [Hle|Hgt].
    + exists s. split; [reflexivity|]. split; [reflexivity|]. split; [lia|].
      destruct (Z.leb_spec (len s) maxLen) as [_|?]; [reflexivity | lia].
    + destruct (Z.ltb_spec maxLen 0) as [?|_]; [lia|].
      assert (String.length (slice_to s maxLen) = Z.to_nat maxLen) as Hlen
        by (unfold slice_to; apply str_length_take; unfold len in Hgt; lia).
      assert (len (slice_to s maxLen ++ "...") = maxLen + 3) as Hr.
      { rewrite len_app. unfold len at 1. rewrite Hlen. change (len "...") with 3. lia. }
      exists (slice_to s maxLen ++ "..."). split; [reflexivity|].
      split; [lia|]. split; [now split|].
      rewrite Hr. destruct (Z.leb_spec (maxLen + 3) maxLen) as [?|_]; [lia|].
      f_equal. f_equal. unfold slice_to at 1. rewrite <- Hlen. apply str_take_app.
Qed.

End Truncate.

(* ===================================================================== *)
(** * The configuration *)
(* ===================================================================== *)

Section Configuration.
Import config.

Context {ClientT UserMessageT ToolT : Type}.
Variable os_Getenv : string -> string.
Variable strconv_ParseInt : string -> error + Z.
Variable ModelClaude3_5HaikuLatest : string.
Variable ModelClaude3_7SonnetLatest : string.
Variable scan_stdin : UserMessageT.
Variable anthropic_NewClient : ClientT.
Variable GetAllTools : list ToolT.

(** X30. The defaults make every configuration valid: after
    [WithDefaults], [Validate] returns no error and the token limit is
    positive, and applying the defaults a second time changes nothing.
    A configuration that [LoadFromEnv] returns has an API key, and the
    model the environment names or else the Haiku default; the token
    limit it read is replaced by 1024 when it is not positive, and the
    client, the reader of user input and the tools are always the
    default ones. *)
Theorem defaults_make_config_valid (c : Config ClientT UserMessageT ToolT) :
  Validate (WithDefaults ModelClaude3_7SonnetLatest scan_stdin anthropic_NewClient
              GetAllTools c) = None /\
  0 < MaxTokens (WithDefaults ModelClaude3_7SonnetLatest scan_stdin anthropic_NewClient
                   GetAllTools c) /\
  WithDefaults ModelClaude3_7SonnetLatest scan_stdin anthropic_NewClient GetAllTools
    (WithDefaults ModelClaude3_7SonnetLatest scan_stdin anthropic_NewClient GetAllTools c)
  = WithDefaults ModelClaude3_7SonnetLatest scan_stdin anthropic_NewClient GetAllTools c /\
  (LoadFromEnv os_Getenv strconv_ParseInt ModelClaude3_5HaikuLatest = inr c ->
   AnthropicAPIKey c = os_Getenv "ANTHROPIC_API_KEY" /\
   AnthropicAPIKey c <> "" /\
   Model c = (if String.eqb (os_Getenv "CLAUDE_MODEL") "" then ModelClaude3_5HaikuLatest
              else os_Getenv "CLAUDE_MODEL") /\
   WithDefaults ModelClaude3_7SonnetLatest scan_stdin anthropic_NewClient GetAllTools c
   = {| AnthropicAPIKey := AnthropicAPIKey c;
        Model := if String.eqb (Model c) "" then ModelClaude3_7SonnetLatest else Model c;
        MaxTokens := if MaxTokens c <=? 0 then 1024 else MaxTokens c;
        GetUserMessage := Some scan_stdin;
        Client := Some anthropic_NewClient;
        Tools := Some GetAllTools |}).
Proof.
  split; [|split; [|split]].
  - unfold Validate, WithDefaults. cbn.
    destruct (Client c); destruct (GetUserMessage c); reflexivity.
  - unfold WithDefaults. cbn. destruct (Z.leb_spec (MaxTokens c) 0); lia.
  - unfold WithDefaults. cbn. f_equal.
    + destruct (String.eqb_spec (Model c) "") as [E|E].
      * destruct (String.eqb ModelClaude3_7SonnetLatest ""); reflexivity.
      * now rewrite (str_eqb_false _ _ E).
    + destruct (Z.leb_spec (MaxTokens c) 0) as [?|Hgt]; [reflexivity|].
      destruct (Z.leb_spec (MaxTokens c) 0); [lia | reflexivity].
    + destruct (GetUserMessage c); reflexivity.
    + destruct (Client c); reflexivity.
    + destruct (Tools c); reflexivity.
  - unfold LoadFromEnv, getEnvOrDefault. cbn.
    destruct (strconv_ParseInt _) as [err|maxTokens]; [discriminate|].
    destruct (String.eqb_spec (os_Getenv "ANTHROPIC_API_KEY") "") as [|Hkey];
      [discriminate|].
    intros [= <-]. cbn. split; [reflexivity|]. split; [exact Hkey|].
    split; [|reflexivity].
    destruct (String.eqb (os_Getenv "CLAUDE_MODEL") ""); reflexivity.
Qed.

End Configuration.

(* ===================================================================== *)
(** * The further theorems at concrete inputs *)
(* ===================================================================== *)

Section MoreInstances.
Import os tools agent AgentSpec RunSpec ResponseSpec ReplaceSpec FileSpec EditSpec.
Import LimiterSpec Examples MoreExamples.


(** X3 at an input: a replace in notes.txt. *)
Lemma edit_of_existing_file_witness :
  (failed (EditFileContent working_dir (engine := regexp.engine) FileEditorInput parsed
             replace_one_cat notes) ->
   snd (EditFileContent working_dir (engine := regexp.engine) FileEditorInput parsed
          replace_one_cat notes) = notes) /\
  exists c',
    snd (EditFileContent working_dir (engine := regexp.engine) FileEditorInput parsed
           replace_one_cat notes)
    = <["notes.txt" := File c']> notes.
Proof.
  refine (edit_of_existing_file working_dir (engine := regexp.engine) parsed
            replace_one_cat replace_one_cat notes "one cat, two cats" eq_refl _).
  vm_compute; reflexivity.
Defined.

(** X4 at an input: appending "!" to notes.txt. *)
Lemma append_prepend_existing_witness :
  EditFileContent working_dir (engine := regexp.engine) FileEditorInput parsed
    append_bang notes
  = (("Successfully appended content to " ++ "notes.txt", None),
     <["notes.txt" := File ("one cat, two cats" ++ "!")]> notes).
Proof.
  refine (proj1 (append_prepend_existing working_dir (engine := regexp.engine) parsed
                   append_bang append_bang notes "one cat, two cats" eq_refl _ _)
            eq_refl);
    [discriminate | vm_compute; reflexivity].
Defined.

(** X5 at an input: a heading before and a full stop after the notes. *)
Lemma append_prepend_commute_witness :
  prependToFile working_dir "notes.txt" "Notes: "
    (snd (appendToFile working_dir "notes.txt" "." notes))
  = (("Successfully prepended content to " ++ "notes.txt", None),
     <["notes.txt" := File ("Notes: " ++ "one cat, two cats" ++ ".")]> notes) /\
  appendToFile working_dir "notes.txt" "."
    (snd (prependToFile working_dir "notes.txt" "Notes: " notes))
  = (("Successfully appended content to " ++ "notes.txt", None),
     <["notes.txt" := File ("Notes: " ++ "one cat, two cats" ++ ".")]> notes).
Proof.
  refine (append_prepend_commute working_dir "notes.txt" "Notes: " "." notes
            "one cat, two cats" _).
  vm_compute; reflexivity.
Defined.



(** X8 at an input: creating notes.txt without content. *)
Lemma rejected_edit_changes_nothing_witness :
  snd (EditFileContent working_dir (engine := regexp.engine) FileEditorInput parsed
         create_notes_empty notes) = notes.
Proof.
  refine (rejected_edit_changes_nothing working_dir (engine := regexp.engine) parsed
            create_notes_empty create_notes_empty notes eq_refl _).
  right; left; split; reflexivity.
Defined.



(** X12 at an input: sixteen rounds within the first minute. *)
Lemma rate_limit_bounds_executions_witness :
  executions (trace (snd sixteen_rounds))
  <= Z.max 0 (MaxToolUsesPerMinute (NewLoopProtection 0 0) - 1
              - ToolUseCount (NewLoopProtection 0 0)).
Proof.
  refine (rate_limit_bounds_executions [list_files_tool; read_file_tool] one_line_user
            tool_every_time still_clock plain_rate_error 16 (NewLoopProtection 0 0) tt _).
  intros t; vm_compute; discriminate.
Defined.

(** X14 at an input: sixteen rounds with a client that turns down
    malformed requests. *)
Lemma client_asked_well_formed_requests_witness :
  Run [list_files_tool; read_file_tool] one_line_user guarded_client still_clock
    plain_rate_error 16 (NewLoopProtection 0 0) tt
  = Run [list_files_tool; read_file_tool] one_line_user tool_every_time still_clock
      plain_rate_error 16 (NewLoopProtection 0 0) tt.
Proof.
  refine (client_asked_well_formed_requests [list_files_tool; read_file_tool]
            one_line_user still_clock plain_rate_error tool_every_time guarded_client
            16 (NewLoopProtection 0 0) tt _).
  intros n conv Hok; unfold guarded_client; rewrite Hok; reflexivity.
Defined.

(** X15 at an input: two tools registered as read_file. *)
Lemma executeTool_runs_first_match_witness :
  executeTool [list_files_tool; read_file_tool; shadowed_tool] "t1" "read_file" tt fresh
  = (match snd (fst (Function read_file_tool tt (world fresh))) with
     | Some e => NewToolResultBlock "t1" (Error e) true
     | None => NewToolResultBlock "t1" (fst (fst (Function read_file_tool tt (world fresh))))
                 false
     end,
     set_world (snd (Function read_file_tool tt (world fresh)))
       (emit (EvCall "t1" "read_file") fresh)).
Proof.
  refine (executeTool_runs_first_match [list_files_tool; read_file_tool; shadowed_tool]
            [list_files_tool] [shadowed_tool] read_file_tool "t1" "read_file" tt fresh
            eq_refl _ eq_refl).
  repeat constructor; discriminate.
Defined.

(** X16 at an input: a tool that is not registered. *)
Lemma unknown_tool_not_found_witness :
  world (snd (process_tool_use [read_file_tool] still_clock plain_rate_error
                "t1" "write_file" tt [] fresh))
  = world fresh /\
  ConsecutiveToolUses
    (loopProtection
       (snd (process_tool_use [read_file_tool] still_clock plain_rate_error
               "t1" "write_file" tt [] fresh)))
  = ConsecutiveToolUses (loopProtection fresh) + 1 /\
  ((exists err,
      fst (process_tool_use [read_file_tool] still_clock plain_rate_error
             "t1" "write_file" tt [] fresh)
      = inl (true, err)) \/
   (fst (process_tool_use [read_file_tool] still_clock plain_rate_error
           "t1" "write_file" tt [] fresh)
    = inr ([] ++ [NewToolResultBlock "t1" "tool not found" true])%list /\
    exists pre,
      trace (snd (process_tool_use [read_file_tool] still_clock plain_rate_error
                    "t1" "write_file" tt [] fresh))
      = (pre ++ [EvNotFound "t1" "write_file"])%list)).
Proof.
  refine (unknown_tool_not_found [read_file_tool] still_clock plain_rate_error
            "t1" "write_file" tt [] fresh _).
  repeat constructor; discriminate.
Defined.

(** X17 at an input: a response of two text blocks. *)
Lemma text_only_response_witness :
  processToolUsages [read_file_tool] still_clock plain_rate_error just_text fresh
  = ((true, None),
     {| conversation := conversation fresh; loopProtection := loopProtection fresh;
        world := world fresh; ticks := ticks fresh; inputs := inputs fresh;
        requests := requests fresh;
        trace := (trace fresh ++ printed_texts (Content just_text))%list |}).
Proof.
  exact (text_only_response [read_file_tool] still_clock plain_rate_error just_text fresh
           eq_refl).
Defined.

(** X18 at an input: an agent with tracking left over from earlier. *)
Lemma run_ignores_initial_tracking_witness :
  fst (Run [list_files_tool; read_file_tool] one_line_user tool_every_time still_clock
         plain_rate_error 16 stale_tracking tt)
  = fst (Run [list_files_tool; read_file_tool] one_line_user tool_every_time still_clock
           plain_rate_error 16 (NewLoopProtection 0 0) tt) /\
  trace (snd (Run [list_files_tool; read_file_tool] one_line_user tool_every_time
                still_clock plain_rate_error 16 stale_tracking tt))
  = trace (snd (Run [list_files_tool; read_file_tool] one_line_user tool_every_time
                  still_clock plain_rate_error 16 (NewLoopProtection 0 0) tt)) /\
  conversation (snd (Run [list_files_tool; read_file_tool] one_line_user tool_every_time
                       still_clock plain_rate_error 16 stale_tracking tt))
  = conversation (snd (Run [list_files_tool; read_file_tool] one_line_user
                         tool_every_time still_clock plain_rate_error 16
                         (NewLoopProtection 0 0) tt)) /\
  world (snd (Run [list_files_tool; read_file_tool] one_line_user tool_every_time
                still_clock plain_rate_error 16 stale_tracking tt))
  = world (snd (Run [list_files_tool; read_file_tool] one_line_user tool_every_time
                  still_clock plain_rate_error 16 (NewLoopProtection 0 0) tt)).
Proof.
  refine (run_ignores_initial_tracking [list_files_tool; read_file_tool] one_line_user
            tool_every_time still_clock plain_rate_error 16 (NewLoopProtection 0 0)
            stale_tracking tt _).
  repeat split.
Defined.

(** X19 at an input: with a clock that advances a minute at a time,
    the default session of thirty minutes is over within 31 rounds. *)
Lemma session_limit_ends_run_witness :
  exists err,
    fst (Run [list_files_tool; read_file_tool] one_line_user tool_every_time minute_clock
           plain_rate_error 31 (NewLoopProtection 0 0) tt)
    = Returned err.
Proof.
  refine (session_limit_ends_run [list_files_tool; read_file_tool] one_line_user
            tool_every_time minute_clock plain_rate_error 31 (NewLoopProtection 0 0) tt
            _ _ _);
    [intros t; unfold minute_clock, Minute; lia | lia | vm_compute; reflexivity].
Defined.

Lemma in_map_order_visits_all : visits_all in_map_order.
Proof.
  intros n m k c Hk. unfold in_map_order.
  apply list_elem_of_In, elem_of_map_to_list. exact Hk.
Qed.

(** X20 at an input: an edit, a check and another edit. *)
Lemma limiter_stays_within_limits_witness :
  within_limits
    (action_limiter.stats
       (after_calls
          (action_limiter.ActionLimiter still_clock in_map_order plain_float plain_float
             action_limiter.ActionLimiterInput parsed_action plain_stats)
          [edit_main; check_main; edit_main] action_limiter.zero)).
Proof.
  exact (limiter_stays_within_limits still_clock in_map_order plain_float plain_float
           parsed_action plain_stats [edit_main; check_main; edit_main]
           in_map_order_visits_all).
Defined.

(** X22 at an input: after five edits of main.go in a row, a check is
    turned down. *)
Lemma count_limit_blocks_until_reset_witness :
  exists reason,
    fst (action_limiter.ActionLimiter still_clock in_map_order plain_float plain_float
           action_limiter.ActionLimiterInput parsed_action plain_stats
           check_main five_edits)
    = ("Action limit exceeded: " ++ reason, None) /\
    action_limiter.stats
      (snd (action_limiter.ActionLimiter still_clock in_map_order plain_float plain_float
              action_limiter.ActionLimiterInput parsed_action plain_stats
              check_main five_edits))
    = action_limiter.stats five_edits.
Proof.
  refine (count_limit_blocks_until_reset still_clock in_map_order plain_float plain_float
            parsed_action plain_stats check_main check_main five_edits
            in_map_order_visits_all _ _ eq_refl eq_refl);
    [vm_compute; reflexivity | right; right; vm_compute; discriminate].
Defined.

(** X23 at an input: a reset after five edits. *)
Lemma reset_clears_everything_witness :
  fst (action_limiter.ActionLimiter still_clock in_map_order plain_float plain_float
         action_limiter.ActionLimiterInput parsed_action plain_stats reset_all five_edits)
  = ("Action stats reset successfully", None) /\
  action_limiter.isInitialized
    (snd (action_limiter.ActionLimiter still_clock in_map_order plain_float plain_float
            action_limiter.ActionLimiterInput parsed_action plain_stats
            reset_all five_edits)) = true /\
  exists t,
    (action_limiter.ticks five_edits <= t)%nat /\
    action_limiter.stats
      (snd (action_limiter.ActionLimiter still_clock in_map_order plain_float plain_float
              action_limiter.ActionLimiterInput parsed_action plain_stats
              reset_all five_edits))
    = action_limiter.fresh_stats (still_clock t) (still_clock (S t)).
Proof.
  exact (reset_clears_everything still_clock in_map_order plain_float plain_float
           parsed_action plain_stats reset_all reset_all five_edits eq_refl eq_refl).
Defined.

(** X24 at an input: a check after five edits. *)
Lemma check_only_records_nothing_witness :
  action_limiter.stats
    (snd (action_limiter.ActionLimiter still_clock in_map_order plain_float plain_float
            action_limiter.ActionLimiterInput parsed_action plain_stats
            check_main five_edits))
  = action_limiter.stats five_edits.
Proof.
  refine (check_only_records_nothing still_clock in_map_order plain_float plain_float
            parsed_action plain_stats check_main check_main five_edits
            _ eq_refl eq_refl _);
    [vm_compute; reflexivity | left; reflexivity].
Defined.

(** X25 at an input: edits with a clock that stands still. *)
Lemma rapid_actions_capped_witness :
  action_limiter.TotalActions
    (action_limiter.stats
       (after_calls
          (action_limiter.ActionLimiter still_clock in_map_order plain_float plain_float
             action_limiter.ActionLimiterInput parsed_action plain_stats)
          [edit_main; check_main; edit_main] action_limiter.zero)) <= 11.
Proof.
  refine (rapid_actions_capped still_clock in_map_order plain_float plain_float
            parsed_action plain_stats [edit_main; check_main; edit_main] _).
  intros i j; vm_compute; reflexivity.
Defined.

(** X26 at an input: a tool that counts its calls never brings the count
    below where it started. *)
Lemma world_changes_only_through_tools_witness :
  0 <= world (snd (Run [counter_tool] one_line_user tool_every_time still_clock
                     plain_rate_error 16 (NewLoopProtection 0 0) 0)).
Proof.
  refine (world_changes_only_through_tools [counter_tool] one_line_user tool_every_time
            still_clock plain_rate_error Z.le 16 (NewLoopProtection 0 0) 0 _ _ _).
  - intros w; lia.
  - intros w1 w2 w3 H12 H23; lia.
  - intros tool input w [<-|[]]; simpl; lia.
Defined.


(** X29 at an input: four bytes cut to three. *)
Lemma truncateString_correct_witness :
  exists r,
    search_web.truncateString "abcd" 3 = Some r /\
    (len "abcd" <= 3 -> r = "abcd") /\
    (3 < len "abcd" -> r = slice_to "abcd" 3 ++ "..." /\ len r = 3 + 3) /\
    search_web.truncateString r 3 = Some r.
Proof.
  refine (proj2 (truncateString_correct "abcd" 3) _). lia.
Defined.

(** X30 at an input: an environment with an API key and nothing else. *)
Lemma defaults_make_config_valid_witness :
  config.AnthropicAPIKey loaded = key_only "ANTHROPIC_API_KEY" /\
  config.AnthropicAPIKey loaded <> "" /\
  config.Model loaded
  = (if String.eqb (key_only "CLAUDE_MODEL") "" then "claude-3-5-haiku-latest"
     else key_only "CLAUDE_MODEL") /\
  config.WithDefaults "claude-3-7-sonnet-latest" tt tt [tt] loaded
  = {| config.AnthropicAPIKey := config.AnthropicAPIKey loaded;
       config.Model := if String.eqb (config.Model loaded) ""
                       then "claude-3-7-sonnet-latest" else config.Model loaded;
       config.MaxTokens := if config.MaxTokens loaded <=? 0 then 1024
                           else config.MaxTokens loaded;
       config.GetUserMessage := Some tt;
       config.Client := Some tt;
       config.Tools := Some [tt] |}.
Proof.
  exact (proj2 (proj2 (proj2
           (defaults_make_config_valid key_only parse_default "claude-3-5-haiku-latest"
              "claude-3-7-sonnet-latest" tt tt [tt] loaded))) eq_refl).
Defined.

End MoreInstances.
